(** * Multi-camera acquisition and tracking pipeline: a shallow embedding

    This development embeds the pure logic of [camera_manager.py],
    [object_tracker.py] and [config.py] and proves properties of it.

    Modelling conventions.
    - Python [int] is [Z]; [//] is [Z.div] (floor division).
    - Python [float] is read as an exact rational ([Q]): every float
      operation is the exact rational operation, and a float literal is
      the decimal it spells.  Results are compared with [==] ([Qeq]).
      [int(...)] of a float is thus the truncation of the exact value:
      where the code truncates a rounded float (the sides of a box, a
      canvas coordinate, the radius of a mark), its integer can differ
      by one for values within rounding of an integer.  The properties
      below either do not depend on such values or keep a margin from
      the values where a comparison or a truncation steps.
    - Python [str] is [string]; characters are code points below 256.
    - A raised exception is a value [Raise e] of the [result] type; a
      [try/except Exception] is a match on it.
    - Objects that the code mutates through several references live in
      an explicit store and are named by their index in it. *)

From Stdlib Require Import ZArith QArith Qabs Qround Lia Lqa Bool Ascii.
From Stdlib Require String DecimalString.
From stdpp Require Import base option list gmap strings.

Local Open Scope Z_scope.

(** ** Exceptions *)

Inductive exn : Type :=
| ZeroDivisionError
| KeyError
| ValueError
| CvError (msg : string)
| OtherError.

Inductive result (A : Type) : Type :=
| Ok (a : A)
| Raise (e : exn).
Arguments Ok {A} a.
Arguments Raise {A} e.

Definition rbind {A B : Type} (m : result A) (k : A -> result B) : result B :=
  match m with
  | Ok a => k a
  | Raise e => Raise e
  end.

Notation "x <- m ;; k" := (rbind m (fun x => k))
  (at level 100, m at next level, right associativity).

(** [try: m except Exception: d] *)
Definition try_except {A : Type} (m : result A) (d : A) : A :=
  match m with
  | Ok a => a
  | Raise _ => d
  end.

(** ** Python string primitives used by [camera_manager.py] *)

Module PyStr.

(** [str.isspace] on the code points below 256. *)
Definition isspace (c : ascii) : bool :=
  let n := nat_of_ascii c in
  ((9 <=? n)%nat && (n <=? 13)%nat) || ((28 <=? n)%nat && (n <=? 32)%nat)
  || (n =? 133)%nat || (n =? 160)%nat.

Fixpoint lstrip (s : string) : string :=
  match s with
  | EmptyString => EmptyString
  | String c s' => if isspace c then lstrip s' else s
  end.

Fixpoint rstrip (s : string) : string :=
  match s with
  | EmptyString => EmptyString
  | String c s' =>
      match rstrip s' with
      | EmptyString => if isspace c then EmptyString else String c EmptyString
      | r => String c r
      end
  end.

(** [s.strip()] *)
Definition strip (s : string) : string := rstrip (lstrip s).

(** [s.startswith(p)] *)
Fixpoint startswith (p s : string) : bool :=
  match p, s with
  | EmptyString, _ => true
  | String a p', String b s' => if Ascii.eqb a b then startswith p' s' else false
  | String _ _, EmptyString => false
  end.

(** [needle in s] *)
Fixpoint contains (needle s : string) : bool :=
  startswith needle s ||
  match s with
  | EmptyString => false
  | String _ s' => contains needle s'
  end.

(** [s.endswith(p)] *)
Fixpoint endswith (p s : string) : bool :=
  String.eqb p s ||
  match s with
  | EmptyString => false
  | String _ s' => endswith p s'
  end.

(** [s.replace(old, new)] for a non-empty [old]: the occurrences of
    [old] are found left to right without overlap.  [skip] counts the
    characters of an occurrence still to be dropped. *)
Fixpoint replace_from (old new : string) (skip : nat) (s : string) : string :=
  match s with
  | EmptyString => EmptyString
  | String c s' =>
      match skip with
      | S k => replace_from old new k s'
      | O =>
          if startswith old s
          then new +:+ replace_from old new (String.length old - 1) s'
          else String c (replace_from old new 0 s')
      end
  end.

(** With an empty [old] Python puts [new] before every character and
    at the end. *)
Fixpoint interleave (new s : string) : string :=
  match s with
  | EmptyString => new
  | String c s' => new +:+ String c (interleave new s')
  end.

(** [s.lower()] on ASCII letters. *)
Definition lower_ascii (c : ascii) : ascii :=
  let n := nat_of_ascii c in
  if ((65 <=? n)%nat && (n <=? 90)%nat) then ascii_of_nat (n + 32) else c.

Fixpoint lower (s : string) : string :=
  match s with
  | EmptyString => EmptyString
  | String c s' => String (lower_ascii c) (lower s')
  end.

Definition replace (old new s : string) : string :=
  match old with
  | EmptyString => interleave new s
  | String _ _ => replace_from old new 0 s
  end.

End PyStr.

(** ** [camera_manager.py]: address normalisation *)

(** [CameraStream._format_ip_webcam_url] *)
Definition _format_ip_webcam_url (url : string) : string :=
  let url := PyStr.strip url in
  let url :=
    if negb (PyStr.startswith "http://" url || PyStr.startswith "https://" url)
    then "http://" +:+ url
    else url in
  if PyStr.contains "/video" url then
    PyStr.replace "/video" "/shot.jpg" url
  else if PyStr.contains "/shot.jpg" url then
    url
  else if PyStr.contains "/videofeed" url then
    PyStr.replace "/videofeed" "/shot.jpg" url
  else if PyStr.contains "/stream" url then
    PyStr.replace "/stream" "/shot.jpg" url
  else if PyStr.contains ":" url && negb (PyStr.endswith "/" url) then
    url +:+ "/shot.jpg"
  else
    url.

(** ** [config.py] *)

Definition FRAME_WIDTH : Z := 640.
Definition FRAME_HEIGHT : Z := 480.
Definition CAMERA_DISTANCE : Q := (5 # 10)%Q.
Definition MIN_OBJECT_SIZE : Z := 500.
Definition MAX_OBJECT_SIZE : Z := 200000.
Definition TRACK_CLASSES : list string := ["car"].
Definition TRACKING_HISTORY_LENGTH : nat := 30.

(** ** Python numeric primitives *)

(** [a < b] on floats, as a boolean. *)
Definition Qltb (a b : Q) : bool := negb (Qle_bool b a).

(** [a / b]: raises [ZeroDivisionError] on a zero divisor. *)
Definition truediv (a b : Q) : result Q :=
  if Qeq_bool b 0 then Raise ZeroDivisionError else Ok (a / b)%Q.

(** [max(a, b)] and [min(a, b)] keep the first argument unless the
    second is strictly better. *)
Definition py_max (a b : Q) : Q := if Qltb a b then b else a.
Definition py_min (a b : Q) : Q := if Qltb b a then b else a.

(** [int(q)] truncates toward zero. *)
Definition py_int (q : Q) : Z :=
  if Qltb q 0%Q then Qceiling q else Qfloor q.

(** ** [object_tracker.py]: data model *)

Definition BBox : Type := (Z * Z * Z * Z)%type.
Definition Position3D : Type := (Q * Q * Q)%type.

Record DetectedObject : Type := mkDetectedObject {
  bbox : BBox;
  confidence : Q;
  class_id : Z;
  class_name : string;
  camera_id : string;
  timestamp : Q;
  track_id : option Z;
  position_3d : option Position3D
}.

(** [DetectedObject.__init__]; [now] is the reading of [time.time()]. *)
Definition new_DetectedObject (b : BBox) (conf : Q) (cid : Z)
    (cname cam : string) (now : Q) : DetectedObject :=
  mkDetectedObject b conf cid cname cam now None None.

Definition set_track (tid : Z) (b : BBox) (o : DetectedObject) : DetectedObject :=
  mkDetectedObject b (confidence o) (class_id o) (class_name o)
    (camera_id o) (timestamp o) (Some tid) (position_3d o).

Definition set_position_3d (p : Position3D) (o : DetectedObject) : DetectedObject :=
  mkDetectedObject (bbox o) (confidence o) (class_id o) (class_name o)
    (camera_id o) (timestamp o) (track_id o) (Some p).

(** [DetectedObject.get_center] *)
Definition get_center (o : DetectedObject) : Z * Z :=
  let '(x, y, w, h) := bbox o in (x + w / 2, y + h / 2).

(** [DetectedObject.get_area] *)
Definition get_area (o : DetectedObject) : Z :=
  let '(x, y, w, h) := bbox o in w * h.

(** ** [ObjectTracker._calculate_iou] *)

Definition _calculate_iou (bbox1 bbox2 : BBox) : result Q :=
  let '(x1, y1, w1, h1) := bbox1 in
  let '(x2, y2, w2, h2) := bbox2 in
  let x_left := Z.max x1 x2 in
  let y_top := Z.max y1 y2 in
  let x_right := Z.min (x1 + w1) (x2 + w2) in
  let y_bottom := Z.min (y1 + h1) (y2 + h2) in
  if (x_right <? x_left) || (y_bottom <? y_top) then Ok 0%Q
  else
    let intersection := (x_right - x_left) * (y_bottom - y_top) in
    let area1 := w1 * h1 in
    let area2 := w2 * h2 in
    let union := area1 + area2 - intersection in
    if 0 <? union then truediv (inject_Z intersection) (inject_Z union)
    else Ok 0%Q.

(** ** Position estimation *)

(** Pixel coordinate to normalized coordinate,
    [(c - SIZE // 2) / (SIZE // 2)]. *)
Definition normalize (c size : Z) : result Q :=
  truediv (inject_Z (c - size / 2)) (inject_Z (size / 2)).

(** [ObjectTracker._triangulate_position] *)
Definition _triangulate_position (obj1 obj2 : DetectedObject) : option Position3D :=
  try_except (
    let center1 := get_center obj1 in
    let center2 := get_center obj2 in
    x1 <- normalize (fst center1) FRAME_WIDTH ;;
    y1 <- normalize (snd center1) FRAME_HEIGHT ;;
    x2 <- normalize (fst center2) FRAME_WIDTH ;;
    y2 <- normalize (snd center2) FRAME_HEIGHT ;;
    let disparity := Qabs (x1 - x2) in
    if Qltb disparity (1 # 100) then Ok None
    else
      depth <- truediv CAMERA_DISTANCE disparity ;;
      x_3d <- truediv ((x1 + x2) * depth) 2 ;;
      y_3d <- truediv ((y1 + y2) * depth) 2 ;;
      let z_3d := depth in
      Ok (Some (x_3d, y_3d, z_3d))
  )%Q None.

(** [ObjectTracker._estimate_single_camera_position] *)
Definition _estimate_single_camera_position (obj : DetectedObject)
    (cam : string) : option Position3D :=
  try_except (
    let center := get_center obj in
    x_norm <- normalize (fst center) FRAME_WIDTH ;;
    y_norm <- normalize (snd center) FRAME_HEIGHT ;;
    let area := get_area obj in
    let max_area := inject_Z (FRAME_WIDTH * FRAME_HEIGHT) * (1 # 10) in
    ratio <- truediv (inject_Z area) max_area ;;
    let depth_factor := py_max (1 # 10) (py_min 1 ratio) in
    let min_depth := 1 in
    let max_depth := 10 in
    let estimated_depth := min_depth + (max_depth - min_depth) * (1 - depth_factor) in
    x_3d <-
      (if String.eqb cam "camera1"
       then
         offset <- truediv (- CAMERA_DISTANCE) 2 ;;
         Ok (offset + x_norm * estimated_depth)
       else
         offset <- truediv CAMERA_DISTANCE 2 ;;
         Ok (offset + x_norm * estimated_depth)) ;;
    let y_3d := y_norm * estimated_depth in
    let z_3d := estimated_depth in
    Ok (Some (x_3d, y_3d, z_3d))
  )%Q None.

(** ** Detection and identity assignment *)

(** One box of a detector result: [box.xyxy[0]], [box.conf[0]],
    [box.cls[0]]. *)
Record RawBox : Type := mkRawBox {
  xyxy : Q * Q * Q * Q;
  conf : Q;
  cls : Q
}.

(** One track returned by the identity tracker: [track.is_confirmed()],
    [track.track_id], [track.to_tlbr()]. *)
Record Track : Type := mkTrack {
  is_confirmed : bool;
  tr_track_id : Z;
  to_tlbr : Q * Q * Q * Q
}.

(** The detection handed to the tracker:
    [([x, y, w, h], confidence, class_name)]. *)
Definition Detection : Type := (BBox * Q * string)%type.

Section Tracker.

(** A decoded image; its pixels play no role in the orchestrator. *)
Context {Frame : Type}.

(** The detector capability: calling the model on a frame gives a
    list of results, each with [boxes] (possibly [None]), or raises;
    [names] is the class table. *)
Record Yolo : Type := mkYolo {
  yolo_call : Frame -> result (list (option (list RawBox)));
  names : gmap Z string
}.

(** The identity tracker capability, [update_tracks(detections,
    frame=frame)].  A tracker is called once per source and cycle; the
    state it keeps between cycles is its own. *)
Definition DeepSort : Type := list Detection -> Frame -> result (list Track).

Record ObjectTracker : Type := mkObjectTracker {
  yolo_model : option Yolo;
  trackers : gmap string DeepSort;
  object_history : gmap Z (list DetectedObject)
}.

(** Body of the loop over [boxes] in [detect_objects].  The width and
    the height are the truncations of the exact differences (the code
    truncates the float32 differences). *)
Definition detect_box (m : Yolo) (cam : string) (now : Q)
    (detected_objects : list DetectedObject) (box : RawBox)
    : result (list DetectedObject) :=
  let '(x1, y1, x2, y2) := xyxy box in
  let x := py_int x1 in
  let y := py_int y1 in
  let w := py_int (x2 - x1)%Q in
  let h := py_int (y2 - y1)%Q in
  let confidence := conf box in
  let class_id := py_int (cls box) in
  match names m !! class_id with
  | None => Raise KeyError
  | Some class_name =>
      if bool_decide (class_name ∈ TRACK_CLASSES) then
        let area := w * h in
        if (MIN_OBJECT_SIZE <=? area) && (area <=? MAX_OBJECT_SIZE) then
          Ok (detected_objects ++
              [new_DetectedObject (x, y, w, h) confidence class_id class_name cam now])
        else Ok detected_objects
      else Ok detected_objects
  end.

(** [for x in xs: acc = body(acc, x)], stopping at the first raise. *)
Fixpoint for_each {A S : Type} (body : S -> A -> result S) (xs : list A)
    (acc : S) : result S :=
  match xs with
  | [] => Ok acc
  | x :: xs' => acc' <- body acc x ;; for_each body xs' acc'
  end.

Definition detect_result (m : Yolo) (cam : string) (now : Q)
    (detected_objects : list DetectedObject) (boxes : option (list RawBox))
    : result (list DetectedObject) :=
  match boxes with
  | None => Ok detected_objects
  | Some bs => for_each (detect_box m cam now) bs detected_objects
  end.

(** [ObjectTracker.detect_objects] *)
Definition detect_objects (self : ObjectTracker) (frame : Frame)
    (cam : string) (now : Q) : list DetectedObject :=
  match yolo_model self with
  | None => []
  | Some m =>
      try_except (
        results <- yolo_call m frame ;;
        for_each (detect_result m cam now) results []
      ) []
  end.

(** The objects of one source in a cycle are kept in a store (the
    list built by [detect_objects]); a reference to an object is its
    index.  The list returned by the identity assignment is a list of
    references, so an object promoted by two tracks occurs twice and
    shows the later writes at both places. *)
Record TrackingState : Type := mkTrackingState {
  store : list DetectedObject;
  tracked_objects : list nat;
  history : gmap Z (list DetectedObject)
}.

(** The inner loop [for obj in detected_objects] that looks for the
    best match of one track box; [i] is the index of the head of
    [objs] in the store. *)
Fixpoint best_match_loop (box : BBox) (objs : list DetectedObject) (i : nat)
    (best_obj : option nat) (best_iou : Q) : result (option nat * Q) :=
  match objs with
  | [] => Ok (best_obj, best_iou)
  | obj :: objs' =>
      iou <- _calculate_iou (bbox obj) box ;;
      if Qltb best_iou iou
      then best_match_loop box objs' (S i) (Some i) iou
      else best_match_loop box objs' (S i) best_obj best_iou
  end.

Definition find_best_match (box : BBox) (objs : list DetectedObject)
    : result (option nat * Q) :=
  best_match_loop box objs 0 None 0%Q.

(** [(x, y, w, h)] of a track from [to_tlbr()], the sides being the
    truncations of the exact differences. *)
Definition track_box (t : Track) : BBox :=
  let '(b0, b1, b2, b3) := to_tlbr t in
  (py_int b0, py_int b1, py_int (b2 - b0)%Q, py_int (b3 - b1)%Q).

(** [lst[-n:]] for [n > 0]. *)
Definition last_n {A : Type} (n : nat) (l : list A) : list A :=
  drop (length l - n) l.

(** The history bookkeeping of one promotion.  The history keeps the
    value the object has when it is appended, where the code appends
    the object itself: an entry of the code also shows what is written
    to the object later (identity, box, position).  The keys of the
    history and the lengths of its entries are those of the code. *)
Definition record_history (tid : Z) (o : DetectedObject)
    (h : gmap Z (list DetectedObject)) : gmap Z (list DetectedObject) :=
  let h := match h !! tid with None => <[tid := []]> h | Some _ => h end in
  let entry := default [] (h !! tid) ++ [o] in
  let h := <[tid := entry]> h in
  if (TRACKING_HISTORY_LENGTH <? length entry)%nat
  then <[tid := last_n TRACKING_HISTORY_LENGTH entry]> h
  else h.

(** Body of the loop [for track in tracks]. *)
Definition track_step (st : TrackingState) (track : Track) : result TrackingState :=
  if negb (is_confirmed track) then Ok st
  else
    let tid := tr_track_id track in
    let box := track_box track in
    best <- find_best_match box (store st) ;;
    match fst best with
    | None => Ok st
    | Some i =>
        match store st !! i with
        | None => Ok st
        | Some o =>
            let o' := set_track tid box o in
            Ok (mkTrackingState (<[i := o']> (store st))
                  (tracked_objects st ++ [i])
                  (record_history tid o' (history st)))
        end
    end.

(** The loop over the tracks; a raise leaves the loop with the state
    reached so far. *)
Fixpoint track_loop (st : TrackingState) (tracks : list Track)
    : TrackingState * option exn :=
  match tracks with
  | [] => (st, None)
  | t :: ts =>
      match track_step st t with
      | Ok st' => track_loop st' ts
      | Raise e => (st, Some e)
      end
  end.

(** References to all the objects of a store, in order: the list
    [detected_objects] itself. *)
Definition all_refs (objs : list DetectedObject) : list nat :=
  seq 0 (length objs).

(** [ObjectTracker._update_deepsort_tracking]: the result is the
    store after the call, the returned list as references into it,
    and the history. *)
Definition _update_deepsort_tracking (self : ObjectTracker) (frame : Frame)
    (detected_objects : list DetectedObject) (cam : string) : TrackingState :=
  match trackers self !! cam with
  | None =>
      mkTrackingState detected_objects (all_refs detected_objects)
        (object_history self)
  | Some tracker =>
      let detections :=
        map (fun obj => (bbox obj, confidence obj, class_name obj)) detected_objects in
      match tracker detections frame with
      | Raise _ =>
          mkTrackingState detected_objects (all_refs detected_objects)
            (object_history self)
      | Ok tracks =>
          let st0 := mkTrackingState detected_objects [] (object_history self) in
          match track_loop st0 tracks with
          | (st, None) => st
          | (st, Some _) =>
              mkTrackingState (store st) (all_refs (store st)) (history st)
          end
      end
  end.

(** The objects a list of references denotes. *)
Definition deref (objs : list DetectedObject) (refs : list nat)
    : list DetectedObject :=
  omap (fun i => objs !! i) refs.

(** The inner loop of [_calculate_3d_positions]: the object of the
    second source with the same class and the best vertical
    similarity above 0.3. *)
Fixpoint similarity_loop (obj1 : DetectedObject) (store2 : list DetectedObject)
    (objects2 : list nat) (best_match : option nat) (best_similarity : Q)
    : result (option nat) :=
  match objects2 with
  | [] => Ok best_match
  | r2 :: rest =>
      match store2 !! r2 with
      | None => similarity_loop obj1 store2 rest best_match best_similarity
      | Some obj2 =>
          if String.eqb (class_name obj1) (class_name obj2) then
            let center1 := get_center obj1 in
            let center2 := get_center obj2 in
            let y_diff := Z.abs (snd center1 - snd center2) in
            ratio <- truediv (inject_Z y_diff) (inject_Z FRAME_HEIGHT) ;;
            similarity <- truediv 1 (1 + ratio) ;;
            if Qltb best_similarity similarity && Qltb (3 # 10) similarity
            then similarity_loop obj1 store2 rest (Some r2) similarity
            else similarity_loop obj1 store2 rest best_match best_similarity
          else similarity_loop obj1 store2 rest best_match best_similarity
      end
  end%Q.

(** Body of the loop over the first source's objects. *)
Definition position_step1 (store2 : list DetectedObject) (objects2 : list nat)
    (store1 : list DetectedObject) (r1 : nat) : result (list DetectedObject) :=
  match store1 !! r1 with
  | None => Ok store1
  | Some obj1 =>
      best_match <- similarity_loop obj1 store2 objects2 None 0%Q ;;
      let pos_3d :=
        match best_match ≫= (fun r2 => store2 !! r2) with
        | Some obj2 => _triangulate_position obj1 obj2
        | None => _estimate_single_camera_position obj1 "camera1"
        end in
      match pos_3d with
      | Some p => Ok (<[r1 := set_position_3d p obj1]> store1)
      | None => Ok store1
      end
  end.

(** Body of the loop over the second source's objects. *)
Definition position_step2 (store2 : list DetectedObject) (r2 : nat)
    : result (list DetectedObject) :=
  match store2 !! r2 with
  | None => Ok store2
  | Some obj2 =>
      match position_3d obj2 with
      | Some _ => Ok store2
      | None =>
          match _estimate_single_camera_position obj2 "camera2" with
          | Some p => Ok (<[r2 := set_position_3d p obj2]> store2)
          | None => Ok store2
          end
      end
  end.

(** [ObjectTracker._calculate_3d_positions]: the two stores after the
    call. *)
Definition _calculate_3d_positions
    (store1 : list DetectedObject) (objects1 : list nat)
    (store2 : list DetectedObject) (objects2 : list nat)
    : result (list DetectedObject * list DetectedObject) :=
  store1' <- for_each (position_step1 store2 objects2) objects1 store1 ;;
  store2' <- for_each position_step2 objects2 store2 ;;
  Ok (store1', store2').

(** What one cycle returns: for each source its store and the list
    in the returned dictionary, as references. *)
Record CycleOutput : Type := mkCycleOutput {
  out_store1 : list DetectedObject;
  out_camera1 : list nat;
  out_store2 : list DetectedObject;
  out_camera2 : list nat;
  out_history : gmap Z (list DetectedObject)
}.

Definition with_history (self : ObjectTracker)
    (h : gmap Z (list DetectedObject)) : ObjectTracker :=
  mkObjectTracker (yolo_model self) (trackers self) h.

(** Detection and identity assignment of one source in
    [track_objects]; an absent frame leaves the list empty. *)
Definition track_source (self : ObjectTracker) (frame : option Frame)
    (cam : string) (now : Q) : TrackingState :=
  match frame with
  | None => mkTrackingState [] [] (object_history self)
  | Some f =>
      let objects := detect_objects self f cam now in
      _update_deepsort_tracking self f objects cam
  end.

(** [ObjectTracker.track_objects].  Only
    [_calculate_3d_positions] runs outside a [try]. *)
Definition track_objects (self : ObjectTracker) (frame1 frame2 : option Frame)
    (now : Q) : result CycleOutput :=
  let st1 := track_source self frame1 "camera1" now in
  let self := with_history self (history st1) in
  let st2 := track_source self frame2 "camera2" now in
  if negb (bool_decide (tracked_objects st1 = [])) &&
     negb (bool_decide (tracked_objects st2 = []))
  then
    stores <- _calculate_3d_positions (store st1) (tracked_objects st1)
                (store st2) (tracked_objects st2) ;;
    Ok (mkCycleOutput (fst stores) (tracked_objects st1)
          (snd stores) (tracked_objects st2) (history st2))
  else
    Ok (mkCycleOutput (store st1) (tracked_objects st1)
          (store st2) (tracked_objects st2) (history st2)).

End Tracker.

(** ** [camera_manager.py]: one source *)

Section Camera.

Context {Frame : Type}.

(** The fields of a [CameraStream].  [cap] is [None] or a capture
    object, of which only [isOpened()] matters here. *)
Record CameraStream : Type := mkCameraStream {
  camera_source : string;
  camera_type : string;
  name : string;
  cap : option bool;
  frame : option Frame;
  stopped : bool;
  thread_started : bool;
  last_frame_time : Q;
  fps_counter : Z;
  fps : Q;
  _shot_jpg_url : option string;
  _mjpeg_error_count : Z;
  _max_mjpeg_errors : Z
}.

(** [CameraStream.__init__] *)
Definition new_CameraStream (source nm ty : string) : CameraStream :=
  mkCameraStream source ty nm None None false false 0 0 0 None 0 5.

(** Truth value of [self._shot_jpg_url]. *)
Definition has_shot_jpg_url (s : CameraStream) : bool :=
  match _shot_jpg_url s with
  | Some u => negb (String.eqb u "")
  | None => false
  end.

Definition cap_is_open (s : CameraStream) : bool :=
  match cap s with
  | Some opened => opened
  | None => false
  end.

(** What one pass through the body of the acquisition loop meets:
    - [ReadOk f resized t_store t_fps]: a frame was read;
      [resized] is what [cv2.resize] gives, the two times are the
      clock readings when the frame is stored and when the rate is
      computed;
    - [ReadNone]: the read gave no frame;
    - [ReadRaise e reopened]: the read raised [e]; [reopened] tells
      whether the single-image capture opens, should the loop switch
      to it.
    What the loop makes of a raise depends on how the stream reads,
    see [read_outcome]. *)
Inductive Outcome : Type :=
| ReadOk (f : Frame) (resized : result Frame) (t_store t_fps : Q)
| ReadNone
| ReadRaise (e : exn) (reopened : bool).

Inductive LoopStatus : Type :=
| Running (consecutive_errors : Z)
| Terminated.

Definition max_consecutive_errors : Z := 10.

Definition set_frame (f : Frame) (t : Q) (s : CameraStream) : CameraStream :=
  mkCameraStream (camera_source s) (camera_type s) (name s) (cap s) (Some f)
    (stopped s) (thread_started s) t (fps_counter s) (fps s) (_shot_jpg_url s)
    (_mjpeg_error_count s) (_max_mjpeg_errors s).

Definition set_fps_counter (n : Z) (s : CameraStream) : CameraStream :=
  mkCameraStream (camera_source s) (camera_type s) (name s) (cap s) (frame s)
    (stopped s) (thread_started s) (last_frame_time s) n (fps s) (_shot_jpg_url s)
    (_mjpeg_error_count s) (_max_mjpeg_errors s).

Definition set_fps (v : Q) (s : CameraStream) : CameraStream :=
  mkCameraStream (camera_source s) (camera_type s) (name s) (cap s) (frame s)
    (stopped s) (thread_started s) (last_frame_time s) (fps_counter s) v
    (_shot_jpg_url s) (_mjpeg_error_count s) (_max_mjpeg_errors s).

Definition set_mjpeg_error_count (n : Z) (s : CameraStream) : CameraStream :=
  mkCameraStream (camera_source s) (camera_type s) (name s) (cap s) (frame s)
    (stopped s) (thread_started s) (last_frame_time s) (fps_counter s) (fps s)
    (_shot_jpg_url s) n (_max_mjpeg_errors s).

Definition set_cap (c : option bool) (s : CameraStream) : CameraStream :=
  mkCameraStream (camera_source s) (camera_type s) (name s) c (frame s)
    (stopped s) (thread_started s) (last_frame_time s) (fps_counter s) (fps s)
    (_shot_jpg_url s) (_mjpeg_error_count s) (_max_mjpeg_errors s).

Definition set_stopped (b : bool) (s : CameraStream) : CameraStream :=
  mkCameraStream (camera_source s) (camera_type s) (name s) (cap s) (frame s)
    b (thread_started s) (last_frame_time s) (fps_counter s) (fps s)
    (_shot_jpg_url s) (_mjpeg_error_count s) (_max_mjpeg_errors s).

Definition set_shot_jpg_url (u : option string) (s : CameraStream) : CameraStream :=
  mkCameraStream (camera_source s) (camera_type s) (name s) (cap s) (frame s)
    (stopped s) (thread_started s) (last_frame_time s) (fps_counter s) (fps s)
    u (_mjpeg_error_count s) (_max_mjpeg_errors s).

Definition set_thread_started (b : bool) (s : CameraStream) : CameraStream :=
  mkCameraStream (camera_source s) (camera_type s) (name s) (cap s) (frame s)
    (stopped s) b (last_frame_time s) (fps_counter s) (fps s)
    (_shot_jpg_url s) (_mjpeg_error_count s) (_max_mjpeg_errors s).

(** [CameraStream._switch_to_shot_jpg_mode] *)
Definition _switch_to_shot_jpg_mode (reopened : bool) (s : CameraStream)
    : CameraStream * bool :=
  if negb (has_shot_jpg_url s) then (s, false)
  else (set_cap (Some reopened) s, reopened).

(** The test on the message of a [cv2.error]. *)
Definition mjpeg_related (error_msg : string) : bool :=
  PyStr.contains "get_buffer() failed" error_msg
  || PyStr.contains "pic->data" error_msg
  || PyStr.contains "boundary" (PyStr.lower error_msg)
  || PyStr.contains "mpjpeg" (PyStr.lower error_msg).

(** The frame branch of the loop body, after
    [consecutive_errors = 0]: the stream it leaves and the exception
    it raised, if any.  A failed resize is caught on the spot
    ([continue]); the rate computation can raise after the frame is
    stored. *)
Definition store_frame (s : CameraStream) (resized : result Frame)
    (t_store t_fps : Q) : CameraStream * option exn :=
  match resized with
  | Raise _ => (s, None)
  | Ok f =>
      let s := set_frame f t_store s in
      let s := set_fps_counter (fps_counter s + 1) s in
      if (fps_counter s) mod 30 =? 0 then
        match truediv 30 (t_fps - last_frame_time s + (1 # 1000))%Q with
        | Ok v => (set_fps v s, None)
        | Raise e => (s, Some e)
        end
      else (s, None)
  end.

(** The [except] clauses of the loop body, after a raise at a point
    where the stream is [s] and the counter is [consecutive_errors]. *)
Definition handle_raise (s : CameraStream) (consecutive_errors : Z)
    (e : exn) (reopened : bool) : CameraStream * LoopStatus :=
  let consecutive_errors := consecutive_errors + 1 in
  match e with
  | CvError error_msg =>
      let '(s, consecutive_errors) :=
        if mjpeg_related error_msg then
          let s := set_mjpeg_error_count (_mjpeg_error_count s + 1) s in
          if (_max_mjpeg_errors s <=? _mjpeg_error_count s) && has_shot_jpg_url s then
            let '(s, ok) := _switch_to_shot_jpg_mode reopened s in
            if ok then (set_mjpeg_error_count 0 s, 0) else (s, consecutive_errors)
          else (s, consecutive_errors)
        else (s, consecutive_errors) in
      if max_consecutive_errors <=? consecutive_errors
      then (s, Terminated) else (s, Running consecutive_errors)
  | _ =>
      if max_consecutive_errors <=? consecutive_errors
      then (s, Terminated) else (s, Running consecutive_errors)
  end.

(** [CameraStream._get_url_frame], on what the request meets: every
    exception is caught inside and gives [None]. *)
Definition _get_url_frame (o : Outcome) : Outcome :=
  match o with
  | ReadRaise _ _ => ReadNone
  | _ => o
  end.

(** The read of one pass: a stream of type ['url'] that knows a
    single-image address polls it with [_get_url_frame], any other
    stream reads its capture, which can raise. *)
Definition read_outcome (s : CameraStream) (o : Outcome) : Outcome :=
  if String.eqb (camera_type s) "url" && has_shot_jpg_url s
  then _get_url_frame o
  else o.

(** One pass through the body of [while not self.stopped]. *)
Definition update_body (s : CameraStream) (consecutive_errors : Z)
    (o : Outcome) : CameraStream * LoopStatus :=
  if negb (cap_is_open s) then (s, Terminated)
  else
    match read_outcome s o with
    | ReadOk _ resized t_store t_fps =>
        match store_frame s resized t_store t_fps with
        | (s', None) => (s', Running 0)
        | (s', Some e) => handle_raise s' 0 e false
        end
    | ReadNone =>
        let consecutive_errors := consecutive_errors + 1 in
        if consecutive_errors <=? 3 then (s, Running consecutive_errors)
        else if consecutive_errors =? max_consecutive_errors then (s, Terminated)
        else (s, Running consecutive_errors)
    | ReadRaise e reopened => handle_raise s consecutive_errors e reopened
    end.

(** The acquisition loop run against the outcomes it meets, one per
    pass.  [Running n] means the outcomes ran out with the loop still
    going. *)
Fixpoint update_loop (s : CameraStream) (consecutive_errors : Z)
    (outcomes : list Outcome) : CameraStream * LoopStatus :=
  if stopped s then (s, Terminated)
  else
    match outcomes with
    | [] => (s, Running consecutive_errors)
    | o :: rest =>
        match update_body s consecutive_errors o with
        | (s', Running n) => update_loop s' n rest
        | (s', Terminated) => (s', Terminated)
        end
    end.

(** [CameraStream._update] *)
Definition _update (s : CameraStream) (outcomes : list Outcome)
    : CameraStream * LoopStatus :=
  update_loop s 0 outcomes.

(** [CameraStream.get_frame]: a copy of the stored frame. *)
Definition get_frame (s : CameraStream) : option Frame := frame s.

(** [CameraStream.get_fps] *)
Definition get_fps (s : CameraStream) : Q := fps s.

(** [CameraStream.stop] *)
Definition stop (s : CameraStream) : CameraStream :=
  set_cap None (set_stopped true s).

(** *** Opening a source *)

(** The outside world as [start] meets it.
    - [open_device src]: [cv2.VideoCapture(int(src))], which raises
      or gives a capture that is opened or not;
    - [open_url k url]: whether strategy [k] of [_open_url_camera]
      opens [url] and reads a first frame. *)
Record World : Type := mkWorld {
  open_device : string -> result bool;
  open_url : nat -> string -> bool
}.

(** [CameraStream._open_url_camera]: the stream (its
    [_shot_jpg_url] may change) and whether the returned capture is
    opened. *)
Definition _open_url_camera (w : World) (s : CameraStream) (url : string)
    : CameraStream * bool :=
  let url :=
    if negb (PyStr.startswith "http://" url || PyStr.startswith "https://" url)
    then "http://" +:+ url else url in
  if PyStr.contains "/shot.jpg" url && open_url w 1 url then
    (set_shot_jpg_url (Some url) s, true)
  else if open_url w 2 url then (s, true)
  else if open_url w 3 url then (s, true)
  else if open_url w 4 url then (s, true)
  else
    let s :=
      if PyStr.contains "/video" url
      then set_shot_jpg_url (Some (PyStr.replace "/video" "/shot.jpg" url)) s
      else s in
    (s, false).

(** [CameraStream.start] *)
Definition start (w : World) (s : CameraStream) : CameraStream * bool :=
  if String.eqb (camera_type s) "device" then
    match open_device w (camera_source s) with
    | Raise _ => (s, false)
    | Ok opened =>
        let s := set_cap (Some opened) s in
        if negb opened then (s, false)
        else (set_thread_started true s, true)
    end
  else
    let formatted_url := _format_ip_webcam_url (camera_source s) in
    let '(s, opened) := _open_url_camera w s formatted_url in
    let s := set_cap (Some opened) s in
    let s :=
      if String.eqb (camera_type s) "url" && negb (has_shot_jpg_url s)
      then set_shot_jpg_url (Some formatted_url) s else s in
    if negb opened then (s, false)
    else (set_thread_started true s, true).

End Camera.

(** ** [camera_manager.py]: the manager *)

(** One entry of the camera configuration. *)
Record CameraConfig : Type := mkCameraConfig {
  cfg_type : string;
  cfg_device_index : Z;
  cfg_url : string;
  cfg_name : string;
  cfg_enabled : bool
}.

(** One entry of the dictionary built by [get_camera_info]. *)
Record CameraInfo : Type := mkCameraInfo {
  info_fps : Q;
  info_running : bool;
  info_source : string;
  info_type : string;
  info_name : string
}.

(** [str(n)] for an [int]. *)
Definition py_str_of_int (n : Z) : string :=
  DecimalString.NilZero.string_of_int (Z.to_int n).

Section Manager.

Context {Frame : Type}.

(** [cameras] maps a slot name to a stream or to [None] (a disabled
    slot). *)
Record CameraManager : Type := mkCameraManager {
  cameras : gmap string (option (@CameraStream Frame));
  running : bool
}.

(** [CameraManager.__init__] *)
Definition new_CameraManager : CameraManager := mkCameraManager ∅ false.

Definition make_stream (c : CameraConfig) : @CameraStream Frame :=
  new_CameraStream
    (if String.eqb (cfg_type c) "device"
     then py_str_of_int (cfg_device_index c) else cfg_url c)
    (cfg_name c) (cfg_type c).

(** [CameraManager.initialize_cameras], for the loaded configuration
    [(c1, c2)].  On a failure the manager is left as it was: the
    streams built so far are local to the call (the first one is
    stopped when the second fails to start) and are dropped. *)
Definition initialize_cameras (w : World) (c1 c2 : CameraConfig)
    (self : CameraManager) : CameraManager * bool :=
  let r1 :=
    if cfg_enabled c1 then
      let '(s, ok) := start w (make_stream c1) in
      if ok then Some (Some s) else None
    else Some None in
  match r1 with
  | None => (self, false)
  | Some camera1 =>
      let r2 :=
        if cfg_enabled c2 then
          let '(s, ok) := start w (make_stream c2) in
          if ok then Some (Some s) else None
        else Some None in
      match r2 with
      | None => (self, false)
      | Some camera2 =>
          (mkCameraManager
             (<["camera2" := camera2]> (<["camera1" := camera1]> ∅)) true,
           true)
      end
  end.

(** [self.cameras[k]] *)
Definition cameras_item (self : CameraManager) (k : string)
    : result (option (@CameraStream Frame)) :=
  match cameras self !! k with
  | Some c => Ok c
  | None => Raise KeyError
  end.

(** [CameraManager.get_frames] *)
Definition get_frames (self : CameraManager)
    : result (option Frame * option Frame) :=
  if negb (running self) then Ok (None, None)
  else
    c1 <- cameras_item self "camera1" ;;
    let frame1 := match c1 with Some c => get_frame c | None => None end in
    c2 <- cameras_item self "camera2" ;;
    let frame2 := match c2 with Some c => get_frame c | None => None end in
    Ok (frame1, frame2).

(** [CameraManager.get_camera_info] *)
Definition get_camera_info (self : CameraManager) : gmap string CameraInfo :=
  (fun camera : option (@CameraStream Frame) =>
     match camera with
     | Some c =>
         mkCameraInfo (get_fps c) (negb (stopped c)) (camera_source c)
           (camera_type c) (name c)
     | None => mkCameraInfo 0 false "disabled" "disabled" "Disabled"
     end) <$> cameras self.

(** [CameraManager.stop_all]: every stream is stopped and then dropped
    with the dictionary, so the manager keeps none of them. *)
Definition stop_all (self : CameraManager) : CameraManager :=
  mkCameraManager ∅ false.

(** The acquisition thread of slot [k] running against [outcomes]:
    the manager sees the stream as the loop leaves it. *)
Definition run_acquisition (k : string) (outcomes : list (@Outcome Frame))
    (self : CameraManager) : CameraManager * option LoopStatus :=
  match cameras self !! k with
  | Some (Some s) =>
      let '(s', status) := _update s outcomes in
      (mkCameraManager (<[k := Some s']> (cameras self)) (running self),
       Some status)
  | _ => (self, None)
  end.

End Manager.

(** ** [camera_manager.py]: restarting a source *)

Section Restart.

Context {Frame : Type}.

Definition set_camera_source (src : string) (s : @CameraStream Frame)
    : @CameraStream Frame :=
  mkCameraStream src (camera_type s) (name s) (cap s) (frame s)
    (stopped s) (thread_started s) (last_frame_time s) (fps_counter s) (fps s)
    (_shot_jpg_url s) (_mjpeg_error_count s) (_max_mjpeg_errors s).

(** [CameraStream.restart] *)
Definition restart (w : World) (s : @CameraStream Frame)
    : @CameraStream Frame * bool :=
  start w (stop s).

(** The loop [for url in reconnect_urls] of [reconnect]; [w i] is the
    outside world at the [i]-th call of [start]. *)
Fixpoint reconnect_loop (w : nat -> World) (i : nat) (urls : list string)
    (s : @CameraStream Frame) : @CameraStream Frame * bool * nat :=
  match urls with
  | [] => (s, false, i)
  | url :: rest =>
      let s := stop s in
      let s := set_camera_source url s in
      let '(s, ok) := start (w i) s in
      if ok then (s, true, i) else reconnect_loop w (S i) rest s
  end.

(** The addresses [reconnect] tries, in order. *)
Definition reconnect_urls (original_url : string) : list string :=
  [ original_url;
    PyStr.replace "/video" "/shot.jpg" original_url;
    PyStr.replace "/shot.jpg" "/video" original_url ].

(** [CameraStream.reconnect] *)
Definition reconnect (w : nat -> World) (s : @CameraStream Frame)
    : @CameraStream Frame * bool :=
  if negb (String.eqb (camera_type s) "url") then restart (w 0%nat) s
  else
    let original_url := camera_source s in
    let '(s, ok, i) := reconnect_loop w 0 (reconnect_urls original_url) s in
    if ok then (s, true)
    else restart (w i) (set_camera_source original_url s).

End Restart.

(** ** [visualizer.py]: where an object is drawn *)

Definition CANVAS_WIDTH : Z := 800.
Definition CANVAS_HEIGHT : Z := 600.

(** [Visualizer.scale_factor], pixels per meter. *)
Definition scale_factor : Z := 100.

(** [max(a, b)] on integers. *)
Definition py_max_int (a b : Z) : Z := if a <? b then b else a.

(** [" ".join(parts)] *)
Fixpoint join_spaces (parts : list string) : string :=
  match parts with
  | [] => EmptyString
  | [p] => p
  | p :: rest => p +:+ " " +:+ join_spaces rest
  end.

(** The two canvas calls of [_draw_object_3d]: the oval
    [(x0, y0, x1, y1)] with its fill colour, and the text with its
    position. *)
Record ObjectDrawing : Type := mkObjectDrawing {
  oval : Z * Z * Z * Z;
  fill : string;
  text_at : Z * Z;
  text : string
}.

(** The position [_draw_object_3d] uses for an object that has none. *)
Definition drawing_fallback_position (obj : DetectedObject)
    (cam : option string) : result Position3D :=
  (let center := get_center obj in
   x_norm <- normalize (fst center) FRAME_WIDTH ;;
   y_norm <- normalize (snd center) FRAME_HEIGHT ;;
   let area := get_area obj in
   let max_area := inject_Z (FRAME_WIDTH * FRAME_HEIGHT) * (1 # 10) in
   ratio <- truediv (inject_Z area) max_area ;;
   let depth_factor := py_max (1 # 10) (py_min 1 ratio) in
   let estimated_depth := 1 + (10 - 1) * (1 - depth_factor) in
   x_3d <-
     (if bool_decide (cam = Some "camera1") then
        offset <- truediv (- CAMERA_DISTANCE) 2 ;;
        Ok (offset + x_norm * estimated_depth)
      else if bool_decide (cam = Some "camera2") then
        offset <- truediv CAMERA_DISTANCE 2 ;;
        Ok (offset + x_norm * estimated_depth)
      else Ok (x_norm * estimated_depth)) ;;
   let y_3d := y_norm * estimated_depth in
   let z_3d := estimated_depth in
   Ok (x_3d, y_3d, z_3d))%Q.

(** Truth value of [camera_id]. *)
Definition camera_id_given (cam : option string) : bool :=
  match cam with
  | Some c => negb (String.eqb c "")
  | None => false
  end.

(** [Visualizer._draw_object_3d]: the canvas coordinates and the
    radius are the truncations of the exact values. *)
Definition _draw_object_3d (obj : DetectedObject) (cam : option string)
    : result ObjectDrawing :=
  pos <-
    match position_3d obj with
    | None => drawing_fallback_position obj cam
    | Some p => Ok p
    end ;;
  let '(x_3d, y_3d, z_3d) := pos in
  let canvas_x := CANVAS_WIDTH / 2 + py_int (x_3d * inject_Z scale_factor)%Q in
  let canvas_y := CANVAS_HEIGHT / 2 - py_int (y_3d * inject_Z scale_factor)%Q in
  ratio <- truediv 20 (z_3d + (1 # 10))%Q ;;
  let size := py_max_int 5 (py_int ratio) in
  let tracked := bool_decide (track_id obj <> None) in
  let color :=
    if bool_decide (cam = Some "camera1") then
      if tracked then "cyan" else "blue"
    else if bool_decide (cam = Some "camera2") then
      if tracked then "magenta" else "purple"
    else
      if tracked then "lime" else "red" in
  let label_parts :=
    match track_id obj with
    | Some tid => ["ID:" +:+ py_str_of_int tid]
    | None => []
    end
    ++ [class_name obj]
    ++ match cam with
       | Some c => if camera_id_given cam then ["(" +:+ c +:+ ")"] else []
       | None => []
       end in
  Ok (mkObjectDrawing
        (canvas_x - size, canvas_y - size, canvas_x + size, canvas_y + size)
        color (canvas_x, canvas_y - size - 10) (join_spaces label_parts)).

(** [Visualizer._draw_cameras]: the columns of the two camera marks. *)
Definition camera_columns : Z * Z :=
  let half := py_int (inject_Z (Qfloor (CAMERA_DISTANCE * inject_Z scale_factor / 2))) in
  (CANVAS_WIDTH / 2 - half, CANVAS_WIDTH / 2 + half).

(** [Visualizer._refresh_cameras]: the manager it leaves, and whether
    it announces a success. *)
Definition _refresh_cameras {Frame : Type} (w : World) (c1 c2 : CameraConfig)
    (m : @CameraManager Frame) : @CameraManager Frame * bool :=
  initialize_cameras w c1 c2 (stop_all m).

(** [Visualizer._update_status]: the value shown by the FPS label. *)
Definition status_avg_fps {Frame : Type} (m : @CameraManager Frame) : result Q :=
  let camera_info := get_camera_info m in
  let fps1 := default 0%Q (info_fps <$> camera_info !! "camera1") in
  let fps2 := default 0%Q (info_fps <$> camera_info !! "camera2") in
  if Qltb 0 fps1 && Qltb 0 fps2 then truediv (fps1 + fps2) 2 else Ok 0%Q.

(** * Vocabulary of the properties *)

(** ** Boxes as sets of pixels *)

(** A pixel of a box: boxes are half-open, [x <= px < x + w]. *)
Definition inside (b : BBox) (px py : Z) : Prop :=
  let '(x, y, w, h) := b in x <= px < x + w /\ y <= py < y + h.

Definition overlap (b1 b2 : BBox) : Prop :=
  exists px py, inside b1 px py /\ inside b2 px py.

Definition box_area (b : BBox) : Z :=
  let '(x, y, w, h) := b in w * h.

(** The box made of the pixels common to two boxes. *)
Definition intersection_box (b1 b2 : BBox) : BBox :=
  let '(x1, y1, w1, h1) := b1 in
  let '(x2, y2, w2, h2) := b2 in
  (Z.max x1 x2, Z.max y1 y2,
   Z.min (x1 + w1) (x2 + w2) - Z.max x1 x2,
   Z.min (y1 + h1) (y2 + h2) - Z.max y1 y2).

Definition intersection_area (b1 b2 : BBox) : Z :=
  box_area (intersection_box b1 b2).

Definition union_area (b1 b2 : BBox) : Z :=
  box_area b1 + box_area b2 - intersection_area b1 b2.

(** The IoU as a number ([_calculate_iou] never raises). *)
Definition iou (b1 b2 : BBox) : Q := try_except (_calculate_iou b1 b2) 0%Q.

(** ** Normalized coordinates and depth *)

(** The normalized coordinate of a pixel coordinate: its offset from
    the frame centre in units of half the frame size. *)
Definition normalized (c size : Z) : Q :=
  (inject_Z (c - size / 2) / inject_Z (size / 2))%Q.

(** The depth [_estimate_single_camera_position] assigns to an object
    of pixel area [area]. *)
Definition estimated_depth (area : Z) : Q :=
  (1 + (10 - 1) *
       (1 - py_max (1 # 10)
              (py_min 1 (inject_Z area /
                         (inject_Z (FRAME_WIDTH * FRAME_HEIGHT) * (1 # 10))))))%Q.

(** ** Detections and their filters *)

Section DetectionVocabulary.

Context {Frame : Type}.

(** The class and size filters of [detect_objects], read on an
    object. *)
Definition passes_filters (o : DetectedObject) : bool :=
  bool_decide (class_name o ∈ TRACK_CLASSES) &&
  ((MIN_OBJECT_SIZE <=? get_area o) && (get_area o <=? MAX_OBJECT_SIZE)).

(** The object a raw detection stands for; [None] when the class
    table has no entry for its class. *)
Definition detection_of (m : @Yolo Frame) (cam : string) (now : Q)
    (box : RawBox) : option DetectedObject :=
  let '(x1, y1, x2, y2) := xyxy box in
  match names m !! py_int (cls box) with
  | None => None
  | Some cn =>
      Some (new_DetectedObject
              (py_int x1, py_int y1, py_int (x2 - x1)%Q, py_int (y2 - y1)%Q)
              (conf box) (py_int (cls box)) cn cam now)
  end.

(** All the boxes of a detector answer, in the order the loops visit
    them. *)
Definition all_boxes (results : list (option (list RawBox))) : list RawBox :=
  concat (map (default []) results).

(** What [_update_deepsort_tracking] hands to the tracker. *)
Definition detections_of (objs : list DetectedObject) : list Detection :=
  map (fun obj => (bbox obj, confidence obj, class_name obj)) objs.

End DetectionVocabulary.

(** ** Re-association of tracks *)

(** [k] is the first object of [objs] whose IoU with [box] is maximal,
    and that IoU is not zero. *)
Definition is_first_best (box : BBox) (objs : list DetectedObject) (k : nat) : Prop :=
  exists o, objs !! k = Some o /\
    (0 < iou (bbox o) box)%Q /\
    (forall j o', objs !! j = Some o' -> (iou (bbox o') box <= iou (bbox o) box)%Q) /\
    (forall j o', (j < k)%nat -> objs !! j = Some o' ->
                  (iou (bbox o') box < iou (bbox o) box)%Q).

(** The state after the loop over the tracks. *)
Definition run_tracks (st : TrackingState) (tracks : list Track) : TrackingState :=
  fst (track_loop st tracks).

(** What the loop has established for a reference [r] it returned:
    some confirmed track, met with the store as the earlier tracks
    left it, chose [r] as its first best match, and the object now
    carries that track's identity and box. *)
Definition reassociated (st0 : TrackingState) (tracks : list Track) (r : nat) : Prop :=
  exists pre track post o,
    tracks = pre ++ track :: post /\
    is_confirmed track = true /\
    is_first_best (track_box track) (store (run_tracks st0 pre)) r /\
    store (run_tracks st0 tracks) !! r = Some o /\
    track_id o = Some (tr_track_id track) /\
    bbox o = track_box track.

(** ** Addresses *)

(** What is left of [s] once [n] characters are dropped. *)
Fixpoint drop_chars (n : nat) (s : string) : string :=
  match n, s with
  | O, _ => s
  | S k, EmptyString => EmptyString
  | S k, String _ s' => drop_chars k s'
  end.

(** The address once stripped and given a scheme. *)
Definition with_scheme (url : string) : string :=
  if negb (PyStr.startswith "http://" url || PyStr.startswith "https://" url)
  then "http://" +:+ url
  else url.

(** ** A concrete cycle of the orchestrator *)

Definition demo_obj1 : DetectedObject :=
  new_DetectedObject (100, 100, 50, 50) (9 # 10) 2 "car" "camera1" 0.

Definition demo_obj2 : DetectedObject :=
  new_DetectedObject (300, 100, 50, 50) (9 # 10) 2 "car" "camera1" 0.

(** Two confirmed tracks over the first object, an unconfirmed one,
    and a confirmed one away from every object. *)
Definition demo_tracks : list Track :=
  [ mkTrack true 7 (101, 99, 150, 151)%Q;
    mkTrack false 8 (300, 100, 350, 150)%Q;
    mkTrack true 9 (110, 99, 150, 151)%Q;
    mkTrack true 10 (500, 300, 520, 330)%Q ].

Definition demo_deepsort : @DeepSort nat := fun _ _ => Ok demo_tracks.

Definition failing_deepsort : @DeepSort nat := fun _ _ => Raise OtherError.

Definition demo_yolo : @Yolo nat :=
  mkYolo
    (fun _ => Ok [ Some [ mkRawBox (100, 100, 150, 150)%Q (9 # 10) 2;
                          mkRawBox (100, 100, 105, 150)%Q (9 # 10) 2;
                          mkRawBox (100, 100, 150, 150)%Q (9 # 10) 0 ];
                   None ])
    {[ 2 := "car"; 0 := "person" ]}.

Definition failing_yolo : @Yolo nat :=
  mkYolo (fun _ => Raise OtherError) {[ 2 := "car" ]}.

Definition demo_tracker : @ObjectTracker nat :=
  mkObjectTracker (Some demo_yolo)
    {[ "camera1" := demo_deepsort; "camera2" := failing_deepsort ]} ∅.

Definition tracker_raises : @ObjectTracker nat :=
  mkObjectTracker (Some demo_yolo)
    {[ "camera1" := failing_deepsort; "camera2" := demo_deepsort ]} ∅.

Definition detector_raises : @ObjectTracker nat :=
  mkObjectTracker (Some failing_yolo)
    {[ "camera1" := demo_deepsort; "camera2" := demo_deepsort ]} ∅.

(** ** A concrete session of the manager *)

Definition demo_world : World := mkWorld (fun _ => Ok true) (fun _ _ => false).

Definition dead_world : World := mkWorld (fun _ => Ok false) (fun _ _ => false).

Definition demo_config1 : CameraConfig := mkCameraConfig "device" 0 "" "Camera 1" true.

Definition demo_config2 : CameraConfig := mkCameraConfig "device" 1 "" "Camera 2" false.

Definition demo_manager : @CameraManager nat :=
  fst (initialize_cameras demo_world demo_config1 demo_config2 new_CameraManager).

(** One frame read, resized and stored, then eleven failed reads. *)
Definition demo_outcomes : list (@Outcome nat) :=
  [ReadOk 5%nat (Ok 6%nat) 0 0] ++ repeat ReadNone 10 ++ [ReadNone].

(** ** Frames met by the acquisition loop *)

Section LoopVocabulary.

Context {Frame : Type}.

(** The frame of the last outcome that was read and resized, [prev]
    when there is none. *)
Fixpoint last_resized (outcomes : list (@Outcome Frame)) (prev : option Frame)
    : option Frame :=
  match outcomes with
  | [] => prev
  | ReadOk _ (Ok g) _ _ :: rest => last_resized rest (Some g)
  | _ :: rest => last_resized rest prev
  end.

(** The number of outcomes that were read and resized. *)
Fixpoint count_resized (outcomes : list (@Outcome Frame)) : Z :=
  match outcomes with
  | [] => 0
  | ReadOk _ (Ok _) _ _ :: rest => 1 + count_resized rest
  | _ :: rest => count_resized rest
  end.

End LoopVocabulary.

(** ** Concrete inputs of the further properties *)

(** A device stream as [start] leaves it. *)
Definition demo_stream : @CameraStream nat :=
  mkCameraStream "0" "device" "Camera 1" (Some true) None false true 0 0 0 None 0 5.

(** One frame read and resized, then two failed reads. *)
Definition demo_reads : list (@Outcome nat) :=
  [ReadOk 5%nat (Ok 6%nat) 0 0; ReadNone; ReadNone].

(** A world in which every address opens. *)
Definition demo_url_world : World := mkWorld (fun _ => Ok true) (fun _ _ => true).

(** MJPEG errors raised by six reads in a row. *)
Definition demo_mjpeg_errors : list (@Outcome nat) :=
  repeat (ReadRaise (CvError "boundary") true) 6.

(** A stream of type ['url'] before its first [start]. *)
Definition demo_new_url_stream : @CameraStream nat :=
  new_CameraStream "192.168.1.5:8080" "Cam" "url".

(** An orchestrator whose trackers failed to initialise, and one
    whose detector did. *)
Definition demo_no_trackers : @ObjectTracker nat :=
  mkObjectTracker (Some demo_yolo) ∅ ∅.

Definition demo_no_detector : @ObjectTracker nat :=
  mkObjectTracker None
    {[ "camera1" := demo_deepsort; "camera2" := demo_deepsort ]} ∅.

(** An object centred horizontally in its image, and one with a
    position five meters away. *)
Definition demo_centred_obj : DetectedObject :=
  new_DetectedObject (295, 100, 50, 50) (9 # 10) 2 "car" "camera1" 0.

Definition demo_placed_obj : DetectedObject :=
  set_position_3d (0, 0, 5)%Q demo_obj1.

(** ** Vocabulary of the further properties *)

(** The radius of a mark, read off the oval that was drawn. *)
Definition marker_radius (d : ObjectDrawing) : Z :=
  let '(x0, _, x1, _) := oval d in (x1 - x0) / 2.

(** [2^-53]: the distance from 1 to the largest double below it.  An
    exact quotient below [1 - 2^-53] is rounded to a double below 1,
    and one above [2^-53] to a double above 0. *)
Definition double_gap : Q := (1 # 9007199254740992)%Q.


(** The fields of a stream the loop has no business with. *)
Definition same_settings {Frame : Type} (s s' : @CameraStream Frame) : Prop :=
  stopped s' = stopped s /\
  camera_source s' = camera_source s /\
  camera_type s' = camera_type s /\
  name s' = name s /\
  thread_started s' = thread_started s /\
  _shot_jpg_url s' = _shot_jpg_url s /\
  _max_mjpeg_errors s' = _max_mjpeg_errors s.

(** An address fit for single-image polling as the code builds them:
    it has a scheme, and it contains ['/shot.jpg'] unless it ends with
    ['/']. *)
Definition polling_address (a : string) : Prop :=
  PyStr.startswith "http://" a || PyStr.startswith "https://" a = true /\
  (PyStr.contains "/shot.jpg" a = true \/ PyStr.endswith "/" a = true).

(** What [initialize_cameras] puts in a slot. *)
Definition slot_of (Frame : Type) (w : World) (c : CameraConfig) : option (@CameraStream Frame) :=
  if cfg_enabled c then Some (fst (start w (make_stream c))) else None.

(** An enabled camera of the configuration starts. *)
Definition slot_starts (Frame : Type) (w : World) (c : CameraConfig) : Prop :=
  cfg_enabled c = true -> snd (start w (@make_stream Frame c)) = true.

(** Two objects that differ at most by their box and their identity. *)
Definition same_detection (o o' : DetectedObject) : Prop :=
  confidence o' = confidence o /\ class_id o' = class_id o /\
  class_name o' = class_name o /\ camera_id o' = camera_id o /\
  timestamp o' = timestamp o /\ position_3d o' = position_3d o.

(** What the loop over the tracks keeps true between two states. *)
Definition tracking_step_ok (st st' : TrackingState) : Prop :=
  length (store st') = length (store st) /\
  (forall i o', store st' !! i = Some o' ->
     exists o, store st !! i = Some o /\ same_detection o o') /\
  ((forall r, r ∈ tracked_objects st -> (r < length (store st))%nat) ->
   forall r, r ∈ tracked_objects st' -> (r < length (store st'))%nat) /\
  (length (tracked_objects st') <= S (length (tracked_objects st)))%nat.

(** No entry of the history is longer than [TRACKING_HISTORY_LENGTH]. *)
Definition history_bounded (h : gmap Z (list DetectedObject)) : Prop :=
  forall k l, h !! k = Some l -> (length l <= TRACKING_HISTORY_LENGTH)%nat.

(** A new detection: no identity, no position, the source and the
    time of the call. *)
Definition fresh_detection (cam : string) (now : Q) (o : DetectedObject) : Prop :=
  track_id o = None /\ position_3d o = None /\
  camera_id o = cam /\ timestamp o = now.

(** The vertical distance between the centres of two objects. *)
Definition vertical_gap (o1 o2 : DetectedObject) : Z :=
  Z.abs (snd (get_center o1) - snd (get_center o2)).

(** The similarity score of a vertical distance. *)
Definition similarity_of (gap : Z) : Q :=
  (1 / (1 + inject_Z gap / inject_Z FRAME_HEIGHT))%Q.

(** Objects of the second source that may be matched with [obj1]. *)
Definition candidate (obj1 : DetectedObject) (store2 : list DetectedObject)
    (objects2 : list nat) (r : nat) (o : DetectedObject) : Prop :=
  r ∈ objects2 /\ store2 !! r = Some o /\ class_name obj1 = class_name o.

(** The state of the inner loop, read as the distance a candidate has
    to beat. *)
Definition beats (best_match : option nat) (best_similarity : Q) (bound : Z) : Prop :=
  (best_match = None /\ best_similarity = 0%Q /\ bound = 1120) \/
  (is_Some best_match /\ best_similarity = similarity_of bound /\ 0 <= bound < 1120).

(** Two objects that differ at most by their position, the second
    having one if the first has. *)
Definition same_but_position (o o' : DetectedObject) : Prop :=
  bbox o' = bbox o /\ confidence o' = confidence o /\ class_id o' = class_id o /\
  class_name o' = class_name o /\ camera_id o' = camera_id o /\
  timestamp o' = timestamp o /\ track_id o' = track_id o /\
  (is_Some (position_3d o) -> is_Some (position_3d o')).

(** Two stores with the same objects up to their positions. *)
Definition positions_written (store store' : list DetectedObject) : Prop :=
  length store' = length store /\
  forall i o', store' !! i = Some o' ->
    exists o, store !! i = Some o /\ same_but_position o o'.

(** Every position of the store is the estimate of the second source. *)
Definition estimates_only (store : list DetectedObject) : Prop :=
  forall i o, store !! i = Some o ->
    position_3d o = None \/
    position_3d o = _estimate_single_camera_position o "camera2".

(** * Properties *)

(** ** Arithmetic helpers *)

Lemma truediv_ok (a b : Q) : ~ (b == 0)%Q -> truediv a b = Ok (a / b)%Q.
Proof.
  intros Hb. unfold truediv.
  destruct (Qeq_bool b 0) eqn:E; [|reflexivity].
  apply Qeq_bool_iff in E. contradiction.
Qed.

Lemma truediv_inject_pos (a b : Z) :
  0 < b -> truediv (inject_Z a) (inject_Z b) = Ok (inject_Z a / inject_Z b)%Q.
Proof.
  intros Hb. apply truediv_ok. unfold Qeq, inject_Z. simpl. lia.
Qed.

Lemma Qltb_lt (a b : Q) : Qltb a b = true <-> (a < b)%Q.
Proof.
  unfold Qltb. rewrite negb_true_iff. split.
  - intros H. apply Qnot_le_lt. intros Hle.
    apply Qle_bool_iff in Hle. congruence.
  - intros H. destruct (Qle_bool b a) eqn:E; [|reflexivity].
    apply Qle_bool_iff in E. exfalso. exact (Qlt_not_le _ _ H E).
Qed.

Lemma Qltb_ge (a b : Q) : Qltb a b = false <-> (b <= a)%Q.
Proof.
  unfold Qltb. rewrite negb_false_iff. apply Qle_bool_iff.
Qed.

Lemma inject_Z_div_bounds (i u : Z) :
  0 <= i -> i <= u -> 0 < u ->
  (0 <= inject_Z i / inject_Z u /\ inject_Z i / inject_Z u <= 1)%Q.
Proof.
  intros Hi Hu Hpos.
  assert (Hu' : (0 < inject_Z u)%Q) by (unfold Qlt, inject_Z; simpl; lia).
  split.
  - apply Qle_shift_div_l; [exact Hu'|].
    rewrite Qmult_0_l. unfold Qle, inject_Z. simpl. lia.
  - apply Qle_shift_div_r; [exact Hu'|].
    rewrite Qmult_1_l. unfold Qle, inject_Z. simpl. lia.
Qed.

(** ** Intersection over union *)

Section IoU.

(** The three ways through [_calculate_iou]. *)
Lemma calculate_iou_cases (b1 b2 : BBox) :
  let '(x1, y1, w1, h1) := b1 in
  let '(x2, y2, w2, h2) := b2 in
  let x_left := Z.max x1 x2 in
  let y_top := Z.max y1 y2 in
  let x_right := Z.min (x1 + w1) (x2 + w2) in
  let y_bottom := Z.min (y1 + h1) (y2 + h2) in
  ((x_right < x_left \/ y_bottom < y_top) /\ _calculate_iou b1 b2 = Ok 0%Q)
  \/ (x_left <= x_right /\ y_top <= y_bottom /\ union_area b1 b2 <= 0 /\
      _calculate_iou b1 b2 = Ok 0%Q)
  \/ (x_left <= x_right /\ y_top <= y_bottom /\ 0 < union_area b1 b2 /\
      _calculate_iou b1 b2 =
        Ok (inject_Z (intersection_area b1 b2) / inject_Z (union_area b1 b2))%Q).
Proof.
  destruct b1 as [[[x1 y1] w1] h1], b2 as [[[x2 y2] w2] h2].
  cbv zeta. unfold _calculate_iou, union_area, intersection_area, intersection_box, box_area.
  destruct (Z.ltb_spec (Z.min (x1 + w1) (x2 + w2)) (Z.max x1 x2)) as [Hx|Hx];
    cbn [orb]; [left; split; [left; exact Hx|reflexivity]|].
  destruct (Z.ltb_spec (Z.min (y1 + h1) (y2 + h2)) (Z.max y1 y2)) as [Hy|Hy];
    [left; split; [right; exact Hy|reflexivity]|].
  right.
  match goal with |- context [0 <? ?u] => destruct (Z.ltb_spec 0 u) as [Hu|Hu] end.
  - right. repeat split; try assumption.
    apply truediv_inject_pos. exact Hu.
  - left. repeat split; assumption.
Qed.

(** Past the early return the boxes have non-negative sides and the
    common rectangle fits in both. *)
Lemma intersection_area_bounds (b1 b2 : BBox) :
  let '(x1, y1, w1, h1) := b1 in
  let '(x2, y2, w2, h2) := b2 in
  Z.max x1 x2 <= Z.min (x1 + w1) (x2 + w2) ->
  Z.max y1 y2 <= Z.min (y1 + h1) (y2 + h2) ->
  0 <= intersection_area b1 b2 /\
  intersection_area b1 b2 <= box_area b1 /\
  intersection_area b1 b2 <= box_area b2.
Proof.
  destruct b1 as [[[x1 y1] w1] h1], b2 as [[[x2 y2] w2] h2].
  unfold intersection_area, intersection_box, box_area. intros Hx Hy.
  set (a := Z.min (x1 + w1) (x2 + w2) - Z.max x1 x2) in *.
  set (b := Z.min (y1 + h1) (y2 + h2) - Z.max y1 y2) in *.
  assert (0 <= a /\ a <= w1 /\ a <= w2) as (Ha0 & Ha1 & Ha2) by (subst a; lia).
  assert (0 <= b /\ b <= h1 /\ b <= h2) as (Hb0 & Hb1 & Hb2) by (subst b; lia).
  repeat split; nia.
Qed.

Lemma overlap_iff (x1 y1 w1 h1 x2 y2 w2 h2 : Z) :
  overlap (x1, y1, w1, h1) (x2, y2, w2, h2) <->
  Z.max x1 x2 < Z.min (x1 + w1) (x2 + w2) /\
  Z.max y1 y2 < Z.min (y1 + h1) (y2 + h2).
Proof.
  unfold overlap, inside. split.
  - intros (px & py & H1 & H2). lia.
  - intros [Hx Hy]. exists (Z.max x1 x2), (Z.max y1 y2). lia.
Qed.

(** The pixels of the intersection box are the pixels common to the
    two boxes. *)
Lemma intersection_box_spec (b1 b2 : BBox) (px py : Z) :
  inside (intersection_box b1 b2) px py <-> inside b1 px py /\ inside b2 px py.
Proof.
  destruct b1 as [[[x1 y1] w1] h1], b2 as [[[x2 y2] w2] h2].
  unfold inside, intersection_box. lia.
Qed.

(** [_calculate_iou] never raises. *)
Lemma calculate_iou_total (b1 b2 : BBox) :
  exists q, _calculate_iou b1 b2 = Ok q.
Proof.
  pose proof (calculate_iou_cases b1 b2) as H.
  destruct b1 as [[[x1 y1] w1] h1], b2 as [[[x2 y2] w2] h2].
  cbv zeta in H.
  destruct H as [[_ H]|[(_ & _ & _ & H)|(_ & _ & _ & H)]]; rewrite H; eauto.
Qed.

Lemma calculate_iou_range (b1 b2 : BBox) (q : Q) :
  _calculate_iou b1 b2 = Ok q -> (0 <= q /\ q <= 1)%Q.
Proof.
  pose proof (calculate_iou_cases b1 b2) as H.
  pose proof (intersection_area_bounds b1 b2) as Hb.
  destruct b1 as [[[x1 y1] w1] h1], b2 as [[[x2 y2] w2] h2].
  cbv zeta in H.
  destruct H as [[_ H]|[(_ & _ & _ & H)|(Hx & Hy & Hu & H)]];
    rewrite H; intros [= <-]; try (split; discriminate).
  destruct (Hb Hx Hy) as (H0 & H1 & H2).
  apply inject_Z_div_bounds; try assumption.
  unfold union_area, intersection_area, box_area in *. lia.
Qed.

End IoU.

(** C5.  For boxes [(x, y, w, h)]: the IoU of a box with positive
    width and height with itself is 1; the IoU of two boxes that share
    no pixel is 0; the IoU is symmetric; and for two boxes that overlap
    it is the intersection area divided by the sum of the two areas
    minus the intersection area. *)
Theorem calculate_iou_algebra :
  (forall x y w h : Z, 0 < w -> 0 < h ->
     exists q, _calculate_iou (x, y, w, h) (x, y, w, h) = Ok q /\ (q == 1)%Q) /\
  (forall b1 b2 : BBox, ~ overlap b1 b2 ->
     exists q, _calculate_iou b1 b2 = Ok q /\ (q == 0)%Q) /\
  (forall b1 b2 : BBox, _calculate_iou b1 b2 = _calculate_iou b2 b1) /\
  (forall b1 b2 : BBox, overlap b1 b2 ->
     exists q, _calculate_iou b1 b2 = Ok q /\
       (q == inject_Z (intersection_area b1 b2) /
             inject_Z (box_area b1 + box_area b2 - intersection_area b1 b2))%Q).
Proof.
  repeat split.
  - intros x y w h Hw Hh.
    pose proof (calculate_iou_cases (x, y, w, h) (x, y, w, h)) as H.
    cbv zeta in H.
    assert (Hi : intersection_area (x, y, w, h) (x, y, w, h) = w * h)
      by (unfold intersection_area, intersection_box, box_area; f_equal; lia).
    assert (Hu : union_area (x, y, w, h) (x, y, w, h) = w * h)
      by (unfold union_area; rewrite Hi; unfold box_area; lia).
    rewrite Hi, Hu in H.
    destruct H as [[H _]|[(_ & _ & H & _)|(_ & _ & Hpos & H)]]; [lia|nia|].
    eexists; split; [exact H|].
    unfold Qdiv. apply Qmult_inv_r. unfold Qeq, inject_Z. simpl. lia.
  - intros b1 b2 Hno.
    pose proof (calculate_iou_cases b1 b2) as H.
    destruct b1 as [[[x1 y1] w1] h1], b2 as [[[x2 y2] w2] h2].
    pose proof (overlap_iff x1 y1 w1 h1 x2 y2 w2 h2) as Hov.
    cbv zeta in H.
    destruct H as [[_ H]|[(_ & _ & _ & H)|(Hx & Hy & Hu & H)]];
      try (eexists; split; [exact H|reflexivity]).
    eexists; split; [exact H|].
    assert (Hz : intersection_area (x1, y1, w1, h1) (x2, y2, w2, h2) = 0).
    { unfold intersection_area, intersection_box, box_area.
      destruct (Z.eq_dec (Z.min (x1 + w1) (x2 + w2)) (Z.max x1 x2)) as [E|E];
        [rewrite E; lia|].
      destruct (Z.eq_dec (Z.min (y1 + h1) (y2 + h2)) (Z.max y1 y2)) as [E'|E'];
        [rewrite E'; lia|].
      exfalso. apply Hno, Hov. lia. }
    rewrite Hz. unfold Qdiv. apply Qmult_0_l.
  - intros [[[x1 y1] w1] h1] [[[x2 y2] w2] h2]. unfold _calculate_iou.
    rewrite (Z.max_comm x2 x1), (Z.max_comm y2 y1).
    rewrite (Z.min_comm (x2 + w2)), (Z.min_comm (y2 + h2)).
    rewrite (Z.add_comm (w2 * h2) (w1 * h1)). reflexivity.
  - intros b1 b2 Hov.
    pose proof (calculate_iou_cases b1 b2) as H.
    pose proof (intersection_area_bounds b1 b2) as Hb.
    destruct b1 as [[[x1 y1] w1] h1], b2 as [[[x2 y2] w2] h2].
    apply overlap_iff in Hov.
    cbv zeta in H. destruct Hov as [Hx Hy].
    destruct (Hb ltac:(lia) ltac:(lia)) as (H0 & H1 & H2).
    assert (Hpos : 0 < intersection_area (x1, y1, w1, h1) (x2, y2, w2, h2))
      by (unfold intersection_area, intersection_box, box_area; nia).
    destruct H as [[H _]|[(_ & _ & Hu & _)|(_ & _ & _ & H)]];
      [lia|unfold union_area in Hu; lia|].
    eexists; split; [exact H|reflexivity].
Qed.

Lemma calculate_iou_algebra_witness :
  (exists q, _calculate_iou (3, 4, 10, 20) (3, 4, 10, 20) = Ok q /\ (q == 1)%Q) /\
  (exists q, _calculate_iou (0, 0, 10, 10) (10, 0, 10, 10) = Ok q /\ (q == 0)%Q) /\
  (exists q, _calculate_iou (0, 0, 10, 10) (5, 5, 10, 10) = Ok q /\
     (q == inject_Z 25 / inject_Z (100 + 100 - 25))%Q).
Proof.
  destruct calculate_iou_algebra as (Hself & Hdisj & _ & Hover).
  split; [|split].
  - apply (Hself 3 4 10 20); lia.
  - apply (Hdisj (0, 0, 10, 10) (10, 0, 10, 10)).
    intros (px & py & H1 & H2). simpl in H1, H2. lia.
  - apply (Hover (0, 0, 10, 10) (5, 5, 10, 10)).
    exists 5, 5. simpl. lia.
Defined.

(** C9.  [_calculate_iou] returns a value for all integer boxes and
    never divides by zero: when the union is zero or negative the
    result is 0, and the result always lies in [0, 1] (whatever the
    signs of the widths and heights). *)
Theorem calculate_iou_safe (b1 b2 : BBox) :
  exists q, _calculate_iou b1 b2 = Ok q /\
    (union_area b1 b2 <= 0 -> q = 0%Q) /\
    (0 <= q)%Q /\ (q <= 1)%Q.
Proof.
  destruct (calculate_iou_total b1 b2) as [q Hq].
  exists q. split; [exact Hq|]. split.
  - intros Hu.
    pose proof (calculate_iou_cases b1 b2) as H.
    destruct b1 as [[[x1 y1] w1] h1], b2 as [[[x2 y2] w2] h2].
    cbv zeta in H.
    destruct H as [[_ H]|[(_ & _ & _ & H)|(_ & _ & Hpos & _)]];
      [congruence|congruence|lia].
  - apply (calculate_iou_range b1 b2 q Hq).
Qed.

Lemma calculate_iou_safe_witness :
  exists q, _calculate_iou (0, 0, 0, 0) (0, 0, 0, 0) = Ok q /\
    (union_area (0, 0, 0, 0) (0, 0, 0, 0) <= 0 -> q = 0%Q) /\
    (0 <= q)%Q /\ (q <= 1)%Q.
Proof. apply (calculate_iou_safe (0, 0, 0, 0) (0, 0, 0, 0)). Defined.

(** ** Position estimation *)

Lemma normalize_width (c : Z) :
  normalize c FRAME_WIDTH = Ok (normalized c FRAME_WIDTH).
Proof. apply truediv_inject_pos. reflexivity. Qed.

Lemma normalize_height (c : Z) :
  normalize c FRAME_HEIGHT = Ok (normalized c FRAME_HEIGHT).
Proof. apply truediv_inject_pos. reflexivity. Qed.

(** A coordinate inside the frame is normalized into [-1, 1]. *)
Lemma normalized_range (c size : Z) :
  2 <= size -> 0 <= c <= 2 * (size / 2) ->
  (-1 <= normalized c size /\ normalized c size <= 1)%Q.
Proof.
  intros Hs Hc. unfold normalized.
  assert (Hh : 0 < size / 2) by (apply Z.div_str_pos; lia).
  assert (Hq : (0 < inject_Z (size / 2))%Q) by (unfold Qlt, inject_Z; simpl; lia).
  split.
  - apply Qle_shift_div_l; [exact Hq|].
    unfold Qle, inject_Z. simpl. lia.
  - apply Qle_shift_div_r; [exact Hq|].
    unfold Qle, inject_Z. simpl. lia.
Qed.

(** The disparity test decides on the pixel centres alone: the two
    centres are at most three pixels apart horizontally. *)
Lemma disparity_small_iff (c1 c2 : Z) :
  (Qabs (normalized c1 FRAME_WIDTH - normalized c2 FRAME_WIDTH) < 1 # 100)%Q
  <-> Z.abs (c1 - c2) <= 3.
Proof.
  unfold normalized. change (FRAME_WIDTH / 2) with 320.
  assert (E : (inject_Z (c1 - 320) / inject_Z 320 - inject_Z (c2 - 320) / inject_Z 320
               == inject_Z (c1 - c2) / inject_Z 320)%Q).
  { unfold Zminus. rewrite !inject_Z_plus, !inject_Z_opp. field. }
  rewrite E. clear E.
  assert (E : (Qabs (inject_Z (c1 - c2) / inject_Z 320)
               == inject_Z (Z.abs (c1 - c2)) / inject_Z 320)%Q).
  { unfold Qdiv. rewrite Qabs_Qmult. unfold Qabs at 1, inject_Z at 1. simpl.
    reflexivity. }
  rewrite E. clear E.
  unfold Qlt, Qdiv, Qmult, Qinv, inject_Z. simpl. lia.
Qed.

(** C1.  [_triangulate_position] works on the two centres normalized
    relative to the frame centre.  With [disparity = |x1 - x2|], it
    returns [None] when [disparity < 0.01]; otherwise it returns a
    triple [(x, y, z)] with [z = CAMERA_DISTANCE / disparity] (a
    division by a non-zero number, so [0 < z <= 50]),
    [x = (x1 + x2) * z / 2] and [y = (y1 + y2) * z / 2]. *)
Theorem triangulate_position_spec (obj1 obj2 : DetectedObject) :
  let x1 := normalized (fst (get_center obj1)) FRAME_WIDTH in
  let y1 := normalized (snd (get_center obj1)) FRAME_HEIGHT in
  let x2 := normalized (fst (get_center obj2)) FRAME_WIDTH in
  let y2 := normalized (snd (get_center obj2)) FRAME_HEIGHT in
  let disparity := Qabs (x1 - x2) in
  ((disparity < 1 # 100)%Q -> _triangulate_position obj1 obj2 = None) /\
  (~ (disparity < 1 # 100)%Q ->
     exists x y z : Q,
       _triangulate_position obj1 obj2 = Some (x, y, z) /\
       ~ (disparity == 0)%Q /\
       (z == CAMERA_DISTANCE / disparity)%Q /\
       (x == (x1 + x2) * z / 2)%Q /\
       (y == (y1 + y2) * z / 2)%Q /\
       (0 < z)%Q /\ (z <= 50)%Q).
Proof.
  intros x1 y1 x2 y2 disparity.
  unfold _triangulate_position.
  rewrite !normalize_width, !normalize_height. cbn [rbind].
  fold x1 y1 x2 y2. fold disparity.
  split.
  - intros Hlt. apply Qltb_lt in Hlt. rewrite Hlt. reflexivity.
  - intros Hge. apply Qnot_lt_le in Hge.
    assert (Hb : Qltb disparity (1 # 100) = false) by (apply Qltb_ge; exact Hge).
    rewrite Hb.
    assert (Hpos : (0 < disparity)%Q) by lra.
    assert (Hnz : ~ (disparity == 0)%Q) by lra.
    rewrite (truediv_ok _ _ Hnz). cbn [rbind].
    rewrite !(truediv_ok _ 2) by discriminate. cbn [rbind try_except].
    eexists _, _, _. split; [reflexivity|].
    split; [exact Hnz|].
    split; [reflexivity|]. split; [reflexivity|]. split; [reflexivity|].
    split.
    + apply Qlt_shift_div_l; [exact Hpos|]. unfold CAMERA_DISTANCE. lra.
    + apply Qle_shift_div_r; [exact Hpos|]. unfold CAMERA_DISTANCE. lra.
Qed.

Lemma triangulate_position_spec_witness :
  _triangulate_position
    (new_DetectedObject (100, 100, 50, 50) 1 2 "car" "camera1" 0)
    (new_DetectedObject (101, 100, 50, 50) 1 2 "car" "camera2" 0) = None /\
  exists x y z : Q,
    _triangulate_position
      (new_DetectedObject (100, 100, 50, 50) 1 2 "car" "camera1" 0)
      (new_DetectedObject (140, 100, 50, 50) 1 2 "car" "camera2" 0) = Some (x, y, z) /\
    (z == 4)%Q.
Proof.
  split.
  - apply (triangulate_position_spec
             (new_DetectedObject (100, 100, 50, 50) 1 2 "car" "camera1" 0)
             (new_DetectedObject (101, 100, 50, 50) 1 2 "car" "camera2" 0)).
    vm_compute. reflexivity.
  - destruct (triangulate_position_spec
             (new_DetectedObject (100, 100, 50, 50) 1 2 "car" "camera1" 0)
             (new_DetectedObject (140, 100, 50, 50) 1 2 "car" "camera2" 0))
      as [_ H].
    destruct H as (x & y & z & Hp & _ & Hz & _).
    + vm_compute. discriminate.
    + exists x, y, z. split; [exact Hp|]. rewrite Hz. vm_compute. reflexivity.
Defined.

Lemma py_min_mono (a b b' : Q) : (b <= b')%Q -> (py_min a b <= py_min a b')%Q.
Proof.
  intros H. unfold py_min.
  destruct (Qltb b a) eqn:E1, (Qltb b' a) eqn:E2;
    try apply Qltb_lt in E1; try apply Qltb_lt in E2;
    try apply Qltb_ge in E1; try apply Qltb_ge in E2; lra.
Qed.

Lemma py_max_mono (a b b' : Q) : (b <= b')%Q -> (py_max a b <= py_max a b')%Q.
Proof.
  intros H. unfold py_max.
  destruct (Qltb a b) eqn:E1, (Qltb a b') eqn:E2;
    try apply Qltb_lt in E1; try apply Qltb_lt in E2;
    try apply Qltb_ge in E1; try apply Qltb_ge in E2; lra.
Qed.

Lemma depth_factor_range (r : Q) :
  (1 # 10 <= py_max (1 # 10) (py_min 1 r) /\ py_max (1 # 10) (py_min 1 r) <= 1)%Q.
Proof.
  unfold py_max, py_min.
  destruct (Qltb r 1) eqn:E1;
    [apply Qltb_lt in E1|apply Qltb_ge in E1].
  - destruct (Qltb (1 # 10) r) eqn:E2;
      [apply Qltb_lt in E2|apply Qltb_ge in E2]; lra.
  - destruct (Qltb (1 # 10) 1) eqn:E2;
      [apply Qltb_lt in E2|apply Qltb_ge in E2]; lra.
Qed.

Lemma estimate_single_camera_position_eq (obj : DetectedObject) (cam : string) :
  exists x y : Q,
    _estimate_single_camera_position obj cam =
      Some (x, y, estimated_depth (get_area obj)).
Proof.
  unfold _estimate_single_camera_position.
  rewrite normalize_width, normalize_height. cbn [rbind].
  rewrite truediv_ok by (vm_compute; discriminate). cbn [rbind].
  destruct (String.eqb cam "camera1");
    rewrite truediv_ok by discriminate; cbn [rbind try_except];
    eexists _, _; reflexivity.
Qed.

(** C6.  The depth estimated for a single source does not increase
    with the pixel area of the box (whatever the centres and the
    source), and it always lies in [1, 10]. *)
Theorem estimate_depth_monotone (obj obj' : DetectedObject) (cam cam' : string) :
  get_area obj <= get_area obj' ->
  exists x y z x' y' z' : Q,
    _estimate_single_camera_position obj cam = Some (x, y, z) /\
    _estimate_single_camera_position obj' cam' = Some (x', y', z') /\
    (z' <= z)%Q /\
    (1 <= z)%Q /\ (z <= 10)%Q /\ (1 <= z')%Q /\ (z' <= 10)%Q.
Proof.
  intros Harea.
  destruct (estimate_single_camera_position_eq obj cam) as (x & y & H).
  destruct (estimate_single_camera_position_eq obj' cam') as (x' & y' & H').
  exists x, y, (estimated_depth (get_area obj)).
  exists x', y', (estimated_depth (get_area obj')).
  split; [exact H|]. split; [exact H'|].
  unfold estimated_depth.
  set (m := (inject_Z (FRAME_WIDTH * FRAME_HEIGHT) * (1 # 10))%Q).
  assert (Hm : (0 < m)%Q) by (vm_compute; reflexivity).
  assert (Hr : (inject_Z (get_area obj) / m <= inject_Z (get_area obj') / m)%Q).
  { apply Qmult_le_compat_r.
    - unfold Qle, inject_Z. simpl. lia.
    - apply Qlt_le_weak, Qinv_lt_0_compat. exact Hm. }
  pose proof (py_max_mono (1 # 10) _ _ (py_min_mono 1 _ _ Hr)) as Hmono.
  pose proof (depth_factor_range (inject_Z (get_area obj) / m)) as [Hl Hu].
  pose proof (depth_factor_range (inject_Z (get_area obj') / m)) as [Hl' Hu'].
  repeat split; lra.
Qed.

Lemma estimate_depth_monotone_witness :
  exists x y z x' y' z' : Q,
    _estimate_single_camera_position
      (new_DetectedObject (100, 100, 50, 50) 1 2 "car" "camera1" 0) "camera1"
      = Some (x, y, z) /\
    _estimate_single_camera_position
      (new_DetectedObject (100, 100, 100, 100) 1 2 "car" "camera1" 0) "camera1"
      = Some (x', y', z') /\
    (z' <= z)%Q /\
    (1 <= z)%Q /\ (z <= 10)%Q /\ (1 <= z')%Q /\ (z' <= 10)%Q.
Proof.
  apply (estimate_depth_monotone
           (new_DetectedObject (100, 100, 50, 50) 1 2 "car" "camera1" 0)
           (new_DetectedObject (100, 100, 100, 100) 1 2 "car" "camera1" 0)).
  vm_compute. discriminate.
Defined.

(** ** Detection *)

Lemma for_each_invariant {A S : Type} (P : S -> Prop)
    (body : S -> A -> result S) (xs : list A) :
  (forall s x s', P s -> body s x = Ok s' -> P s') ->
  forall acc r, P acc -> for_each body xs acc = Ok r -> P r.
Proof.
  intros Hbody. induction xs as [|x xs IH]; intros acc r Hacc Hrun.
  - simpl in Hrun. injection Hrun as <-. exact Hacc.
  - simpl in Hrun. destruct (body acc x) as [acc'|e] eqn:Hb; [|discriminate].
    simpl in Hrun. eapply IH; [|exact Hrun]. eapply Hbody; eassumption.
Qed.

Lemma for_each_app {A S : Type} (body : S -> A -> result S) (xs ys : list A)
    (acc : S) :
  for_each body (xs ++ ys) acc = (acc' <- for_each body xs acc ;; for_each body ys acc').
Proof.
  revert acc. induction xs as [|x xs IH]; intros acc; [reflexivity|].
  simpl. destruct (body acc x) as [acc'|e]; simpl; [apply IH|reflexivity].
Qed.

Section Detection.

Context {Frame : Type}.

Lemma detect_box_spec (m : @Yolo Frame) (cam : string) (now : Q)
    (acc : list DetectedObject) (box : RawBox) :
  detect_box m cam now acc box =
    match detection_of m cam now box with
    | None => Raise KeyError
    | Some o => Ok (if passes_filters o then acc ++ [o] else acc)
    end.
Proof.
  unfold detect_box, detection_of.
  destruct (xyxy box) as [[[x1 y1] x2] y2].
  destruct (names m !! py_int (cls box)) as [cn|]; [|reflexivity].
  unfold passes_filters, get_area. cbn [class_name bbox new_DetectedObject].
  destruct (bool_decide (cn ∈ TRACK_CLASSES)); [|reflexivity].
  cbn [andb].
  destruct ((MIN_OBJECT_SIZE <=? _) && (_ <=? MAX_OBJECT_SIZE)); reflexivity.
Qed.

Lemma detect_boxes_spec (m : @Yolo Frame) (cam : string) (now : Q)
    (bs : list RawBox) :
  forall acc r,
    for_each (detect_box m cam now) bs acc = Ok r ->
    exists os, mapM (detection_of m cam now) bs = Some os /\
               r = acc ++ filter (fun o => passes_filters o = true) os.
Proof.
  induction bs as [|b bs IH]; intros acc r Hrun.
  - simpl in Hrun. injection Hrun as <-. exists []. split; [reflexivity|].
    simpl. by rewrite app_nil_r.
  - simpl in Hrun. rewrite detect_box_spec in Hrun.
    destruct (detection_of m cam now b) as [o|] eqn:Ho; [|discriminate].
    simpl in Hrun. apply IH in Hrun as (os & Hos & ->).
    exists (o :: os). split.
    + simpl. rewrite Ho. simpl. rewrite Hos. reflexivity.
    + rewrite filter_cons.
      destruct (passes_filters o) eqn:Hp.
      * rewrite decide_True by reflexivity. by rewrite <- app_assoc.
      * rewrite decide_False by discriminate. reflexivity.
Qed.

Lemma detect_results_spec (m : @Yolo Frame) (cam : string) (now : Q)
    (results : list (option (list RawBox))) :
  forall acc r,
    for_each (detect_result m cam now) results acc = Ok r ->
    exists os, mapM (detection_of m cam now) (all_boxes results) = Some os /\
               r = acc ++ filter (fun o => passes_filters o = true) os.
Proof.
  induction results as [|res results IH]; intros acc r Hrun.
  - simpl in Hrun. injection Hrun as <-. exists []. split; [reflexivity|].
    simpl. by rewrite app_nil_r.
  - simpl in Hrun.
    destruct (detect_result m cam now acc res) as [acc'|e] eqn:Hres; [|discriminate].
    simpl in Hrun. apply IH in Hrun as (os2 & Hos2 & ->).
    assert (exists os1, mapM (detection_of m cam now) (default [] res) = Some os1 /\
              acc' = acc ++ filter (fun o => passes_filters o = true) os1)
      as (os1 & Hos1 & ->).
    { destruct res as [bs|]; simpl in Hres |- *.
      - apply detect_boxes_spec. exact Hres.
      - injection Hres as <-. exists []. split; [reflexivity|].
        simpl. by rewrite app_nil_r. }
    exists (os1 ++ os2). split.
    + unfold all_boxes. simpl. apply mapM_Some_2.
      apply mapM_Some_1 in Hos1. apply mapM_Some_1 in Hos2.
      apply Forall2_app; assumption.
    + rewrite filter_app. by rewrite <- app_assoc.
Qed.

(** C8.  Every object [detect_objects] returns has a class in
    [TRACK_CLASSES] and a box area in
    [[MIN_OBJECT_SIZE, MAX_OBJECT_SIZE]]; and when the detector
    answers, the returned list is exactly the raw detections that
    pass both filters, in order: one failing either is discarded. *)
Theorem detect_objects_filtered (self : ObjectTracker) (frame : Frame)
    (cam : string) (now : Q) :
  (forall o, o ∈ detect_objects self frame cam now ->
     class_name o ∈ TRACK_CLASSES /\
     MIN_OBJECT_SIZE <= get_area o <= MAX_OBJECT_SIZE) /\
  (forall m results os,
     yolo_model self = Some m ->
     yolo_call m frame = Ok results ->
     mapM (detection_of m cam now) (all_boxes results) = Some os ->
     detect_objects self frame cam now =
       filter (fun o => passes_filters o = true) os).
Proof.
  unfold detect_objects. split.
  - intros o Ho.
    destruct (yolo_model self) as [m|]; [|by apply elem_of_nil in Ho].
    destruct (yolo_call m frame) as [results|e]; simpl in Ho;
      [|by apply elem_of_nil in Ho].
    destruct (for_each _ results []) as [r|e] eqn:Hrun; simpl in Ho;
      [|by apply elem_of_nil in Ho].
    apply detect_results_spec in Hrun as (os & _ & ->). simpl in Ho.
    apply list_elem_of_filter in Ho as [Hp _].
    unfold passes_filters in Hp.
    apply andb_prop in Hp as [Hc Hs]. apply andb_prop in Hs as [Hlo Hhi].
    apply bool_decide_eq_true in Hc.
    apply Z.leb_le in Hlo. apply Z.leb_le in Hhi. auto.
  - intros m results os Hm Hcall Hos. rewrite Hm, Hcall. simpl.
    destruct (for_each _ results []) as [r|e] eqn:Hrun.
    + apply detect_results_spec in Hrun as (os' & Hos' & ->).
      simpl. congruence.
    + exfalso. revert Hrun.
      assert (forall acc, for_each (detect_result m cam now) results acc <> Raise e)
        as H; [|apply H].
      clear Hcall. revert os Hos.
      induction results as [|res results IH]; intros os Hos acc; [discriminate|].
      unfold all_boxes in Hos. simpl in Hos.
      apply mapM_Some_1 in Hos. apply Forall2_app_inv_l in Hos
        as (os1 & os2 & H1 & H2 & ->).
      apply mapM_Some_2 in H1. apply mapM_Some_2 in H2.
      simpl.
      assert (exists acc', detect_result m cam now acc res = Ok acc') as [acc' ->].
      { destruct res as [bs|]; simpl in *; [|eauto].
        clear -H1. revert os1 H1 acc.
        induction bs as [|b bs IHb]; intros os1 H1 acc; [simpl; eauto|].
        simpl. rewrite detect_box_spec.
        simpl in H1. destruct (detection_of m cam now b) as [o|]; [|discriminate].
        simpl in H1. destruct (mapM _ bs) as [os'|] eqn:E; [|discriminate].
        simpl. eapply IHb. reflexivity. }
      simpl. eapply IH. exact H2.
Qed.

End Detection.

Lemma detect_objects_filtered_witness :
  let kept := new_DetectedObject (100, 100, 50, 50) (9 # 10) 2 "car" "camera1" 0 in
  let small := new_DetectedObject (100, 100, 5, 50) (9 # 10) 2 "car" "camera1" 0 in
  let person := new_DetectedObject (100, 100, 50, 50) (9 # 10) 0 "person" "camera1" 0 in
  detect_objects demo_tracker 0%nat "camera1" 0 =
    filter (fun o => passes_filters o = true) [kept; small; person] /\
  detect_objects demo_tracker 0%nat "camera1" 0 = [kept] /\
  class_name kept ∈ TRACK_CLASSES /\
  MIN_OBJECT_SIZE <= get_area kept <= MAX_OBJECT_SIZE.
Proof.
  intros kept small person.
  destruct (detect_objects_filtered demo_tracker 0%nat "camera1" 0) as [Hall Hexact].
  split; [|split].
  - exact (Hexact demo_yolo _ [kept; small; person] eq_refl eq_refl eq_refl).
  - reflexivity.
  - apply (Hall kept). vm_compute. apply list_elem_of_here.
Defined.


(** ** Identity assignment *)

Lemma calculate_iou_iou (b1 b2 : BBox) : _calculate_iou b1 b2 = Ok (iou b1 b2).
Proof.
  unfold iou. destruct (calculate_iou_total b1 b2) as [q ->]. reflexivity.
Qed.

Lemma iou_nonneg (b1 b2 : BBox) : (0 <= iou b1 b2)%Q.
Proof.
  apply (calculate_iou_range b1 b2). apply calculate_iou_iou.
Qed.

Lemma best_match_loop_spec (box : BBox) (objs : list DetectedObject) :
  forall (i : nat) (best : option nat) (biou : Q),
  exists best' biou',
    best_match_loop box objs i best biou = Ok (best', biou') /\
    ((best' = best /\ biou' = biou /\
      forall j o, objs !! j = Some o -> (iou (bbox o) box <= biou)%Q)
     \/
     (exists k o, best' = Some (i + k)%nat /\ objs !! k = Some o /\
        biou' = iou (bbox o) box /\ (biou < biou')%Q /\
        (forall j o', objs !! j = Some o' -> (iou (bbox o') box <= biou')%Q) /\
        (forall j o', (j < k)%nat -> objs !! j = Some o' ->
                      (iou (bbox o') box < biou')%Q))).
Proof.
  induction objs as [|obj objs IH]; intros i best biou.
  - exists best, biou. split; [reflexivity|]. left.
    repeat split. intros j o Hj. rewrite lookup_nil in Hj. discriminate.
  - simpl. rewrite calculate_iou_iou. cbn [rbind].
    destruct (Qltb biou (iou (bbox obj) box)) eqn:Hcmp.
    + apply Qltb_lt in Hcmp.
      destruct (IH (S i) (Some i) (iou (bbox obj) box))
        as (best' & biou' & Hrun & [(-> & -> & Hall)|(k & o & -> & Hk & -> & Hlt & Hall & Hfirst)]).
      * exists (Some i), (iou (bbox obj) box). split; [exact Hrun|]. right.
        exists 0%nat, obj. rewrite Nat.add_0_r.
        repeat split; try assumption; try reflexivity.
        -- intros [|j] o' Hj; simpl in Hj.
           ++ injection Hj as <-. apply Qle_refl.
           ++ eapply Hall. exact Hj.
        -- intros j o' Hlt. lia.
      * exists (Some (S i + k)%nat), (iou (bbox o) box). split; [exact Hrun|]. right.
        exists (S k), o. split; [f_equal; lia|].
        repeat split; try assumption; try reflexivity.
        -- lra.
        -- intros [|j] o' Hj; simpl in Hj.
           ++ injection Hj as <-. lra.
           ++ eapply Hall. exact Hj.
        -- intros [|j] o' Hjk Hj; simpl in Hj.
           ++ injection Hj as <-. exact Hlt.
           ++ eapply Hfirst; [|exact Hj]. lia.
    + apply Qltb_ge in Hcmp.
      destruct (IH (S i) best biou)
        as (best' & biou' & Hrun & [(-> & -> & Hall)|(k & o & -> & Hk & -> & Hlt & Hall & Hfirst)]).
      * exists best, biou. split; [exact Hrun|]. left.
        repeat split. intros [|j] o' Hj; simpl in Hj.
        -- injection Hj as <-. exact Hcmp.
        -- eapply Hall. exact Hj.
      * exists (Some (S i + k)%nat), (iou (bbox o) box). split; [exact Hrun|]. right.
        exists (S k), o. split; [f_equal; lia|].
        repeat split; try assumption; try reflexivity.
        -- intros [|j] o' Hj; simpl in Hj.
           ++ injection Hj as <-. lra.
           ++ eapply Hall. exact Hj.
        -- intros [|j] o' Hjk Hj; simpl in Hj.
           ++ injection Hj as <-. lra.
           ++ eapply Hfirst; [|exact Hj]. lia.
Qed.

(** The inner loop returns the first object of maximal non-zero IoU,
    or nothing when every IoU is zero. *)
Lemma find_best_match_spec (box : BBox) (objs : list DetectedObject) :
  exists best q,
    find_best_match box objs = Ok (best, q) /\
    match best with
    | Some k => is_first_best box objs k
    | None => forall o, o ∈ objs -> (iou (bbox o) box == 0)%Q
    end.
Proof.
  unfold find_best_match.
  destruct (best_match_loop_spec box objs 0 None 0%Q)
    as (best & q & Hrun & [(-> & -> & Hall)|(k & o & -> & Hk & -> & Hlt & Hall & Hfirst)]).
  - exists None, 0%Q. split; [exact Hrun|].
    intros o Ho. apply list_elem_of_lookup in Ho as [j Hj].
    apply Qle_antisym; [eapply Hall; exact Hj|apply iou_nonneg].
  - exists (Some k), (iou (bbox o) box). split; [exact Hrun|].
    exists o. repeat split; assumption.
Qed.

Lemma is_first_best_positive (box : BBox) (objs : list DetectedObject) (k : nat) :
  is_first_best box objs k ->
  ~ (forall o, o ∈ objs -> (iou (bbox o) box == 0)%Q).
Proof.
  intros (o & Hk & Hpos & _) Hzero.
  assert (Ho : o ∈ objs) by (apply list_elem_of_lookup; eauto).
  specialize (Hzero o Ho). lra.
Qed.

(** The three ways through the body of the loop over the tracks. *)
Lemma track_step_cases (st : TrackingState) (t : Track) :
  (is_confirmed t = false /\ track_step st t = Ok st) \/
  (is_confirmed t = true /\
   (forall o, o ∈ store st -> (iou (bbox o) (track_box t) == 0)%Q) /\
   track_step st t = Ok st) \/
  (is_confirmed t = true /\
   exists k o, is_first_best (track_box t) (store st) k /\
     store st !! k = Some o /\
     track_step st t =
       Ok (mkTrackingState
             (<[k := set_track (tr_track_id t) (track_box t) o]> (store st))
             (tracked_objects st ++ [k])
             (record_history (tr_track_id t)
                (set_track (tr_track_id t) (track_box t) o) (history st)))).
Proof.
  unfold track_step.
  destruct (is_confirmed t); [|left; split; reflexivity].
  right. cbn [negb].
  destruct (find_best_match_spec (track_box t) (store st)) as (best & q & -> & Hbest).
  cbn [rbind fst].
  destruct best as [k|].
  - right. split; [reflexivity|].
    pose proof Hbest as (o & Hk & _). exists k, o. rewrite Hk. auto.
  - left. auto.
Qed.

Lemma track_step_total (st : TrackingState) (t : Track) :
  exists st', track_step st t = Ok st'.
Proof.
  destruct (track_step_cases st t) as [[_ H]|[(_ & _ & H)|(_ & k & o & _ & _ & H)]];
    rewrite H; eauto.
Qed.

Lemma track_loop_run (st : TrackingState) (tracks : list Track) :
  track_loop st tracks = (run_tracks st tracks, None).
Proof.
  unfold run_tracks. revert st.
  induction tracks as [|t ts IH]; intros st; [reflexivity|].
  simpl. destruct (track_step_total st t) as [st' ->]. apply IH.
Qed.

Lemma run_tracks_cons (st st' : TrackingState) (t : Track) (ts : list Track) :
  track_step st t = Ok st' -> run_tracks st (t :: ts) = run_tracks st' ts.
Proof. unfold run_tracks. simpl. intros ->. reflexivity. Qed.

Lemma run_tracks_snoc (st : TrackingState) (ts : list Track) (t : Track) :
  track_step (run_tracks st ts) t = Ok (run_tracks st (ts ++ [t])).
Proof.
  revert st. induction ts as [|t' ts IH]; intros st.
  - unfold run_tracks. simpl. destruct (track_step_total st t) as [st' H].
    rewrite H. reflexivity.
  - simpl. destruct (track_step_total st t') as [st' H].
    rewrite !(run_tracks_cons _ _ _ _ H). apply IH.
Qed.

Lemma run_tracks_reassociated (st0 : TrackingState) (tracks : list Track) :
  tracked_objects st0 = [] ->
  forall r, r ∈ tracked_objects (run_tracks st0 tracks) ->
            reassociated st0 tracks r.
Proof.
  intros Hempty. unfold reassociated.
  induction tracks as [|t ts IH] using rev_ind; intros r Hr.
  - unfold run_tracks in Hr. simpl in Hr. rewrite Hempty in Hr.
    by apply elem_of_nil in Hr.
  - pose proof (run_tracks_snoc st0 ts t) as Hstep.
    destruct (track_step_cases (run_tracks st0 ts) t)
      as [[_ H]|[(_ & _ & H)|(Hconf & k & o & Hbest & Hk & H)]];
      rewrite H in Hstep; injection Hstep as Hstep.
    + rewrite <- Hstep in Hr |- *.
      destruct (IH r Hr) as (pre & track & post & o & Heq & Hc & Hb & Ho & Hid & Hbox).
      exists pre, track, (post ++ [t]), o.
      rewrite Heq, <- app_assoc. simpl. rewrite <- Heq. auto 10.
    + rewrite <- Hstep in Hr |- *.
      destruct (IH r Hr) as (pre & track & post & o & Heq & Hc & Hb & Ho & Hid & Hbox).
      exists pre, track, (post ++ [t]), o.
      rewrite Heq, <- app_assoc. simpl. rewrite <- Heq. auto 10.
    + destruct (decide (r = k)) as [->|Hne].
      * exists ts, t, [], (set_track (tr_track_id t) (track_box t) o).
        split; [reflexivity|]. split; [exact Hconf|]. split; [exact Hbest|].
        rewrite <- Hstep. simpl. split; [|auto].
        apply list_lookup_insert_eq. eapply lookup_lt_Some. exact Hk.
      * rewrite <- Hstep in Hr. simpl in Hr.
        apply elem_of_app in Hr as [Hr|Hr];
          [|apply list_elem_of_singleton in Hr; contradiction].
        destruct (IH r Hr) as (pre & track & post & o' & Heq & Hc & Hb & Ho & Hid & Hbox).
        exists pre, track, (post ++ [t]), o'.
        rewrite <- Hstep. simpl.
        rewrite list_lookup_insert_ne by auto.
        rewrite Heq at 1. rewrite <- app_assoc. simpl. auto 10.
Qed.

(** Tracks that are not confirmed can be left out. *)
Lemma run_tracks_confirmed_only (st : TrackingState) (tracks : list Track) :
  run_tracks st (filter (fun t => is_confirmed t = true) tracks) = run_tracks st tracks.
Proof.
  revert st. induction tracks as [|t ts IH]; intros st; [reflexivity|].
  rewrite filter_cons.
  destruct (track_step_total st t) as [st' Hst'].
  rewrite (run_tracks_cons _ _ _ _ Hst').
  destruct (is_confirmed t) eqn:Hc.
  - rewrite decide_True by reflexivity.
    rewrite (run_tracks_cons _ _ _ _ Hst'). apply IH.
  - rewrite decide_False by discriminate.
    destruct (track_step_cases st t) as [[_ H]|[(Hc' & _)|(Hc' & _)]];
      [|congruence|congruence].
    rewrite H in Hst'. injection Hst' as <-. apply IH.
Qed.

Lemma deref_all_refs (objs : list DetectedObject) :
  deref objs (all_refs objs) = objs.
Proof.
  unfold deref, all_refs.
  enough (H : forall pre, omap (fun i => (pre ++ objs) !! i)
                            (seq (length pre) (length objs)) = objs)
    by exact (H []).
  induction objs as [|x xs IH]; intros pre; [reflexivity|].
  simpl. rewrite list_lookup_middle by reflexivity. f_equal.
  specialize (IH (pre ++ [x])).
  rewrite <- app_assoc, length_app in IH. simpl in IH.
  rewrite Nat.add_1_r in IH. exact IH.
Qed.

Section IdentityAssignment.

Context {Frame : Type}.

Lemma update_deepsort_tracking_ok (self : @ObjectTracker Frame) (frame : Frame)
    (objs : list DetectedObject) (cam : string) (tracker : DeepSort)
    (tracks : list Track) :
  trackers self !! cam = Some tracker ->
  tracker (detections_of objs) frame = Ok tracks ->
  _update_deepsort_tracking self frame objs cam =
    run_tracks (mkTrackingState objs [] (object_history self)) tracks.
Proof.
  intros Ht Hcall.
  unfold _update_deepsort_tracking, detections_of, DeepSort, Detection in *.
  rewrite Ht, Hcall.
  rewrite track_loop_run. reflexivity.
Qed.

(** C7 (amended).  When the source has a tracker and its update
    returns, every reference in the returned list denotes an object
    that carries the identity and the box of a confirmed track which
    chose it as the first object of maximal, non-zero IoU among the
    objects as the earlier tracks of the cycle left them; a confirmed
    track whose IoU with every object is zero changes nothing; and the
    result is the same with the unconfirmed tracks left out.  When the
    source has no tracker, or the update of its tracker raises, the
    detections are returned as they are, all of them, in order and
    unchanged: without an identity if they had none, and with the
    history left as it was. *)
Theorem update_deepsort_tracking_identities (self : @ObjectTracker Frame)
    (frame : Frame) (objs : list DetectedObject) (cam : string) :
  let st0 := mkTrackingState objs [] (object_history self) in
  let st := _update_deepsort_tracking self frame objs cam in
  (forall (tracker : DeepSort) (tracks : list Track),
     trackers self !! cam = Some tracker ->
     tracker (detections_of objs) frame = Ok tracks ->
     (forall r, r ∈ tracked_objects st ->
        exists pre track post o,
          tracks = pre ++ track :: post /\
          is_confirmed track = true /\
          is_first_best (track_box track) (store (run_tracks st0 pre)) r /\
          store st !! r = Some o /\
          track_id o = Some (tr_track_id track) /\
          bbox o = track_box track) /\
     (forall s track,
        is_confirmed track = true ->
        (forall o, o ∈ store s -> (iou (bbox o) (track_box track) == 0)%Q) ->
        track_step s track = Ok s) /\
     (forall s track, is_confirmed track = false -> track_step s track = Ok s) /\
     st = run_tracks st0 (filter (fun t => is_confirmed t = true) tracks)) /\
  (trackers self !! cam = None \/
   (exists (tracker : DeepSort) e,
      trackers self !! cam = Some tracker /\
      tracker (detections_of objs) frame = Raise e) ->
   store st = objs /\
   tracked_objects st = all_refs objs /\
   deref (store st) (tracked_objects st) = objs /\
   history st = object_history self /\
   ((forall o, o ∈ objs -> track_id o = None) ->
    forall o, o ∈ deref (store st) (tracked_objects st) -> track_id o = None)).
Proof.
  intros st0 st. split.
  2: {
    intros Hfall.
    assert (Hst : st = mkTrackingState objs (all_refs objs) (object_history self)).
    { subst st. unfold _update_deepsort_tracking, detections_of, DeepSort, Detection in *.
      destruct Hfall as [Hnone|(tracker & e & Ht & Hraise)].
      - rewrite Hnone. reflexivity.
      - rewrite Ht, Hraise. reflexivity. }
    rewrite Hst. cbn [store tracked_objects history].
    rewrite deref_all_refs. repeat split. auto. }
  intros tracker tracks Ht Hcall.
  assert (Hst : st = run_tracks st0 tracks)
    by (apply (update_deepsort_tracking_ok self frame objs cam tracker); assumption).
  split; [|split; [|split]].
  - intros r Hr. rewrite Hst in Hr |- *.
    apply (run_tracks_reassociated st0 tracks eq_refl r Hr).
  - intros s track Hc Hzero.
    destruct (track_step_cases s track)
      as [[_ H]|[(_ & _ & H)|(_ & k & o & Hbest & _)]]; try exact H.
    exfalso. exact (is_first_best_positive _ _ _ Hbest Hzero).
  - intros s track Hc.
    destruct (track_step_cases s track) as [[_ H]|[(Hc' & _)|(Hc' & _)]];
      [exact H|congruence|congruence].
  - rewrite run_tracks_confirmed_only. exact Hst.
Qed.

End IdentityAssignment.

Lemma update_deepsort_tracking_identities_witness :
  (let st := _update_deepsort_tracking demo_tracker 0%nat [demo_obj1; demo_obj2]
               "camera1" in
   tracked_objects st = [0%nat; 0%nat] /\
   forall r, r ∈ tracked_objects st ->
     exists pre track post o,
       demo_tracks = pre ++ track :: post /\
       is_confirmed track = true /\
       is_first_best (track_box track)
         (store (run_tracks (mkTrackingState [demo_obj1; demo_obj2] [] ∅) pre)) r /\
       store st !! r = Some o /\
       track_id o = Some (tr_track_id track) /\
       bbox o = track_box track) /\
  (let st := _update_deepsort_tracking demo_tracker 0%nat [demo_obj1; demo_obj2]
               "camera2" in
   deref (store st) (tracked_objects st) = [demo_obj1; demo_obj2] /\
   forall o, o ∈ deref (store st) (tracked_objects st) -> track_id o = None) /\
  (let st := _update_deepsort_tracking demo_tracker 0%nat [demo_obj1; demo_obj2]
               "camera3" in
   deref (store st) (tracked_objects st) = [demo_obj1; demo_obj2] /\
   forall o, o ∈ deref (store st) (tracked_objects st) -> track_id o = None).
Proof.
  assert (Hfresh : forall o, o ∈ [demo_obj1; demo_obj2] -> track_id o = None).
  { intros o Ho. apply elem_of_cons in Ho as [->|Ho]; [reflexivity|].
    apply elem_of_cons in Ho as [->|Ho]; [reflexivity|].
    by apply elem_of_nil in Ho. }
  split; [|split].
  - intros st. split; [reflexivity|].
    exact (proj1 (proj1 (update_deepsort_tracking_identities demo_tracker 0%nat
                           [demo_obj1; demo_obj2] "camera1")
                    demo_deepsort demo_tracks eq_refl eq_refl)).
  - intros st.
    destruct (proj2 (update_deepsort_tracking_identities demo_tracker 0%nat
                       [demo_obj1; demo_obj2] "camera2")
                (or_intror (ex_intro _ failing_deepsort
                              (ex_intro _ OtherError (conj eq_refl eq_refl)))))
      as (_ & _ & Hall & _ & Hid).
    split; [exact Hall|exact (Hid Hfresh)].
  - intros st.
    destruct (proj2 (update_deepsort_tracking_identities demo_tracker 0%nat
                       [demo_obj1; demo_obj2] "camera3") (or_introl eq_refl))
      as (_ & _ & Hall & _ & Hid).
    split; [exact Hall|exact (Hid Hfresh)].
Defined.


(** A track met later in the cycle is compared with the boxes as the
    earlier tracks left them: here the first track moves the box of
    the only object, and the second track, which overlaps the box the
    detector gave, no longer overlaps anything and promotes nothing. *)
Example later_track_sees_refined_box :
  let obj := new_DetectedObject (0, 0, 10, 10) 1 2 "car" "camera1" 0 in
  let first := mkTrack true 1 (8, 0, 18, 10)%Q in
  let second := mkTrack true 2 (0, 0, 4, 10)%Q in
  let st := run_tracks (mkTrackingState [obj] [] ∅) [first; second] in
  (0 < iou (bbox obj) (track_box second))%Q /\
  tracked_objects st = [0%nat] /\
  (track_id <$> store st !! 0%nat) = Some (Some 1).
Proof. vm_compute. repeat split. Qed.

(** C7, as stated, fails when the tracker raises: the returned list
    then holds the detections, which carry no identity. *)
Lemma update_deepsort_tracking_counterexample :
  let st := _update_deepsort_tracking demo_tracker 0%nat [demo_obj1] "camera2" in
  ~ (forall r o, r ∈ tracked_objects st -> store st !! r = Some o ->
                 exists tid, track_id o = Some tid).
Proof.
  intros st H.
  destruct (H 0%nat demo_obj1) as [tid Htid].
  - vm_compute. apply list_elem_of_here.
  - reflexivity.
  - discriminate Htid.
Qed.

(** ** One cycle of the orchestrator *)

Lemma for_each_total {A S : Type} (body : S -> A -> result S) (xs : list A) :
  (forall s x, exists s', body s x = Ok s') ->
  forall acc, exists r, for_each body xs acc = Ok r.
Proof.
  intros Hbody. induction xs as [|x xs IH]; intros acc; [simpl; eauto|].
  simpl. destruct (Hbody acc x) as [acc' ->]. simpl. apply IH.
Qed.

Lemma similarity_loop_total (obj1 : DetectedObject) (store2 : list DetectedObject)
    (objects2 : list nat) :
  forall best_match best_similarity,
  exists r, similarity_loop obj1 store2 objects2 best_match best_similarity = Ok r.
Proof.
  induction objects2 as [|r2 rest IH]; intros bm bs; [simpl; eauto|].
  cbn [similarity_loop]. destruct (store2 !! r2) as [obj2|]; [|apply IH].
  destruct (String.eqb (class_name obj1) (class_name obj2)); [|apply IH].
  rewrite truediv_inject_pos by reflexivity. cbn [rbind].
  set (ratio := (inject_Z _ / inject_Z FRAME_HEIGHT)%Q).
  assert (Hratio : (0 <= ratio)%Q).
  { subst ratio. apply Qle_shift_div_l; [reflexivity|].
    rewrite Qmult_0_l. unfold Qle, inject_Z. simpl. lia. }
  rewrite truediv_ok by lra. cbn [rbind].
  destruct (_ && _); apply IH.
Qed.

Lemma calculate_3d_positions_total (store1 : list DetectedObject)
    (objects1 : list nat) (store2 : list DetectedObject) (objects2 : list nat) :
  exists stores, _calculate_3d_positions store1 objects1 store2 objects2 = Ok stores.
Proof.
  unfold _calculate_3d_positions.
  assert (H1 : forall s r1, exists s', position_step1 store2 objects2 s r1 = Ok s').
  { intros s r1. unfold position_step1.
    destruct (s !! r1) as [obj1|]; [|eauto].
    destruct (similarity_loop_total obj1 store2 objects2 None 0%Q) as [bm ->].
    cbn [rbind].
    destruct (bm ≫= _) as [obj2|];
      [destruct (_triangulate_position obj1 obj2)
      |destruct (_estimate_single_camera_position obj1 "camera1")]; eauto. }
  assert (H2 : forall s r2, exists s', position_step2 s r2 = Ok s').
  { intros s r2. unfold position_step2.
    destruct (s !! r2) as [obj2|]; [|eauto].
    destruct (position_3d obj2); [eauto|].
    destruct (_estimate_single_camera_position obj2 "camera2"); eauto. }
  destruct (for_each_total _ objects1 H1 store1) as [s1 ->]. cbn [rbind].
  destruct (for_each_total _ objects2 H2 store2) as [s2 ->]. cbn [rbind].
  eauto.
Qed.

(** The history plays no role in what the loop over the tracks does to
    the objects. *)
Lemma track_step_history (st st' s : TrackingState) (t : Track) :
  store st = store st' -> tracked_objects st = tracked_objects st' ->
  track_step st t = Ok s ->
  exists s', track_step st' t = Ok s' /\
             store s = store s' /\ tracked_objects s = tracked_objects s'.
Proof.
  intros Hs Ht. unfold track_step. rewrite <- Hs, <- Ht.
  destruct (is_confirmed t); cbn [negb].
  - destruct (find_best_match (track_box t) (store st)) as [[best q]|e];
      cbn [rbind fst]; [|discriminate].
    destruct best as [k|].
    + destruct (store st !! k) as [o|].
      * intros [= <-]. eexists. split; [reflexivity|]. split; reflexivity.
      * intros [= <-]. eexists. split; [reflexivity|]. auto.
    + intros [= <-]. eexists. split; [reflexivity|]. auto.
  - intros [= <-]. eexists. split; [reflexivity|]. auto.
Qed.

Lemma run_tracks_history (tracks : list Track) :
  forall st st',
    store st = store st' -> tracked_objects st = tracked_objects st' ->
    store (run_tracks st tracks) = store (run_tracks st' tracks) /\
    tracked_objects (run_tracks st tracks) = tracked_objects (run_tracks st' tracks).
Proof.
  induction tracks as [|t ts IH]; intros st st' Hs Ht; [auto|].
  destruct (track_step_total st t) as [s H].
  destruct (track_step_history st st' s t Hs Ht H) as (s' & H' & Hs' & Ht').
  rewrite (run_tracks_cons _ _ _ _ H), (run_tracks_cons _ _ _ _ H').
  apply IH; assumption.
Qed.

Lemma run_tracks_empty_store (tracks : list Track) :
  forall st, store st = [] -> run_tracks st tracks = st.
Proof.
  induction tracks as [|t ts IH]; intros st Hs; [reflexivity|].
  assert (H : track_step st t = Ok st).
  { destruct (track_step_cases st t) as [[_ H]|[(_ & _ & H)|(_ & k & o & _ & Hk & _)]];
      try exact H.
    rewrite Hs, lookup_nil in Hk. discriminate. }
  rewrite (run_tracks_cons _ _ _ _ H). apply IH. exact Hs.
Qed.

Section Cycle.

Context {Frame : Type}.

Lemma update_deepsort_tracking_history (self : @ObjectTracker Frame)
    (h : gmap Z (list DetectedObject)) (frame : Frame)
    (objs : list DetectedObject) (cam : string) :
  store (_update_deepsort_tracking (with_history self h) frame objs cam) =
    store (_update_deepsort_tracking self frame objs cam) /\
  tracked_objects (_update_deepsort_tracking (with_history self h) frame objs cam) =
    tracked_objects (_update_deepsort_tracking self frame objs cam).
Proof.
  unfold _update_deepsort_tracking. cbn [with_history trackers object_history].
  destruct (trackers self !! cam) as [tracker|]; [|auto].
  destruct (tracker _ frame) as [tracks|e]; [|auto].
  rewrite !track_loop_run. apply run_tracks_history; reflexivity.
Qed.

Lemma detect_objects_history (self : @ObjectTracker Frame)
    (h : gmap Z (list DetectedObject)) (frame : Frame) (cam : string) (now : Q) :
  detect_objects (with_history self h) frame cam now = detect_objects self frame cam now.
Proof. reflexivity. Qed.

Lemma track_source_history (self : @ObjectTracker Frame)
    (h : gmap Z (list DetectedObject)) (frame : option Frame) (cam : string) (now : Q) :
  store (track_source (with_history self h) frame cam now) =
    store (track_source self frame cam now) /\
  tracked_objects (track_source (with_history self h) frame cam now) =
    tracked_objects (track_source self frame cam now).
Proof.
  destruct frame as [f|]; [|auto]. unfold track_source.
  rewrite detect_objects_history. apply update_deepsort_tracking_history.
Qed.

(** C4 (amended).  A cycle always returns, and the list of each source
    is the one its own detection and identity assignment give,
    whatever happens for the other source.  If the detector raises for
    a source, that source has no detection and its list is empty.  If
    the tracker raises during its update, the list of that source is
    the list of its detections, which is returned as it is. *)
Theorem track_objects_error_handling (self : @ObjectTracker Frame)
    (frame1 frame2 : option Frame) (now : Q) :
  (exists out, track_objects self frame1 frame2 now = Ok out /\
     out_camera1 out = tracked_objects (track_source self frame1 "camera1" now) /\
     out_camera2 out = tracked_objects (track_source self frame2 "camera2" now)) /\
  (forall cam f m e,
     yolo_model self = Some m -> yolo_call m f = Raise e ->
     detect_objects self f cam now = [] /\
     tracked_objects (track_source self (Some f) cam now) = []) /\
  (forall cam f tracker e,
     trackers self !! cam = Some tracker ->
     tracker (detections_of (detect_objects self f cam now)) f = Raise e ->
     let st := track_source self (Some f) cam now in
     store st = detect_objects self f cam now /\
     tracked_objects st = all_refs (detect_objects self f cam now) /\
     deref (store st) (tracked_objects st) = detect_objects self f cam now).
Proof.
  split; [|split].
  - unfold track_objects.
    set (st1 := track_source self frame1 "camera1" now).
    set (st2 := track_source (with_history self (history st1)) frame2 "camera2" now).
    assert (H2 : tracked_objects st2 =
                 tracked_objects (track_source self frame2 "camera2" now))
      by apply track_source_history.
    destruct (_ && _).
    + destruct (calculate_3d_positions_total (store st1) (tracked_objects st1)
                  (store st2) (tracked_objects st2)) as [stores ->].
      cbn [rbind]. eexists. split; [reflexivity|]. simpl. auto.
    + eexists. split; [reflexivity|]. simpl. auto.
  - intros cam f m e Hm Hcall.
    assert (Hd : detect_objects self f cam now = []).
    { unfold detect_objects. rewrite Hm, Hcall. reflexivity. }
    split; [exact Hd|].
    unfold track_source. rewrite Hd. unfold _update_deepsort_tracking.
    destruct (trackers self !! cam) as [tracker|]; [|reflexivity].
    destruct (tracker _ f) as [tracks|e']; [|reflexivity].
    rewrite track_loop_run, run_tracks_empty_store; reflexivity.
  - intros cam f tracker e Ht Hcall st.
    assert (Hst : st = mkTrackingState (detect_objects self f cam now)
                         (all_refs (detect_objects self f cam now))
                         (object_history self)).
    { subst st. unfold track_source.
      unfold _update_deepsort_tracking, detections_of, DeepSort, Detection in *.
      rewrite Ht, Hcall. reflexivity. }
    rewrite Hst. simpl. repeat split. apply deref_all_refs.
Qed.

End Cycle.

Lemma track_objects_error_handling_witness :
  (detect_objects detector_raises 0%nat "camera1" 0 = [] /\
   tracked_objects (track_source detector_raises (Some 0%nat) "camera1" 0) = []) /\
  (let st := track_source tracker_raises (Some 0%nat) "camera1" 0 in
   store st = detect_objects tracker_raises 0%nat "camera1" 0 /\
   tracked_objects st = all_refs (detect_objects tracker_raises 0%nat "camera1" 0) /\
   deref (store st) (tracked_objects st) = detect_objects tracker_raises 0%nat "camera1" 0).
Proof.
  split.
  - exact (proj1 (proj2 (track_objects_error_handling detector_raises None None 0))
             "camera1" 0%nat failing_yolo OtherError eq_refl eq_refl).
  - exact (proj2 (proj2 (track_objects_error_handling tracker_raises None None 0))
             "camera1" 0%nat failing_deepsort OtherError eq_refl eq_refl).
Defined.

(** C4, as stated, fails when the tracker raises: the source's list
    for the cycle is not empty, it holds the detection. *)
Lemma track_objects_tracker_raise_counterexample :
  failing_deepsort
    (detections_of (detect_objects tracker_raises 0%nat "camera1" 0)) 0%nat
    = Raise OtherError /\
  exists out,
    track_objects tracker_raises (Some 0%nat) None 0 = Ok out /\
    out_camera1 out = [0%nat] /\
    deref (out_store1 out) (out_camera1 out) <> [].
Proof.
  split; [reflexivity|].
  eexists. split; [vm_compute; reflexivity|]. split; [reflexivity|].
  vm_compute. discriminate.
Qed.

(** ** Address normalisation *)

Module PyStrFacts.
Import PyStr.

Lemma append_cons (c : ascii) (s r : string) :
  String c s +:+ r = String c (s +:+ r).
Proof. reflexivity. Qed.

Lemma startswith_append (p r : string) : startswith p (p +:+ r) = true.
Proof.
  induction p as [|c p IH]; [reflexivity|].
  rewrite append_cons. simpl. rewrite Ascii.eqb_refl. exact IH.
Qed.

Lemma startswith_inv (p s : string) :
  startswith p s = true -> exists r, s = p +:+ r.
Proof.
  revert s. induction p as [|c p IH]; intros s H.
  - exists s. reflexivity.
  - destruct s as [|d s]; [discriminate|]. simpl in H.
    destruct (Ascii.eqb c d) eqn:E; [|discriminate].
    apply Ascii.eqb_eq in E. subst d.
    destruct (IH s H) as [r ->]. exists r. reflexivity.
Qed.

Lemma startswith_weaken (p q s : string) :
  startswith (p +:+ q) s = true -> startswith p s = true.
Proof.
  revert s. induction p as [|c p IH]; intros s H; [reflexivity|].
  rewrite append_cons in H. destruct s as [|d s]; [discriminate|].
  simpl in *. destruct (Ascii.eqb c d); [apply IH; exact H|discriminate].
Qed.

Lemma contains_startswith (p s : string) :
  startswith p s = true -> contains p s = true.
Proof. intros H. destruct s; simpl; rewrite H; reflexivity. Qed.

Lemma contains_cons (p : string) (c : ascii) (s : string) :
  contains p s = true -> contains p (String c s) = true.
Proof. intros H. simpl. rewrite H. apply orb_true_r. Qed.

Lemma contains_weaken (p q s : string) :
  contains (p +:+ q) s = true -> contains p s = true.
Proof.
  induction s as [|c s IH]; simpl; intros H.
  - apply orb_true_iff in H as [H|H]; [|discriminate].
    rewrite (startswith_weaken p q _ H). reflexivity.
  - apply orb_true_iff in H as [H|H].
    + rewrite (startswith_weaken p q _ H). reflexivity.
    + rewrite (IH H). apply orb_true_r.
Qed.

Lemma endswith_append (p s : string) : endswith p (s +:+ p) = true.
Proof.
  induction s as [|c s IH].
  - change ("" +:+ p) with p. destruct p; simpl; [reflexivity|].
    rewrite Ascii.eqb_refl, String.eqb_refl. reflexivity.
  - rewrite append_cons. simpl. rewrite IH. apply orb_true_r.
Qed.

(** A replacement leaves [new] in the result as soon as [old] occurs. *)
Lemma contains_replace_from (old new : string) :
  old <> EmptyString ->
  forall s skip,
    contains old (drop_chars skip s) = true ->
    contains new (replace_from old new skip s) = true.
Proof.
  intros Hold. induction s as [|c s IH]; intros skip H.
  - exfalso. destruct old as [|a old]; [congruence|].
    destruct skip; simpl in H; discriminate.
  - destruct skip as [|k].
    + cbn [drop_chars] in H. cbn [replace_from].
      destruct (startswith old (String c s)) eqn:E.
      * apply contains_startswith, startswith_append.
      * cbn [contains] in H. rewrite E in H. cbn [orb] in H.
        apply contains_cons. apply IH. exact H.
    + cbn [drop_chars] in H. cbn [replace_from]. apply IH. exact H.
Qed.

Lemma contains_replace (old new s : string) :
  old <> EmptyString ->
  contains old s = true -> contains new (replace old new s) = true.
Proof.
  intros Hold H. unfold replace. destruct old as [|a old]; [congruence|].
  apply contains_replace_from; [discriminate|exact H].
Qed.

(** [strip] leaves no white space at either end. *)
Lemma lstrip_head (s : string) (c : ascii) (r : string) :
  lstrip s = String c r -> isspace c = false.
Proof.
  induction s as [|a s IH]; simpl; [discriminate|].
  destruct (isspace a) eqn:E; [exact IH|].
  intros [= <- _]. exact E.
Qed.

Lemma rstrip_head (s : string) (c : ascii) (r : string) :
  rstrip s = String c r -> exists r', s = String c r'.
Proof.
  destruct s as [|a s]; simpl; [discriminate|].
  destruct (rstrip s); [destruct (isspace a); [discriminate|]|];
    intros [= <- _]; eauto.
Qed.

Lemma rstrip_last (s : string) :
  forall (r : string) (c : ascii),
    rstrip s = r +:+ String c EmptyString -> isspace c = false.
Proof.
  induction s as [|a s IH]; intros r c; simpl.
  - destruct r; discriminate.
  - destruct (rstrip s) as [|b t] eqn:E.
    + destruct (isspace a) eqn:Ea.
      * destruct r; discriminate.
      * destruct r as [|d r]; [intros [= <-]; exact Ea|].
        rewrite append_cons. intros [= _ H]. destruct r; discriminate.
    + destruct r as [|d r].
      * change ("" +:+ String c "") with (String c ""). discriminate.
      * rewrite append_cons. intros [= _ H]. apply (IH r c). exact H.
Qed.

Lemma strip_clean (s : string) :
  (forall c r, strip s = String c r -> isspace c = false) /\
  (forall r c, strip s = r +:+ String c EmptyString -> isspace c = false).
Proof.
  unfold strip. split.
  - intros c r H. apply rstrip_head in H as [r' H].
    apply (lstrip_head s c r' H).
  - apply rstrip_last.
Qed.

End PyStrFacts.

Lemma with_scheme_startswith (url : string) :
  PyStr.startswith "http://" (with_scheme url)
  || PyStr.startswith "https://" (with_scheme url) = true.
Proof.
  unfold with_scheme.
  destruct (PyStr.startswith "http://" url || PyStr.startswith "https://" url) eqn:E;
    cbn [negb]; [exact E|].
  rewrite PyStrFacts.startswith_append. reflexivity.
Qed.

(** The colon of the scheme makes the port-separator test pass for
    every address. *)
Lemma with_scheme_colon (url : string) :
  PyStr.contains ":" (with_scheme url) = true.
Proof.
  pose proof (with_scheme_startswith url) as H.
  apply orb_true_iff in H as [H|H];
    apply PyStrFacts.startswith_inv in H as [r ->]; reflexivity.
Qed.

(** The ['/videofeed'] branch is never taken: such an address contains
    ['/video']. *)
Lemma videofeed_contains_video (s : string) :
  PyStr.contains "/videofeed" s = true -> PyStr.contains "/video" s = true.
Proof. apply (PyStrFacts.contains_weaken "/video" "feed"). Qed.

(** C2 (amended).  Normalization strips the surrounding white space
    and puts ['http://'] in front unless the address starts with
    ['http://'] or ['https://'].  Then, in this order: an address that
    contains ['/video'] (and not ['/videofeed']) has each ['/video']
    replaced by ['/shot.jpg']; one that contains ['/shot.jpg'] is kept;
    one that contains ['/stream'] has each ['/stream'] replaced by
    ['/shot.jpg']; any other address gets ['/shot.jpg'] appended unless
    it ends with ['/'], in which case it is kept.  The address
    ["1.2.3.4:8080/video"] becomes ["http://1.2.3.4:8080/shot.jpg"]. *)
Theorem format_ip_webcam_url_spec (raw : string) :
  let u := with_scheme (PyStr.strip raw) in
  ((forall c r, PyStr.strip raw = String c r -> PyStr.isspace c = false) /\
   (forall r c, PyStr.strip raw = r +:+ String c EmptyString -> PyStr.isspace c = false)) /\
  (PyStr.startswith "http://" u || PyStr.startswith "https://" u = true) /\
  (PyStr.contains "/video" u = true -> PyStr.contains "/videofeed" u = false ->
     _format_ip_webcam_url raw = PyStr.replace "/video" "/shot.jpg" u /\
     PyStr.contains "/shot.jpg" (_format_ip_webcam_url raw) = true) /\
  (PyStr.contains "/video" u = false -> PyStr.contains "/shot.jpg" u = true ->
     _format_ip_webcam_url raw = u) /\
  (PyStr.contains "/video" u = false -> PyStr.contains "/shot.jpg" u = false ->
   PyStr.contains "/stream" u = true ->
     _format_ip_webcam_url raw = PyStr.replace "/stream" "/shot.jpg" u /\
     PyStr.contains "/shot.jpg" (_format_ip_webcam_url raw) = true) /\
  (PyStr.contains "/video" u = false -> PyStr.contains "/shot.jpg" u = false ->
   PyStr.contains "/stream" u = false -> PyStr.endswith "/" u = false ->
     _format_ip_webcam_url raw = u +:+ "/shot.jpg" /\
     PyStr.endswith "/shot.jpg" (_format_ip_webcam_url raw) = true) /\
  (PyStr.contains "/video" u = false -> PyStr.contains "/shot.jpg" u = false ->
   PyStr.contains "/stream" u = false -> PyStr.endswith "/" u = true ->
     _format_ip_webcam_url raw = u) /\
  (_format_ip_webcam_url "1.2.3.4:8080/video" = "http://1.2.3.4:8080/shot.jpg" /\
   PyStr.endswith "/shot.jpg" (_format_ip_webcam_url "1.2.3.4:8080/video") = true).
Proof.
  intros u.
  assert (Hfmt : _format_ip_webcam_url raw =
    if PyStr.contains "/video" u then PyStr.replace "/video" "/shot.jpg" u
    else if PyStr.contains "/shot.jpg" u then u
    else if PyStr.contains "/videofeed" u then PyStr.replace "/videofeed" "/shot.jpg" u
    else if PyStr.contains "/stream" u then PyStr.replace "/stream" "/shot.jpg" u
    else if PyStr.contains ":" u && negb (PyStr.endswith "/" u) then u +:+ "/shot.jpg"
    else u) by reflexivity.
  assert (Hfeed : PyStr.contains "/video" u = false ->
                  PyStr.contains "/videofeed" u = false).
  { intros Hv. destruct (PyStr.contains "/videofeed" u) eqn:E; [|reflexivity].
    apply videofeed_contains_video in E. congruence. }
  split; [apply PyStrFacts.strip_clean|].
  split; [apply with_scheme_startswith|].
  split; [|split; [|split; [|split; [|split]]]].
  - intros Hv _. rewrite Hfmt, Hv. split; [reflexivity|].
    apply PyStrFacts.contains_replace; [discriminate|exact Hv].
  - intros Hv Hs. rewrite Hfmt, Hv, Hs. reflexivity.
  - intros Hv Hs Hst. rewrite Hfmt, Hv, Hs, (Hfeed Hv), Hst. split; [reflexivity|].
    apply PyStrFacts.contains_replace; [discriminate|exact Hst].
  - intros Hv Hs Hst He.
    assert (Hc : PyStr.contains ":" u = true) by apply with_scheme_colon.
    rewrite Hfmt, Hv, Hs, (Hfeed Hv), Hst, He, Hc. cbn [andb negb].
    split; [reflexivity|]. apply PyStrFacts.endswith_append.
  - intros Hv Hs Hst He.
    rewrite Hfmt, Hv, Hs, (Hfeed Hv), Hst, He.
    rewrite andb_false_r. reflexivity.
  - split; reflexivity.
Qed.

Lemma format_ip_webcam_url_spec_witness :
  _format_ip_webcam_url "  192.168.1.100:8080/video " =
    PyStr.replace "/video" "/shot.jpg" "http://192.168.1.100:8080/video" /\
  _format_ip_webcam_url "https://cam.local/shot.jpg" = "https://cam.local/shot.jpg" /\
  _format_ip_webcam_url "192.168.1.100:8080/stream" =
    PyStr.replace "/stream" "/shot.jpg" "http://192.168.1.100:8080/stream" /\
  _format_ip_webcam_url "192.168.1.100:8080/mjpeg" = "http://192.168.1.100:8080/mjpeg/shot.jpg" /\
  _format_ip_webcam_url "192.168.1.100:8080/" = "http://192.168.1.100:8080/".
Proof.
  split; [|split; [|split; [|split]]].
  - destruct (format_ip_webcam_url_spec "  192.168.1.100:8080/video ")
      as (_ & _ & H & _).
    apply H; vm_compute; reflexivity.
  - destruct (format_ip_webcam_url_spec "https://cam.local/shot.jpg")
      as (_ & _ & _ & H & _).
    apply H; vm_compute; reflexivity.
  - destruct (format_ip_webcam_url_spec "192.168.1.100:8080/stream")
      as (_ & _ & _ & _ & H & _).
    apply H; vm_compute; reflexivity.
  - destruct (format_ip_webcam_url_spec "192.168.1.100:8080/mjpeg")
      as (_ & _ & _ & _ & _ & H & _).
    apply H; vm_compute; reflexivity.
  - destruct (format_ip_webcam_url_spec "192.168.1.100:8080/")
      as (_ & _ & _ & _ & _ & _ & H & _).
    apply H; vm_compute; reflexivity.
Defined.

(** C2, as stated, fails on an address that ends with ['/']: it has no
    recognized suffix and contains a port separator, yet nothing is
    appended. *)
Lemma format_ip_webcam_url_counterexample :
  let raw := "1.2.3.4:8080/" in
  PyStr.contains ":" raw = true /\
  PyStr.contains "/video" raw = false /\
  PyStr.contains "/shot.jpg" raw = false /\
  PyStr.contains "/videofeed" raw = false /\
  PyStr.contains "/stream" raw = false /\
  _format_ip_webcam_url raw = "http://1.2.3.4:8080/" /\
  PyStr.endswith "/shot.jpg" (_format_ip_webcam_url raw) = false.
Proof. vm_compute. repeat split. Qed.

(** On an address with ['/videofeed'] the first test already fires and
    leaves the rest of the word in place. *)
Example format_ip_webcam_url_videofeed :
  _format_ip_webcam_url "http://192.168.1.100:8080/videofeed" =
    "http://192.168.1.100:8080/shot.jpgfeed".
Proof. reflexivity. Qed.

(** ** The acquisition loop and the manager *)

Section Acquisition.

Context {Frame : Type}.

(** Polling changes nothing to a read that gave a frame or none. *)
Lemma read_outcome_none (s : @CameraStream Frame) :
  read_outcome s ReadNone = ReadNone.
Proof. unfold read_outcome. destruct (_ && _); reflexivity. Qed.

Lemma read_outcome_ok (s : @CameraStream Frame) (f : Frame)
    (resized : result Frame) (t_store t_fps : Q) :
  read_outcome s (ReadOk f resized t_store t_fps) = ReadOk f resized t_store t_fps.
Proof. unfold read_outcome. destruct (_ && _); reflexivity. Qed.

(** A raising read is a failed read for a stream that polls, and a
    raise for the others. *)
Lemma read_outcome_raise (s : @CameraStream Frame) (e : exn) (reopened : bool) :
  (String.eqb (camera_type s) "url" && has_shot_jpg_url s = true /\
   read_outcome s (ReadRaise e reopened) = ReadNone) \/
  (String.eqb (camera_type s) "url" && has_shot_jpg_url s = false /\
   read_outcome s (ReadRaise e reopened) = ReadRaise e reopened).
Proof. unfold read_outcome. destruct (_ && _); auto. Qed.

Lemma update_loop_nil (s : @CameraStream Frame) (c : Z) :
  update_loop s c [] = if stopped s then (s, Terminated) else (s, Running c).
Proof. reflexivity. Qed.

(** The loop only reports [Running] on a stream that is not stopped. *)
Lemma update_loop_running (outcomes : list (@Outcome Frame)) :
  forall s c s' c',
    update_loop s c outcomes = (s', Running c') -> stopped s' = false.
Proof.
  induction outcomes as [|o rest IH]; intros s c s' c'; simpl.
  - destruct (stopped s) eqn:E; [discriminate|]. intros [= <- _]. exact E.
  - destruct (stopped s); [discriminate|].
    destruct (update_body s c o) as [s1 [n|]]; [apply IH|discriminate].
Qed.

(** Outcomes met after the loop has left are not consumed; before
    that, the loop goes on from where it is. *)
Lemma update_loop_app (pre rest : list (@Outcome Frame)) :
  forall s c s' c',
    update_loop s c pre = (s', Running c') ->
    update_loop s c (pre ++ rest) = update_loop s' c' rest.
Proof.
  induction pre as [|o pre IH]; intros s c s' c'; simpl.
  - destruct (stopped s) eqn:E; [discriminate|]. intros [= <- <-].
    destruct rest; simpl; rewrite E; reflexivity.
  - destruct (stopped s); [discriminate|].
    destruct (update_body s c o) as [s1 [n|]]; [apply IH|discriminate].
Qed.

(** With the counter at [c], [10 - c] read failures in a row end the
    loop and leave the stream as it was. *)
Lemma update_loop_read_failures (k : nat) :
  forall (s : @CameraStream Frame) (c : Z) (rest : list Outcome),
    (1 <= k)%nat -> 0 <= c -> c + Z.of_nat k = 10 ->
    update_loop s c (repeat ReadNone k ++ rest) = (s, Terminated).
Proof.
  induction k as [|k IH]; intros s c rest Hk Hc Hsum; [lia|].
  cbn [repeat app update_loop].
  destruct (stopped s) eqn:Hs; [reflexivity|].
  unfold update_body. rewrite read_outcome_none.
  destruct (cap_is_open s); cbn [negb]; [|reflexivity].
  unfold max_consecutive_errors.
  destruct (Z.leb_spec (c + 1) 3) as [H3|H3].
  - apply IH; lia.
  - destruct (Z.eqb_spec (c + 1) 10) as [H10|H10]; [reflexivity|].
    apply IH; lia.
Qed.

Lemma update_ten_failures (s s' : @CameraStream Frame) (pre rest : list Outcome) :
  _update s pre = (s', Running 0) ->
  _update s (pre ++ repeat ReadNone 10 ++ rest) = (s', Terminated).
Proof.
  unfold _update. intros H.
  rewrite (update_loop_app pre _ s 0 s' 0 H).
  apply update_loop_read_failures; lia.
Qed.

(** Fewer than ten failures in a row do not end the loop. *)
Lemma update_loop_few_failures (k : nat) :
  forall (s : @CameraStream Frame) (c : Z),
    stopped s = false -> cap_is_open s = true ->
    0 <= c -> c + Z.of_nat k <= 9 ->
    update_loop s c (repeat ReadNone k) = (s, Running (c + Z.of_nat k)).
Proof.
  induction k as [|k IH]; intros s c Hs Hc H0 H9.
  - cbn [repeat update_loop]. rewrite Hs, Z.add_0_r. reflexivity.
  - cbn [repeat update_loop]. rewrite Hs. unfold update_body.
    rewrite read_outcome_none, Hc.
    cbn [negb]. unfold max_consecutive_errors.
    replace (c + Z.of_nat (S k)) with (c + 1 + Z.of_nat k) by lia.
    destruct (Z.leb_spec (c + 1) 3) as [H3|H3]; [apply IH; auto; lia|].
    destruct (Z.eqb_spec (c + 1) 10) as [H10|H10]; [lia|].
    apply IH; auto; lia.
Qed.

Lemma update_nine_failures (s : @CameraStream Frame) :
  stopped s = false -> cap_is_open s = true ->
  _update s (repeat ReadNone 9) = (s, Running 9).
Proof.
  intros Hs Hc. apply (update_loop_few_failures 9 s 0 Hs Hc); lia.
Qed.

(** C3 (amended).  Ten read failures in a row, met with the failure
    count at zero, end the acquisition loop, and they end it at the
    tenth: on an open capture the loop is still running, with [j]
    failures counted, after each of the first nine.  The loop touches neither
    the [stopped] flag nor the stored frame on its way out, so the
    health snapshot still reports [running = true] for that source, and
    [get_frames] returns for its slot the last frame stored ([None]
    only if none was), as a plain read of the stored value. *)
Theorem acquisition_failure_snapshot (m : @CameraManager Frame) (k : string)
    (s s' : CameraStream) (pre rest : list Outcome) :
  cameras m !! k = Some (Some s) ->
  _update s pre = (s', Running 0) ->
  let outcomes := pre ++ repeat ReadNone 10 ++ rest in
  let m' := fst (run_acquisition k outcomes m) in
  snd (run_acquisition k outcomes m) = Some Terminated /\
  cameras m' !! k = Some (Some s') /\
  info_running <$> (get_camera_info m' !! k) = Some true /\
  (running m = true -> k = "camera1" ->
   forall c2, cameras m !! "camera2" = Some c2 ->
     get_frames m' = Ok (frame s', c2 ≫= get_frame)) /\
  (running m = true -> k = "camera2" ->
   forall c1, cameras m !! "camera1" = Some c1 ->
     get_frames m' = Ok (c1 ≫= get_frame, frame s')) /\
  (cap_is_open s' = true ->
   forall j, (j <= 9)%nat ->
     _update s (pre ++ repeat ReadNone j) = (s', Running (Z.of_nat j)) /\
     snd (run_acquisition k (pre ++ repeat ReadNone j) m) =
       Some (Running (Z.of_nat j))).
Proof.
  intros Hk Hpre outcomes m'.
  pose proof (update_ten_failures s s' pre rest Hpre) as Hrun.
  assert (Hstopped : stopped s' = false)
    by (eapply update_loop_running; exact Hpre).
  assert (Hnine : cap_is_open s' = true ->
            forall j, (j <= 9)%nat ->
              _update s (pre ++ repeat ReadNone j) = (s', Running (Z.of_nat j)) /\
              snd (run_acquisition k (pre ++ repeat ReadNone j) m) =
                Some (Running (Z.of_nat j))).
  { intros Hcap j Hj.
    assert (Hj' : _update s (pre ++ repeat ReadNone j) = (s', Running (Z.of_nat j))).
    { unfold _update in *. rewrite (update_loop_app pre _ s 0 s' 0 Hpre).
      apply (update_loop_few_failures j s' 0 Hstopped Hcap); lia. }
    split; [exact Hj'|].
    unfold run_acquisition. rewrite Hk, Hj'. reflexivity. }
  assert (Hm' : run_acquisition k outcomes m =
                (mkCameraManager (<[k := Some s']> (cameras m)) (running m),
                 Some Terminated)).
  { unfold run_acquisition. rewrite Hk. subst outcomes. rewrite Hrun. reflexivity. }
  subst m'. rewrite Hm'. cbn [fst snd].
  split; [reflexivity|].
  split; [cbn [cameras]; apply lookup_insert_eq|].
  split.
  { unfold get_camera_info. cbn [cameras].
    rewrite lookup_fmap, lookup_insert_eq. cbn. rewrite Hstopped. reflexivity. }
  split; [|split; [|exact Hnine]].
  - intros Hr -> c2 Hc2. unfold get_frames, cameras_item. cbn [running cameras].
    rewrite Hr. cbn [negb]. rewrite lookup_insert_eq. cbn [rbind].
    rewrite lookup_insert_ne by discriminate. rewrite Hc2. cbn [rbind].
    destruct c2; reflexivity.
  - intros Hr -> c1 Hc1. unfold get_frames, cameras_item. cbn [running cameras].
    rewrite Hr. cbn [negb]. rewrite lookup_insert_ne by discriminate.
    rewrite Hc1. cbn [rbind]. rewrite lookup_insert_eq. cbn [rbind].
    destruct c1; reflexivity.
Qed.

(** C10.  With [running] false, [get_frames] returns [(None, None)]
    without looking at [cameras], hence without raising: this is so on
    a new manager, after [stop_all] (which empties [cameras]), and
    after an [initialize_cameras] that failed on a manager that was not
    running. *)
Theorem get_frames_not_running (m : @CameraManager Frame) :
  (running m = false -> get_frames m = Ok (None, None)) /\
  get_frames (@new_CameraManager Frame) = Ok (None, None) /\
  (cameras (stop_all m) = ∅ /\ running (stop_all m) = false /\
   get_frames (stop_all m) = Ok (None, None)) /\
  (forall w c1 c2,
     running m = false ->
     snd (initialize_cameras w c1 c2 m) = false ->
     get_frames (fst (initialize_cameras w c1 c2 m)) = Ok (None, None)).
Proof.
  split; [|split; [|split]].
  - intros H. unfold get_frames. rewrite H. reflexivity.
  - reflexivity.
  - repeat split.
  - intros w c1 c2 Hr. unfold initialize_cameras.
    destruct (cfg_enabled c1).
    + destruct (start w (make_stream c1)) as [s1 [|]].
      * destruct (cfg_enabled c2).
        -- destruct (start w (make_stream c2)) as [s2 [|]]; cbn [fst snd];
             [discriminate|].
           intros _. unfold get_frames. rewrite Hr. reflexivity.
        -- cbn [fst snd]. discriminate.
      * cbn [fst snd]. intros _. unfold get_frames. rewrite Hr. reflexivity.
    + destruct (cfg_enabled c2).
      * destruct (start w (make_stream c2)) as [s2 [|]]; cbn [fst snd];
          [discriminate|].
        intros _. unfold get_frames. rewrite Hr. reflexivity.
      * cbn [fst snd]. discriminate.
Qed.

End Acquisition.

Lemma acquisition_failure_snapshot_witness :
  let r := run_acquisition "camera1" demo_outcomes demo_manager in
  snd r = Some Terminated /\
  info_running <$> (get_camera_info (fst r) !! "camera1") = Some true /\
  get_frames (fst r) = Ok (Some 6%nat, None) /\
  snd (run_acquisition "camera1"
         ([ReadOk 5%nat (Ok 6%nat) 0 0] ++ repeat ReadNone 9) demo_manager) =
    Some (Running 9).
Proof.
  intros r.
  destruct (acquisition_failure_snapshot demo_manager "camera1"
              (set_thread_started true (set_cap (Some true)
                 (new_CameraStream "0" "Camera 1" "device")))
              (set_frame 6%nat 0
                 (set_fps_counter 1
                    (set_thread_started true (set_cap (Some true)
                       (new_CameraStream "0" "Camera 1" "device")))))
              [ReadOk 5%nat (Ok 6%nat) 0 0] [ReadNone] eq_refl eq_refl)
    as (Hterm & _ & Hinfo & Hframes & _ & Hnine).
  split; [exact Hterm|]. split; [exact Hinfo|].
  split; [exact (Hframes eq_refl eq_refl None eq_refl)|].
  exact (proj2 (Hnine eq_refl 9%nat (le_n 9))).
Defined.

(** C3, as stated, fails: after a frame was stored and eleven reads
    failed in a row the loop has ended, yet the snapshot does not
    report [running = false] and the slot is not [None]. *)
Lemma acquisition_failure_counterexample :
  let r := run_acquisition "camera1" demo_outcomes demo_manager in
  snd r = Some Terminated /\
  info_running <$> (get_camera_info (fst r) !! "camera1") <> Some false /\
  (forall f2, get_frames (fst r) <> Ok (None, f2)).
Proof.
  intros r. split; [reflexivity|]. split.
  - vm_compute. discriminate.
  - intros f2. vm_compute. discriminate.
Qed.

Lemma get_frames_not_running_witness :
  get_frames (mkCameraManager (∅ : gmap string (option (@CameraStream nat))) false)
    = Ok (None, None) /\
  get_frames (fst (initialize_cameras dead_world demo_config1 demo_config2
                     (@new_CameraManager nat))) = Ok (None, None).
Proof.
  split.
  - exact (proj1 (get_frames_not_running (mkCameraManager ∅ false)) eq_refl).
  - exact (proj2 (proj2 (proj2 (get_frames_not_running (@new_CameraManager nat))))
             dead_world demo_config1 demo_config2 eq_refl eq_refl).
Defined.

(** The guard is what keeps a stopped manager from raising: with the
    flag set and [cameras] empty the first lookup fails. *)
Example get_frames_without_guard :
  get_frames (mkCameraManager (∅ : gmap string (option (@CameraStream nat))) true)
    = Raise KeyError.
Proof. reflexivity. Qed.

(** * Further properties *)

(** ** The acquisition loop *)

Section LoopInvariants.

Context {Frame : Type}.

Lemma same_settings_refl (s : @CameraStream Frame) : same_settings s s.
Proof. repeat split. Qed.

Lemma same_settings_trans (s1 s2 s3 : @CameraStream Frame) :
  same_settings s1 s2 -> same_settings s2 s3 -> same_settings s1 s3.
Proof.
  unfold same_settings. intros (?&?&?&?&?&?&?) (?&?&?&?&?&?&?).
  repeat split; congruence.
Qed.

Lemma handle_raise_settings (s : @CameraStream Frame) (c : Z) (e : exn)
    (reopened : bool) :
  same_settings s (fst (handle_raise s c e reopened)).
Proof.
  unfold handle_raise, _switch_to_shot_jpg_mode, has_shot_jpg_url.
  destruct e; try (destruct (_ <=? _); apply same_settings_refl).
  destruct (mjpeg_related msg); cbn [_mjpeg_error_count _max_mjpeg_errors
    set_mjpeg_error_count _shot_jpg_url];
    [|destruct (_ <=? _); apply same_settings_refl].
  destruct (_ <=? _); cbn [andb];
    [|destruct (_ <=? _); repeat split].
  destruct (_shot_jpg_url s) as [u|] eqn:Hu; cbn [negb];
    [|destruct (_ <=? _); repeat split].
  destruct (String.eqb u ""); cbn [negb];
    [destruct (_ <=? _); repeat split|].
  destruct reopened; destruct (_ <=? _); repeat split.
Qed.

Lemma store_frame_settings (s : @CameraStream Frame) (resized : result Frame)
    (t_store t_fps : Q) :
  same_settings s (fst (store_frame s resized t_store t_fps)).
Proof.
  unfold store_frame. destruct resized as [f|e]; [|apply same_settings_refl].
  destruct (_ =? 0); [|repeat split].
  destruct (truediv _ _); repeat split.
Qed.

Lemma update_body_settings (s : @CameraStream Frame) (c : Z) (o : Outcome) :
  same_settings s (fst (update_body s c o)).
Proof.
  unfold update_body. destruct (cap_is_open s); cbn [negb];
    [|apply same_settings_refl].
  destruct (read_outcome s o) as [f resized t1 t2| |e reopened].
  - pose proof (store_frame_settings s resized t1 t2) as H.
    destruct (store_frame s resized t1 t2) as [s1 [e|]]; cbn [fst] in *; [|exact H].
    eapply same_settings_trans; [exact H|apply handle_raise_settings].
  - destruct (_ <=? 3); [apply same_settings_refl|].
    destruct (_ =? _); apply same_settings_refl.
  - apply handle_raise_settings.
Qed.

Lemma update_loop_settings (outcomes : list (@Outcome Frame)) :
  forall s c, same_settings s (fst (update_loop s c outcomes)).
Proof.
  induction outcomes as [|o rest IH]; intros s c; simpl.
  - destruct (stopped s); apply same_settings_refl.
  - destruct (stopped s); [apply same_settings_refl|].
    pose proof (update_body_settings s c o) as H.
    destruct (update_body s c o) as [s1 [n|]]; cbn [fst] in *; [|exact H].
    eapply same_settings_trans; [exact H|apply IH].
Qed.

(** X1.  Whatever the acquisition loop meets, it leaves the stop flag,
    the source, the type, the name, the single-image address and the
    MJPEG error limit of its stream as they were. *)
Theorem update_keeps_settings (s : @CameraStream Frame) (outcomes : list Outcome) :
  let s' := fst (_update s outcomes) in
  stopped s' = stopped s /\
  camera_source s' = camera_source s /\
  camera_type s' = camera_type s /\
  name s' = name s /\
  thread_started s' = thread_started s /\
  _shot_jpg_url s' = _shot_jpg_url s /\
  _max_mjpeg_errors s' = _max_mjpeg_errors s.
Proof. apply (update_loop_settings outcomes s 0). Qed.

Lemma handle_raise_counter (s s' : @CameraStream Frame) (c n : Z) (e : exn)
    (reopened : bool) :
  0 <= c -> handle_raise s c e reopened = (s', Running n) -> 0 <= n <= 9.
Proof.
  intros Hc. unfold handle_raise, max_consecutive_errors.
  destruct e;
    try (destruct (Z.leb_spec 10 (c + 1)); intros [= _ <-]; lia).
  destruct (mjpeg_related msg);
    [|destruct (Z.leb_spec 10 (c + 1)); intros [= _ <-]; lia].
  destruct (_ && _);
    [|destruct (Z.leb_spec 10 (c + 1)); intros [= _ <-]; lia].
  destruct (_switch_to_shot_jpg_mode _ _) as [s1 [|]].
  - cbn. intros [= _ <-]. lia.
  - destruct (Z.leb_spec 10 (c + 1)); intros [= _ <-]; lia.
Qed.

Lemma update_body_counter (s s' : @CameraStream Frame) (c n : Z) (o : Outcome) :
  0 <= c <= 9 -> update_body s c o = (s', Running n) -> 0 <= n <= 9.
Proof.
  intros Hc. unfold update_body, max_consecutive_errors.
  destruct (cap_is_open s); cbn [negb]; [|discriminate].
  destruct (read_outcome s o) as [f resized t1 t2| |e reopened].
  - destruct (store_frame s resized t1 t2) as [s1 [e|]].
    + apply handle_raise_counter. lia.
    + intros [= _ <-]. lia.
  - destruct (Z.leb_spec (c + 1) 3); [intros [= _ <-]; lia|].
    destruct (Z.eqb_spec (c + 1) 10); [discriminate|].
    intros [= _ <-]. lia.
  - apply handle_raise_counter. lia.
Qed.

Lemma update_loop_counter (outcomes : list (@Outcome Frame)) :
  forall s c s' n,
    0 <= c <= 9 -> update_loop s c outcomes = (s', Running n) -> 0 <= n <= 9.
Proof.
  induction outcomes as [|o rest IH]; intros s c s' n Hc; simpl.
  - destruct (stopped s); [discriminate|]. intros [= _ <-]. exact Hc.
  - destruct (stopped s); [discriminate|].
    destruct (update_body s c o) as [s1 [m|]] eqn:Hb; [|discriminate].
    apply IH. eapply update_body_counter; eassumption.
Qed.

(** X2.  While the acquisition loop runs, its count of consecutive
    errors stays between 0 and 9: the loop is never left running with
    ten errors counted. *)
Theorem update_counter_bound (s s' : @CameraStream Frame)
    (outcomes : list Outcome) (n : Z) :
  _update s outcomes = (s', Running n) -> 0 <= n <= 9.
Proof. apply update_loop_counter. lia. Qed.

Lemma handle_raise_frame (s : @CameraStream Frame) (c : Z) (e : exn)
    (reopened : bool) :
  frame (fst (handle_raise s c e reopened)) = frame s /\
  fps_counter (fst (handle_raise s c e reopened)) = fps_counter s.
Proof.
  unfold handle_raise, _switch_to_shot_jpg_mode.
  destruct e; try (destruct (_ <=? _); split; reflexivity).
  destruct (mjpeg_related msg); [|destruct (_ <=? _); split; reflexivity].
  destruct (_ && _); [|destruct (_ <=? _); split; reflexivity].
  destruct (negb _); [destruct (_ <=? _); split; reflexivity|].
  destruct reopened; destruct (_ <=? _); split; reflexivity.
Qed.

Lemma store_frame_frame (s : @CameraStream Frame) (resized : result Frame)
    (t_store t_fps : Q) :
  let s' := fst (store_frame s resized t_store t_fps) in
  frame s' = match resized with Ok g => Some g | Raise _ => frame s end /\
  fps_counter s' =
    match resized with Ok _ => fps_counter s + 1 | Raise _ => fps_counter s end.
Proof.
  unfold store_frame. destruct resized as [g|e]; [|split; reflexivity].
  destruct (_ =? 0); [|split; reflexivity].
  destruct (truediv _ _); split; reflexivity.
Qed.

(** One pass that leaves the loop running has stored the frame it
    read and resized, and nothing else. *)
Lemma update_body_frame (s s' : @CameraStream Frame) (c n : Z) (o : Outcome) :
  update_body s c o = (s', Running n) ->
  frame s' = last_resized [o] (frame s) /\
  fps_counter s' = fps_counter s + count_resized [o].
Proof.
  assert (Hnone : forall o', last_resized [o'] (frame s) = frame s ->
            count_resized [o'] = 0 ->
            (if c + 1 <=? 3 then (s, Running (c + 1))
             else if c + 1 =? max_consecutive_errors then (s, Terminated)
             else (s, Running (c + 1))) = (s', Running n) ->
            frame s' = last_resized [o'] (frame s) /\
            fps_counter s' = fps_counter s + count_resized [o']).
  { intros o' Hl Hk. rewrite Hl, Hk.
    destruct (_ <=? 3); [intros [= <- _]; split; [reflexivity|lia]|].
    destruct (_ =? _); [discriminate|].
    intros [= <- _]; split; [reflexivity|lia]. }
  unfold update_body. destruct (cap_is_open s); cbn [negb]; [|discriminate].
  destruct o as [f resized t1 t2| |e reopened].
  - rewrite read_outcome_ok.
    pose proof (store_frame_frame s resized t1 t2) as [Hf Hn].
    destruct (store_frame s resized t1 t2) as [s1 [e|]]; cbn [fst] in *.
    + pose proof (handle_raise_frame s1 0 e false) as [Hf' Hn'].
      destruct (handle_raise s1 0 e false) as [s2 st]. cbn [fst] in *.
      intros [= <- _]. rewrite Hf', Hn', Hf, Hn.
      destruct resized; simpl; split; try reflexivity; lia.
    + intros [= <- _]. rewrite Hf, Hn.
      destruct resized; simpl; split; try reflexivity; lia.
  - rewrite read_outcome_none. apply Hnone; reflexivity.
  - destruct (read_outcome_raise s e reopened) as [[_ ->]|[_ ->]].
    + apply Hnone; reflexivity.
    + pose proof (handle_raise_frame s c e reopened) as [Hf Hn].
      destruct (handle_raise s c e reopened) as [s2 st]. cbn [fst] in *.
      intros [= <- _]. simpl. split; [exact Hf|lia].
Qed.

Lemma last_resized_cons (o : @Outcome Frame) (rest : list Outcome)
    (prev : option Frame) :
  last_resized (o :: rest) prev = last_resized rest (last_resized [o] prev).
Proof. destruct o as [f [g|e] t1 t2| |e r]; reflexivity. Qed.

Lemma count_resized_cons (o : @Outcome Frame) (rest : list Outcome) :
  count_resized (o :: rest) = count_resized [o] + count_resized rest.
Proof. destruct o as [f [g|e] t1 t2| |e r]; simpl; lia. Qed.

Lemma update_loop_frames (outcomes : list (@Outcome Frame)) :
  forall s c s' n,
    update_loop s c outcomes = (s', Running n) ->
    frame s' = last_resized outcomes (frame s) /\
    fps_counter s' = fps_counter s + count_resized outcomes.
Proof.
  induction outcomes as [|o rest IH]; intros s c s' n.
  - simpl. destruct (stopped s); [discriminate|].
    intros [= <- _]. split; [reflexivity|lia].
  - cbn [update_loop]. destruct (stopped s); [discriminate|].
    destruct (update_body s c o) as [s1 [m|]] eqn:Hb; [|discriminate].
    intros Hrun. apply IH in Hrun as [Hf Hn].
    apply update_body_frame in Hb as [Hf1 Hn1].
    rewrite last_resized_cons, count_resized_cons, Hf, Hn, Hf1, Hn1.
    split; [reflexivity|lia].
Qed.

(** X3.  As long as the loop runs, [get_frame] gives the frame of the
    last read that was also resized (the frame held before, when
    there was none), and the frame counter has grown by the number of
    such reads. *)
Theorem update_stores_latest_frame (s s' : @CameraStream Frame)
    (outcomes : list Outcome) (n : Z) :
  _update s outcomes = (s', Running n) ->
  get_frame s' = last_resized outcomes (get_frame s) /\
  fps_counter s' = fps_counter s + count_resized outcomes.
Proof. apply update_loop_frames. Qed.

Lemma update_body_keeps_frame (s : @CameraStream Frame) (c : Z) (o : Outcome) :
  is_Some (frame s) -> is_Some (frame (fst (update_body s c o))).
Proof.
  intros Hs. unfold update_body. destruct (cap_is_open s); cbn [negb]; [|exact Hs].
  destruct (read_outcome s o) as [f resized t1 t2| |e reopened].
  - pose proof (store_frame_frame s resized t1 t2) as [Hf _].
    destruct (store_frame s resized t1 t2) as [s1 [e|]]; cbn [fst] in *.
    + pose proof (handle_raise_frame s1 0 e false) as [Hf' _].
      rewrite Hf', Hf. destruct resized; [eauto|exact Hs].
    + rewrite Hf. destruct resized; [eauto|exact Hs].
  - destruct (_ <=? 3); [exact Hs|]. destruct (_ =? _); exact Hs.
  - pose proof (handle_raise_frame s c e reopened) as [Hf _].
    rewrite Hf. exact Hs.
Qed.

(** X4.  The loop never clears the stored frame: once a stream holds a
    frame, [get_frame] keeps returning one, however the loop goes on
    and however it ends. *)
Theorem update_never_clears_frame (s : @CameraStream Frame)
    (outcomes : list Outcome) :
  is_Some (get_frame s) -> is_Some (get_frame (fst (_update s outcomes))).
Proof.
  unfold _update, get_frame. generalize 0.
  revert s. induction outcomes as [|o rest IH]; intros s c Hs; simpl.
  - destruct (stopped s); exact Hs.
  - destruct (stopped s); [exact Hs|].
    pose proof (update_body_keeps_frame s c o Hs) as H.
    destruct (update_body s c o) as [s1 [m|]]; cbn [fst] in *; [|exact H].
    apply IH. exact H.
Qed.

End LoopInvariants.

Section LoopRecovery.

Context {Frame : Type}.

(** [stop] is idempotent; a stopped stream keeps the frame it
    held, and its loop ends at once without using any outcome. *)
Lemma stop_is_final (s : @CameraStream Frame) (outcomes : list Outcome) :
  stop (stop s) = stop s /\
  stopped (stop s) = true /\
  get_frame (stop s) = get_frame s /\
  _update (stop s) outcomes = (stop s, Terminated).
Proof.
  repeat split. unfold _update. destruct outcomes; reflexivity.
Qed.

Lemma open_url_camera_stopped (w : World) (s : @CameraStream Frame) (url : string) :
  stopped (fst (_open_url_camera w s url)) = stopped s /\
  camera_source (fst (_open_url_camera w s url)) = camera_source s /\
  camera_type (fst (_open_url_camera w s url)) = camera_type s.
Proof.
  unfold _open_url_camera.
  repeat (destruct (_ && _) || destruct (open_url w _ _)
          || destruct (PyStr.contains "/video" _)); repeat split.
Qed.

Lemma start_stopped (w : World) (s : @CameraStream Frame) :
  stopped (fst (start w s)) = stopped s /\
  camera_source (fst (start w s)) = camera_source s /\
  camera_type (fst (start w s)) = camera_type s.
Proof.
  unfold start. destruct (String.eqb (camera_type s) "device").
  - destruct (open_device w (camera_source s)) as [[|]|e]; repeat split.
  - pose proof (open_url_camera_stopped w s (_format_ip_webcam_url (camera_source s)))
      as (H1 & H2 & H3).
    destruct (_open_url_camera w s _) as [s1 opened]. cbn [fst] in *.
    destruct (_ && _); destruct opened; cbn; auto.
Qed.

(** The loop of a stream whose stop flag is set does nothing. *)
Lemma update_stopped (s : @CameraStream Frame) (outcomes : list Outcome) :
  stopped s = true -> _update s outcomes = (s, Terminated).
Proof.
  intros H. unfold _update. destruct outcomes; simpl; rewrite H; reflexivity.
Qed.

Lemma reconnect_loop_stopped (w : nat -> World) (urls : list string) :
  forall i (s : @CameraStream Frame),
    stopped s = true \/ urls <> [] ->
    stopped (fst (fst (reconnect_loop w i urls s))) = true.
Proof.
  induction urls as [|url rest IH]; intros i s Hs.
  - destruct Hs as [Hs|Hs]; [exact Hs|congruence].
  - cbn [reconnect_loop].
    pose proof (start_stopped (w i) (set_camera_source url (stop s))) as (H & _).
    destruct (start (w i) (set_camera_source url (stop s))) as [s1 [|]];
      cbn [fst] in *; [exact H|].
    apply IH. left. exact H.
Qed.

Lemma restart_stopped (w0 : World) (s0 : @CameraStream Frame) :
  stopped (fst (restart w0 s0)) = true.
Proof.
  unfold restart. destruct (start_stopped w0 (stop s0)) as (H & _).
  rewrite H. reflexivity.
Qed.

Lemma reconnect_stopped (w : nat -> World) (s : @CameraStream Frame) :
  stopped (fst (reconnect w s)) = true.
Proof.
  unfold reconnect.
  destruct (String.eqb (camera_type s) "url"); cbn [negb];
    [|apply restart_stopped].
  assert (Hne : reconnect_urls (camera_source s) <> [])
    by (unfold reconnect_urls; discriminate).
  pose proof (reconnect_loop_stopped w (reconnect_urls (camera_source s)) 0 s
                (or_intror Hne)) as H.
  destruct (reconnect_loop w 0 (reconnect_urls (camera_source s)) s)
    as [[s1 ok] i].
  destruct ok; [exact H|apply restart_stopped].
Qed.

(** X6.  [restart] and [reconnect] stop the stream and start it again,
    and nothing sets the stop flag back: even when they report
    success, the stream is still marked stopped and the loop they
    launched ends at once, without reading a frame. *)
Theorem restart_leaves_stream_stopped (w : nat -> World) (s : @CameraStream Frame)
    (outcomes : list Outcome) :
  (stopped (fst (restart (w 0%nat) s)) = true /\
   _update (fst (restart (w 0%nat) s)) outcomes =
     (fst (restart (w 0%nat) s), Terminated)) /\
  (stopped (fst (reconnect w s)) = true /\
   _update (fst (reconnect w s)) outcomes = (fst (reconnect w s), Terminated)).
Proof.
  split; split.
  - apply restart_stopped.
  - apply update_stopped, restart_stopped.
  - apply reconnect_stopped.
  - apply update_stopped, reconnect_stopped.
Qed.

End LoopRecovery.

(** ** Normalised addresses *)

Lemma replace_video_keeps_scheme (u : string) :
  PyStr.startswith "http://" u || PyStr.startswith "https://" u = true ->
  PyStr.startswith "http://" (PyStr.replace "/video" "/shot.jpg" u)
  || PyStr.startswith "https://" (PyStr.replace "/video" "/shot.jpg" u) = true.
Proof.
  intros H. apply orb_true_iff in H as [H|H];
    apply PyStrFacts.startswith_inv in H as [r ->].
  - apply orb_true_iff. left.
    change (PyStr.replace "/video" "/shot.jpg" ("http://" +:+ r))
      with ("http:/" +:+ PyStr.replace_from "/video" "/shot.jpg" 0 (String "/" r)).
    cbn [PyStr.replace_from].
    destruct (PyStr.startswith "/video" (String "/" r)); reflexivity.
  - apply orb_true_iff. right.
    change (PyStr.replace "/video" "/shot.jpg" ("https://" +:+ r))
      with ("https:/" +:+ PyStr.replace_from "/video" "/shot.jpg" 0 (String "/" r)).
    cbn [PyStr.replace_from].
    destruct (PyStr.startswith "/video" (String "/" r)); reflexivity.
Qed.

Lemma replace_stream_keeps_scheme (u : string) :
  PyStr.startswith "http://" u || PyStr.startswith "https://" u = true ->
  PyStr.startswith "http://" (PyStr.replace "/stream" "/shot.jpg" u)
  || PyStr.startswith "https://" (PyStr.replace "/stream" "/shot.jpg" u) = true.
Proof.
  intros H. apply orb_true_iff in H as [H|H];
    apply PyStrFacts.startswith_inv in H as [r ->].
  - apply orb_true_iff. left.
    change (PyStr.replace "/stream" "/shot.jpg" ("http://" +:+ r))
      with ("http:/" +:+ PyStr.replace_from "/stream" "/shot.jpg" 0 (String "/" r)).
    cbn [PyStr.replace_from].
    destruct (PyStr.startswith "/stream" (String "/" r)); reflexivity.
  - apply orb_true_iff. right.
    change (PyStr.replace "/stream" "/shot.jpg" ("https://" +:+ r))
      with ("https:/" +:+ PyStr.replace_from "/stream" "/shot.jpg" 0 (String "/" r)).
    cbn [PyStr.replace_from].
    destruct (PyStr.startswith "/stream" (String "/" r)); reflexivity.
Qed.

Lemma append_keeps_scheme (u tail : string) :
  PyStr.startswith "http://" u || PyStr.startswith "https://" u = true ->
  PyStr.startswith "http://" (u +:+ tail)
  || PyStr.startswith "https://" (u +:+ tail) = true.
Proof.
  intros H. apply orb_true_iff in H as [H|H];
    apply PyStrFacts.startswith_inv in H as [r ->]; reflexivity.
Qed.

Lemma contains_append_r (p s : string) : PyStr.contains p (s +:+ p) = true.
Proof.
  induction s as [|c s IH].
  - apply PyStrFacts.contains_startswith.
    change ("" +:+ p) with p.
    rewrite <- (PyStrFacts.startswith_append p "") at 1.
    f_equal. induction p as [|a p IHp]; [reflexivity|].
    rewrite PyStrFacts.append_cons. f_equal. exact IHp.
  - rewrite PyStrFacts.append_cons. apply PyStrFacts.contains_cons. exact IH.
Qed.

Lemma polling_address_nonempty (a : string) :
  polling_address a -> String.eqb a "" = false.
Proof. intros [H _]. destruct a; [discriminate H|reflexivity]. Qed.

Lemma format_ip_webcam_url_shape_aux (raw : string) :
  polling_address (_format_ip_webcam_url raw).
Proof.
  unfold polling_address.
  set (u := with_scheme (PyStr.strip raw)).
  assert (Hscheme : PyStr.startswith "http://" u || PyStr.startswith "https://" u = true)
    by apply with_scheme_startswith.
  assert (Hfmt : _format_ip_webcam_url raw =
    if PyStr.contains "/video" u then PyStr.replace "/video" "/shot.jpg" u
    else if PyStr.contains "/shot.jpg" u then u
    else if PyStr.contains "/videofeed" u then PyStr.replace "/videofeed" "/shot.jpg" u
    else if PyStr.contains "/stream" u then PyStr.replace "/stream" "/shot.jpg" u
    else if PyStr.contains ":" u && negb (PyStr.endswith "/" u) then u +:+ "/shot.jpg"
    else u) by reflexivity.
  rewrite Hfmt. clear Hfmt.
  destruct (PyStr.contains "/video" u) eqn:Hv.
  { split; [apply replace_video_keeps_scheme; exact Hscheme|].
    left. apply PyStrFacts.contains_replace; [discriminate|exact Hv]. }
  destruct (PyStr.contains "/shot.jpg" u) eqn:Hs; [auto|].
  destruct (PyStr.contains "/videofeed" u) eqn:Hf.
  { apply videofeed_contains_video in Hf. congruence. }
  destruct (PyStr.contains "/stream" u) eqn:Hst.
  { split; [apply replace_stream_keeps_scheme; exact Hscheme|].
    left. apply PyStrFacts.contains_replace; [discriminate|exact Hst]. }
  assert (Hc : PyStr.contains ":" u = true) by apply with_scheme_colon.
  rewrite Hc. cbn [andb].
  destruct (PyStr.endswith "/" u) eqn:He; cbn [negb]; [auto|].
  split; [apply append_keeps_scheme; exact Hscheme|].
  left. apply contains_append_r.
Qed.

(** X7.  Every address [_format_ip_webcam_url] returns starts with
    ['http://'] or ['https://'], and it contains ['/shot.jpg'] unless
    it ends with ['/']. *)
Theorem format_ip_webcam_url_shape (raw : string) :
  let url := _format_ip_webcam_url raw in
  (PyStr.startswith "http://" url || PyStr.startswith "https://" url = true) /\
  (PyStr.contains "/shot.jpg" url = true \/ PyStr.endswith "/" url = true).
Proof. apply format_ip_webcam_url_shape_aux. Qed.

(** ** Opening and reopening a source *)

Section Opening.

Context {Frame : Type}.

Lemma open_url_camera_fields (w : World) (s : @CameraStream Frame) (url : string) :
  let s1 := fst (_open_url_camera w s url) in
  cap s1 = cap s /\ frame s1 = frame s /\ thread_started s1 = thread_started s /\
  (_shot_jpg_url s1 = _shot_jpg_url s \/
   exists a, _shot_jpg_url s1 = Some a /\ polling_address a).
Proof.
  unfold _open_url_camera. fold (with_scheme url).
  pose proof (with_scheme_startswith url) as Hscheme.
  destruct (PyStr.contains "/shot.jpg" (with_scheme url)) eqn:Hshot; cbn [andb].
  - destruct (open_url w 1 _).
    { cbn. repeat split. right. eexists. split; [reflexivity|].
      split; [exact Hscheme|left; exact Hshot]. }
    destruct (open_url w 2 _); [cbn; auto|].
    destruct (open_url w 3 _); [cbn; auto|].
    destruct (open_url w 4 _); [cbn; auto|].
    destruct (PyStr.contains "/video" (with_scheme url)) eqn:Hv;
      cbn [fst set_shot_jpg_url cap frame thread_started _shot_jpg_url]; [|auto].
    repeat split. right. eexists. split; [reflexivity|]. split.
    + apply replace_video_keeps_scheme. exact Hscheme.
    + left. apply PyStrFacts.contains_replace; [discriminate|exact Hv].
  - destruct (open_url w 2 _); [cbn; auto|].
    destruct (open_url w 3 _); [cbn; auto|].
    destruct (open_url w 4 _); [cbn; auto|].
    destruct (PyStr.contains "/video" (with_scheme url)) eqn:Hv;
      cbn [fst set_shot_jpg_url cap frame thread_started _shot_jpg_url]; [|auto].
    repeat split. right. eexists. split; [reflexivity|]. split.
    + apply replace_video_keeps_scheme. exact Hscheme.
    + left. apply PyStrFacts.contains_replace; [discriminate|exact Hv].
Qed.

(** X8.  [start] reports success only with an open capture and a
    launched thread; when it reports failure no thread was launched.
    It never touches the stop flag or the stored frame. *)
Theorem start_outcome (w : World) (s : @CameraStream Frame) :
  let s' := fst (start w s) in
  (snd (start w s) = true -> cap_is_open s' = true /\ thread_started s' = true) /\
  (snd (start w s) = false -> thread_started s' = thread_started s) /\
  stopped s' = stopped s /\
  get_frame s' = get_frame s.
Proof.
  unfold start, get_frame. destruct (String.eqb (camera_type s) "device").
  - destruct (open_device w (camera_source s)) as [[|]|e]; cbn;
      repeat split; try discriminate; reflexivity.
  - pose proof (open_url_camera_fields w s (_format_ip_webcam_url (camera_source s)))
      as (Hcap & Hframe & Hthread & _).
    pose proof (open_url_camera_stopped w s (_format_ip_webcam_url (camera_source s)))
      as (Hstop & _).
    destruct (_open_url_camera w s _) as [s1 opened]. cbn [fst] in *.
    destruct (_ && _); destruct opened; cbn;
      repeat split; try discriminate; auto.
Qed.

Lemma start_url_shot (w : World) (s : @CameraStream Frame) :
  camera_type s = "url" ->
  let fmt := _format_ip_webcam_url (camera_source s) in
  let s1 := fst (_open_url_camera w s fmt) in
  _shot_jpg_url (fst (start w s)) =
    if has_shot_jpg_url s1 then _shot_jpg_url s1 else Some fmt.
Proof.
  intros Hty fmt s1. unfold start. rewrite Hty.
  cbn [String.eqb Ascii.eqb Bool.eqb].
  pose proof (open_url_camera_stopped w s fmt) as (_ & _ & Hty1).
  subst s1. fold fmt. destruct (_open_url_camera w s fmt) as [s1 opened].
  cbn [fst] in *.
  replace (camera_type (set_cap (Some opened) s1)) with "url"
    by (cbn; congruence).
  cbn [String.eqb Ascii.eqb Bool.eqb andb].
  change (has_shot_jpg_url (set_cap (Some opened) s1)) with (has_shot_jpg_url s1).
  destruct (has_shot_jpg_url s1); destruct opened; reflexivity.
Qed.

(** X9.  After [start] a stream of type ['url'] always knows a
    single-image address, whether or not the capture opened: if the
    address it held before (if any) had a scheme and ['/shot.jpg'] (or
    a final ['/']), so has the one it holds now.  Its loop therefore
    polls that address instead of reading the capture. *)
Theorem start_url_address (w : World) (s : @CameraStream Frame) :
  camera_type s = "url" ->
  (forall a, _shot_jpg_url s = Some a -> String.eqb a "" = false ->
             polling_address a) ->
  exists a,
    _shot_jpg_url (fst (start w s)) = Some a /\
    has_shot_jpg_url (fst (start w s)) = true /\
    polling_address a.
Proof.
  intros Hty Hold.
  pose proof (start_url_shot w s Hty) as Hshot. cbv zeta in Hshot.
  pose proof (open_url_camera_fields w s (_format_ip_webcam_url (camera_source s)))
    as (_ & _ & _ & Hurl).
  assert (Hfmt : polling_address (_format_ip_webcam_url (camera_source s)))
    by apply format_ip_webcam_url_shape_aux.
  set (s1 := fst (_open_url_camera w s (_format_ip_webcam_url (camera_source s)))) in *.
  assert (Hres : exists a, _shot_jpg_url (fst (start w s)) = Some a /\
                           polling_address a).
  { rewrite Hshot. unfold has_shot_jpg_url.
    destruct (_shot_jpg_url s1) as [a|] eqn:Ha; [|eauto].
    destruct (String.eqb a "") eqn:Hempty; cbn [negb]; [eauto|].
    exists a. split; [reflexivity|].
    destruct Hurl as [Heq|(a' & Ha' & Hgood)].
    - apply Hold; [congruence|exact Hempty].
    - congruence. }
  destruct Hres as (a & Ha & Hgood). exists a.
  split; [exact Ha|]. split; [|exact Hgood].
  unfold has_shot_jpg_url. rewrite Ha.
  rewrite (polling_address_nonempty a Hgood). reflexivity.
Qed.

End Opening.

Section Reconnecting.

Context {Frame : Type}.

Lemma start_success_open (w : World) (s : @CameraStream Frame) :
  snd (start w s) = true -> cap_is_open (fst (start w s)) = true.
Proof.
  unfold start. destruct (String.eqb (camera_type s) "device").
  - destruct (open_device w (camera_source s)) as [[|]|e]; cbn;
      try discriminate; reflexivity.
  - destruct (_open_url_camera w s _) as [s1 opened].
    destruct (_ && _); destruct opened; cbn; try discriminate; reflexivity.
Qed.

Lemma reconnect_loop_result (w : nat -> World) (urls : list string) :
  forall i (s : @CameraStream Frame),
    let r := reconnect_loop w i urls s in
    snd (fst r) = true ->
    camera_source (fst (fst r)) ∈ urls /\ cap_is_open (fst (fst r)) = true.
Proof.
  induction urls as [|url rest IH]; intros i s; [discriminate|].
  cbn [reconnect_loop].
  pose proof (start_stopped (w i) (set_camera_source url (stop s))) as (_ & Hsrc & _).
  pose proof (start_success_open (w i) (set_camera_source url (stop s))) as Hopen.
  destruct (start (w i) (set_camera_source url (stop s))) as [s1 [|]];
    cbn [fst snd] in *.
  - intros _. split; [|apply Hopen; reflexivity].
    rewrite Hsrc. apply list_elem_of_here.
  - intros Hok. destruct (IH (S i) s1 Hok) as [Hin Hcap].
    split; [apply list_elem_of_further; exact Hin|exact Hcap].
Qed.

(** X10.  [reconnect] leaves the stream with one of the three
    addresses it tries (the original, the one with ['/video'] turned
    into ['/shot.jpg'], the one with ['/shot.jpg'] turned into
    ['/video']); it puts the original back whenever it reports
    failure, and reports success only with an open capture. *)
Theorem reconnect_source (w : nat -> World) (s : @CameraStream Frame) :
  camera_source (fst (reconnect w s)) ∈ reconnect_urls (camera_source s) /\
  (snd (reconnect w s) = false ->
   camera_source (fst (reconnect w s)) = camera_source s) /\
  (snd (reconnect w s) = true -> cap_is_open (fst (reconnect w s)) = true).
Proof.
  assert (Hrestart : forall w0 (s0 : @CameraStream Frame),
            camera_source (fst (restart w0 s0)) = camera_source s0 /\
            (snd (restart w0 s0) = true -> cap_is_open (fst (restart w0 s0)) = true)).
  { intros w0 s0. unfold restart. split.
    - destruct (start_stopped w0 (stop s0)) as (_ & H & _). exact H.
    - apply start_success_open. }
  assert (Hfirst : camera_source s ∈ reconnect_urls (camera_source s))
    by apply list_elem_of_here.
  unfold reconnect.
  destruct (String.eqb (camera_type s) "url"); cbn [negb].
  - pose proof (reconnect_loop_result w (reconnect_urls (camera_source s)) 0 s) as H.
    cbv zeta in H.
    destruct (reconnect_loop w 0 (reconnect_urls (camera_source s)) s)
      as [[s1 ok] i]. cbn [fst snd] in H.
    destruct ok; cbn [fst snd].
    + destruct (H eq_refl) as [Hin Hcap].
      split; [exact Hin|]. split; [discriminate|auto].
    + destruct (Hrestart (w i) (set_camera_source (camera_source s) s1)) as [Hs Ho].
      cbn [camera_source set_camera_source] in Hs.
      split; [rewrite Hs; exact Hfirst|]. split; [intros _; exact Hs|exact Ho].
  - destruct (Hrestart (w 0%nat) s) as [Hs Ho].
    split; [rewrite Hs; exact Hfirst|]. split; [intros _; exact Hs|exact Ho].
Qed.

End Reconnecting.

(** ** The switch to the single-image capture *)

Section LoopSwitch.

Context {Frame : Type}.

Lemma store_frame_raise (s s' : @CameraStream Frame) (resized : result Frame)
    (t_store t_fps : Q) (e : exn) :
  store_frame s resized t_store t_fps = (s', Some e) -> e = ZeroDivisionError.
Proof.
  unfold store_frame. destruct resized as [f|e0]; [|discriminate].
  destruct (_ =? 0); [|discriminate].
  unfold truediv. destruct (Qeq_bool _ 0); [|discriminate].
  intros [= _ <-]. reflexivity.
Qed.

Lemma store_frame_cap (s : @CameraStream Frame) (resized : result Frame)
    (t_store t_fps : Q) :
  cap (fst (store_frame s resized t_store t_fps)) = cap s /\
  _mjpeg_error_count (fst (store_frame s resized t_store t_fps)) =
    _mjpeg_error_count s.
Proof.
  unfold store_frame. destruct resized as [f|e]; [|auto].
  destruct (_ =? 0); [|auto]. destruct (truediv _ _); auto.
Qed.

(** Without a single-image address the [except] clauses count and go
    on: the capture stays. *)
Lemma handle_raise_no_switch (s : @CameraStream Frame) (c : Z) (e : exn)
    (reopened : bool) :
  has_shot_jpg_url s = false \/ (forall msg, e <> CvError msg) ->
  cap (fst (handle_raise s c e reopened)) = cap s /\
  _mjpeg_error_count s <= _mjpeg_error_count (fst (handle_raise s c e reopened)).
Proof.
  intros H. unfold handle_raise.
  destruct e as [| | |msg|];
    try (destruct (_ <=? _); cbn; (split; [reflexivity|lia])).
  destruct H as [H|H]; [|exfalso; exact (H msg eq_refl)].
  destruct (mjpeg_related msg);
    [|destruct (_ <=? _); cbn; (split; [reflexivity|lia])].
  replace (has_shot_jpg_url (set_mjpeg_error_count (_mjpeg_error_count s + 1) s))
    with false by (symmetry; exact H).
  rewrite andb_false_r.
  destruct (_ <=? _); cbn; split; try reflexivity; lia.
Qed.

Lemma update_body_no_switch (s : @CameraStream Frame) (c : Z) (o : Outcome) :
  camera_type s = "url" \/ has_shot_jpg_url s = false ->
  cap (fst (update_body s c o)) = cap s /\
  _mjpeg_error_count s <= _mjpeg_error_count (fst (update_body s c o)).
Proof.
  intros H.
  assert (Hok : forall resized t1 t2,
            let r := match store_frame s resized t1 t2 with
                     | (s', None) => (s', Running 0)
                     | (s', Some e) => handle_raise s' 0 e false
                     end in
            cap (fst r) = cap s /\ _mjpeg_error_count s <= _mjpeg_error_count (fst r)).
  { intros resized t1 t2.
    pose proof (store_frame_cap s resized t1 t2) as [Hc Hn].
    destruct (store_frame s resized t1 t2) as [s1 [e|]] eqn:Hst; cbn [fst] in *.
    - apply store_frame_raise in Hst. subst e. cbv zeta.
      destruct (handle_raise_no_switch s1 0 ZeroDivisionError false) as [Hc' Hn'];
        [right; discriminate|].
      rewrite Hc', Hc. split; [reflexivity|lia].
    - cbn. split; [exact Hc|lia]. }
  assert (Hnone : let r := if c + 1 <=? 3 then (s, Running (c + 1))
                           else if c + 1 =? max_consecutive_errors
                                then (s, Terminated)
                                else (s, Running (c + 1)) in
                  cap (fst r) = cap s /\
                  _mjpeg_error_count s <= _mjpeg_error_count (fst r)).
  { cbv zeta. destruct (_ <=? 3); [cbn; (split; [reflexivity|lia])|].
    destruct (_ =? _); cbn; split; try reflexivity; lia. }
  unfold update_body. destruct (cap_is_open s); cbn [negb];
    [|cbn; (split; [reflexivity|lia])].
  unfold read_outcome.
  destruct (String.eqb (camera_type s) "url" && has_shot_jpg_url s) eqn:E.
  - destruct o as [f resized t1 t2| |e reopened]; cbn [_get_url_frame].
    + apply Hok.
    + apply Hnone.
    + apply Hnone.
  - assert (Hno : has_shot_jpg_url s = false).
    { destruct H as [H|H]; [|exact H].
      rewrite H in E. cbn in E. exact E. }
    destruct o as [f resized t1 t2| |e reopened].
    + apply Hok.
    + apply Hnone.
    + apply handle_raise_no_switch. left. exact Hno.
Qed.

Lemma update_loop_no_switch (outcomes : list (@Outcome Frame)) :
  forall (s : @CameraStream Frame) (c : Z),
    camera_type s = "url" \/ has_shot_jpg_url s = false ->
    cap (fst (update_loop s c outcomes)) = cap s /\
    _mjpeg_error_count s <= _mjpeg_error_count (fst (update_loop s c outcomes)).
Proof.
  induction outcomes as [|o rest IH]; intros s c H; cbn [update_loop].
  - destruct (stopped s); cbn; split; try reflexivity; lia.
  - destruct (stopped s); [cbn; (split; [reflexivity|lia])|].
    pose proof (update_body_no_switch s c o H) as [Hc Hn].
    pose proof (update_body_settings s c o) as (_ & _ & Hty & _ & _ & Hurl & _).
    destruct (update_body s c o) as [s1 [n|]]; cbn [fst] in *;
      [|split; assumption].
    destruct (IH s1 n) as [Hc' Hn'].
    { unfold has_shot_jpg_url in *. rewrite Hty, Hurl. exact H. }
    rewrite Hc', Hc. split; [reflexivity|lia].
Qed.

Lemma start_camera_type (w : World) (s : @CameraStream Frame) :
  camera_type (fst (start w s)) = camera_type s.
Proof.
  unfold start. destruct (String.eqb (camera_type s) "device").
  - destruct (open_device w (camera_source s)) as [[|]|e]; reflexivity.
  - unfold _open_url_camera.
    repeat match goal with
           | |- context [if ?b then _ else _] => destruct b
           end; reflexivity.
Qed.

(** X5.  The switch to the single-image capture is out of reach of a
    stream of type ['url'] and of a stream without a single-image
    address: a ['url'] stream that knows the address polls it, and a
    poll never raises; the other streams have no address to switch
    to.  Whatever such a stream meets, the loop keeps its capture and
    never resets the MJPEG error count.  Every stream of type
    ['device'] or ['url'] is such a stream after [start]. *)
Theorem mjpeg_switch_unreachable (s : @CameraStream Frame)
    (outcomes : list Outcome) :
  (camera_type s = "url" \/ has_shot_jpg_url s = false ->
   cap (fst (_update s outcomes)) = cap s /\
   _mjpeg_error_count s <= _mjpeg_error_count (fst (_update s outcomes))) /\
  (forall w src nm ty,
     ty = "device" \/ ty = "url" ->
     s = fst (start w (new_CameraStream src nm ty)) ->
     camera_type s = "url" \/ has_shot_jpg_url s = false).
Proof.
  split; [apply update_loop_no_switch|].
  intros w src nm ty [-> | ->] ->.
  - right. unfold start. cbn [camera_type new_CameraStream].
    change (String.eqb "device" "device") with true. cbv iota.
    destruct (open_device w _) as [[|]|e]; reflexivity.
  - left. rewrite start_camera_type. reflexivity.
Qed.

End LoopSwitch.

(** ** The manager *)

Section ManagerFacts.

Context {Frame : Type}.

Lemma initialize_cameras_cases (w : World) (c1 c2 : CameraConfig)
    (m : @CameraManager Frame) :
  (slot_starts Frame w c1 /\ slot_starts Frame w c2 /\
   initialize_cameras w c1 c2 m =
     (mkCameraManager
        (<["camera2" := slot_of Frame w c2]> (<["camera1" := slot_of Frame w c1]> ∅)) true,
      true))
  \/
  (~ (slot_starts Frame w c1 /\ slot_starts Frame w c2) /\
   initialize_cameras w c1 c2 m = (m, false)).
Proof.
  unfold initialize_cameras, slot_starts, slot_of.
  destruct (cfg_enabled c1); destruct (cfg_enabled c2);
    try destruct (start w (make_stream c1)) as [s1 [|]];
    try destruct (start w (make_stream c2)) as [s2 [|]]; cbn [fst snd];
    try (left; repeat split; auto; fail);
    right; (split; [intros [H1 H2]; auto; try (specialize (H1 eq_refl); discriminate);
                    try (specialize (H2 eq_refl); discriminate)|reflexivity]).
Qed.

(** X11.  [initialize_cameras] succeeds exactly when every enabled
    camera starts.  The manager then runs with the two slots
    ['camera1'] and ['camera2'] filled (a disabled camera with
    [None]), so that [get_frames] returns without raising; on a
    failure the manager is left exactly as it was. *)
Theorem initialize_cameras_result (w : World) (c1 c2 : CameraConfig)
    (m : @CameraManager Frame) :
  let m' := fst (initialize_cameras w c1 c2 m) in
  (snd (initialize_cameras w c1 c2 m) = true <->
   slot_starts Frame w c1 /\ slot_starts Frame w c2) /\
  (snd (initialize_cameras w c1 c2 m) = true ->
   running m' = true /\
   cameras m' !! "camera1" = Some (slot_of Frame w c1) /\
   cameras m' !! "camera2" = Some (slot_of Frame w c2) /\
   dom (cameras m') = {["camera1"; "camera2"]} /\
   get_frames m' = Ok (slot_of Frame w c1 ≫= get_frame, slot_of Frame w c2 ≫= get_frame)) /\
  (snd (initialize_cameras w c1 c2 m) = false -> m' = m).
Proof.
  destruct (initialize_cameras_cases w c1 c2 m) as [(H1 & H2 & ->)|(Hno & ->)];
    cbn [fst snd].
  - split; [split; auto|]. split; [|discriminate]. intros _.
    split; [reflexivity|]. split; [reflexivity|]. split; [reflexivity|].
    split.
    + cbn [cameras]. rewrite !dom_insert_L, dom_empty_L. set_solver.
    + unfold get_frames, cameras_item. cbn [running negb cameras].
      rewrite lookup_insert_ne by discriminate. rewrite lookup_insert_eq.
      cbn [rbind]. rewrite lookup_insert_eq. cbn [rbind].
      destruct (slot_of Frame w c1), (slot_of Frame w c2); reflexivity.
  - split; [split; [discriminate|intros H; contradiction]|].
    split; [discriminate|reflexivity].
Qed.

Lemma run_acquisition_lookup (k k' : string) (outcomes : list Outcome)
    (m : @CameraManager Frame) :
  running (fst (run_acquisition k outcomes m)) = running m /\
  (k' <> k ->
   cameras (fst (run_acquisition k outcomes m)) !! k' = cameras m !! k') /\
  (is_Some (cameras m !! k') ->
   is_Some (cameras (fst (run_acquisition k outcomes m)) !! k')).
Proof.
  unfold run_acquisition.
  destruct (cameras m !! k) as [[s|]|] eqn:Hk; cbn [fst]; auto.
  destruct (_update s outcomes) as [s' status]. cbn [fst running cameras].
  split; [reflexivity|]. split.
  - intros Hne. apply lookup_insert_ne. auto.
  - intros Hsome. destruct (decide (k = k')) as [->|Hne].
    + rewrite lookup_insert_eq. eauto.
    + rewrite lookup_insert_ne by auto. exact Hsome.
Qed.

(** A slot that holds no stream keeps none, whichever loop runs. *)
Lemma run_acquisition_empty_slot (k k' : string) (outcomes : list Outcome)
    (m : @CameraManager Frame) :
  cameras m !! k' = Some None ->
  cameras (fst (run_acquisition k outcomes m)) !! k' = Some None.
Proof.
  intros Hk'. unfold run_acquisition.
  destruct (cameras m !! k) as [[s|]|] eqn:Hk; cbn [fst]; try exact Hk'.
  destruct (_update s outcomes) as [s' status]. cbn [fst cameras].
  destruct (decide (k' = k)) as [->|Hne]; [congruence|].
  rewrite lookup_insert_ne by auto. exact Hk'.
Qed.

(** X13.  A camera disabled in the configuration, the first or the
    second, stays absent: after a successful [initialize_cameras], and
    whatever the acquisition loop of either slot does afterwards,
    [get_frames] returns with [None] for its slot and the health
    snapshot reports it with rate 0, not running and ['disabled']. *)
Theorem disabled_slot_stays_absent (w : World) (c1 c2 : CameraConfig)
    (m : @CameraManager Frame) (k : string) (outcomes : list Outcome) :
  snd (initialize_cameras w c1 c2 m) = true ->
  let m' := fst (run_acquisition k outcomes
                   (fst (initialize_cameras w c1 c2 m))) in
  (cfg_enabled c1 = false ->
   (exists f2, get_frames m' = Ok (None, f2)) /\
   get_camera_info m' !! "camera1" =
     Some (mkCameraInfo 0 false "disabled" "disabled" "Disabled")) /\
  (cfg_enabled c2 = false ->
   (exists f1, get_frames m' = Ok (f1, None)) /\
   get_camera_info m' !! "camera2" =
     Some (mkCameraInfo 0 false "disabled" "disabled" "Disabled")).
Proof.
  intros Hok m'.
  destruct (initialize_cameras_cases w c1 c2 m) as [(_ & _ & Hinit)|(_ & Hinit)];
    [|rewrite Hinit in Hok; discriminate].
  assert (Hfacts : running m' = true /\
                   is_Some (cameras m' !! "camera1") /\
                   is_Some (cameras m' !! "camera2") /\
                   (cfg_enabled c1 = false -> cameras m' !! "camera1" = Some None) /\
                   (cfg_enabled c2 = false -> cameras m' !! "camera2" = Some None)).
  { subst m'. rewrite Hinit. cbn [fst].
    match goal with |- context [run_acquisition _ _ ?x] => set (m0 := x) end.
    assert (H1 : cameras m0 !! "camera1" = Some (slot_of Frame w c1))
      by (subst m0; cbn [cameras]; rewrite lookup_insert_ne by discriminate;
          apply lookup_insert_eq).
    assert (H2 : cameras m0 !! "camera2" = Some (slot_of Frame w c2))
      by (subst m0; cbn [cameras]; apply lookup_insert_eq).
    destruct (run_acquisition_lookup k "camera1" outcomes m0) as (Hr & _ & Hs1).
    destruct (run_acquisition_lookup k "camera2" outcomes m0) as (_ & _ & Hs2).
    split; [rewrite Hr; reflexivity|].
    split; [apply Hs1; rewrite H1; eauto|].
    split; [apply Hs2; rewrite H2; eauto|].
    split; intros Hoff; apply run_acquisition_empty_slot.
    - rewrite H1. unfold slot_of. rewrite Hoff. reflexivity.
    - rewrite H2. unfold slot_of. rewrite Hoff. reflexivity. }
  destruct Hfacts as (Hr & [s1 Hs1] & [s2 Hs2] & Hoff1 & Hoff2).
  split; intros Hoff.
  - specialize (Hoff1 Hoff). split.
    + unfold get_frames, cameras_item. rewrite Hr, Hoff1, Hs2. cbn. eauto.
    + unfold get_camera_info. rewrite lookup_fmap, Hoff1. reflexivity.
  - specialize (Hoff2 Hoff). split.
    + unfold get_frames, cameras_item. rewrite Hr, Hs1, Hoff2. cbn. eauto.
    + unfold get_camera_info. rewrite lookup_fmap, Hoff2. reflexivity.
Qed.

End ManagerFacts.

(** ** Objects, detections and identity assignment *)

(** X14.  The centre of a box with positive width and height is a
    pixel of that box. *)
Theorem get_center_inside (o : DetectedObject) :
  (let '(x, y, w, h) := bbox o in 0 < w /\ 0 < h) ->
  inside (bbox o) (fst (get_center o)) (snd (get_center o)).
Proof.
  unfold get_center, inside. destruct (bbox o) as [[[x y] w] h].
  intros [Hw Hh]. cbn [fst snd].
  pose proof (Z.div_pos w 2). pose proof (Z.div_lt w 2).
  pose proof (Z.div_pos h 2). pose proof (Z.div_lt h 2). lia.
Qed.

Lemma same_detection_refl (o : DetectedObject) : same_detection o o.
Proof. repeat split. Qed.

Lemma same_detection_trans (o1 o2 o3 : DetectedObject) :
  same_detection o1 o2 -> same_detection o2 o3 -> same_detection o1 o3.
Proof.
  unfold same_detection. intros (?&?&?&?&?&?) (?&?&?&?&?&?).
  repeat split; congruence.
Qed.

Lemma track_step_ok (st st' : TrackingState) (t : Track) :
  track_step st t = Ok st' -> tracking_step_ok st st'.
Proof.
  intros Hstep.
  destruct (track_step_cases st t)
    as [[_ H]|[(_ & _ & H)|(_ & k & o & _ & Hk & H)]];
    rewrite H in Hstep; injection Hstep as <-.
  1,2: repeat split; eauto using same_detection_refl.
  pose proof (lookup_lt_Some _ _ _ Hk) as Hlt.
  unfold tracking_step_ok. cbn [store tracked_objects].
  rewrite length_insert. repeat split.
  - intros i o' Hi. destruct (decide (i = k)) as [->|Hne].
    + rewrite list_lookup_insert_eq in Hi by exact Hlt. injection Hi as <-.
      exists o. split; [exact Hk|]. repeat split.
    + rewrite list_lookup_insert_ne in Hi by auto.
      exists o'. split; [exact Hi|apply same_detection_refl].
  - intros Hvalid r Hr. apply elem_of_app in Hr as [Hr|Hr]; [auto|].
    apply list_elem_of_singleton in Hr. subst r. exact Hlt.
  - rewrite length_app. simpl. lia.
Qed.

(** What the whole loop keeps true, from its first state. *)
Lemma run_tracks_ok (tracks : list Track) :
  forall st,
    length (store (run_tracks st tracks)) = length (store st) /\
    (forall i o', store (run_tracks st tracks) !! i = Some o' ->
       exists o, store st !! i = Some o /\ same_detection o o') /\
    ((forall r, r ∈ tracked_objects st -> (r < length (store st))%nat) ->
     forall r, r ∈ tracked_objects (run_tracks st tracks) ->
               (r < length (store st))%nat) /\
    (length (tracked_objects (run_tracks st tracks)) <=
     length (tracked_objects st) +
     length (filter (fun t => is_confirmed t = true) tracks))%nat.
Proof.
  induction tracks as [|t ts IH]; intros st.
  - unfold run_tracks. simpl. repeat split; eauto using same_detection_refl. lia.
  - destruct (track_step_total st t) as [st1 Hstep].
    rewrite (run_tracks_cons _ _ _ _ Hstep).
    destruct (track_step_ok _ _ _ Hstep) as (Hlen & Hobj & Hval & Hcount).
    destruct (IH st1) as (Hlen' & Hobj' & Hval' & Hcount').
    split; [congruence|]. split; [|split].
    + intros i o' Hi. destruct (Hobj' i o' Hi) as (o1 & Hi1 & Hs1).
      destruct (Hobj i o1 Hi1) as (o & Hi0 & Hs0).
      exists o. split; [exact Hi0|]. eapply same_detection_trans; eassumption.
    + intros Hvalid r Hr. rewrite <- Hlen. apply Hval'; [|exact Hr].
      apply Hval. exact Hvalid.
    + rewrite filter_cons. destruct (is_confirmed t) eqn:Hc.
      * rewrite decide_True by reflexivity. simpl. lia.
      * rewrite decide_False by discriminate.
        destruct (track_step_cases st t) as [[_ H]|[(Hc' & _)|(Hc' & _)]];
          [|congruence|congruence].
        rewrite H in Hstep. injection Hstep as <-. lia.
Qed.

Section AssignmentFacts.

Context {Frame : Type}.

(** The returned references all point into the store. *)
Lemma update_deepsort_tracking_shape (self : @ObjectTracker Frame) (frame : Frame)
    (objs : list DetectedObject) (cam : string) :
  let st := _update_deepsort_tracking self frame objs cam in
  length (store st) = length objs /\
  (forall i o', store st !! i = Some o' ->
     exists o, objs !! i = Some o /\ same_detection o o') /\
  (forall r, r ∈ tracked_objects st -> (r < length (store st))%nat).
Proof.
  assert (Hrefs : forall l : list DetectedObject, forall r,
            r ∈ all_refs l -> (r < length l)%nat).
  { intros l r Hr. unfold all_refs in Hr. apply elem_of_seq in Hr. lia. }
  unfold _update_deepsort_tracking.
  destruct (trackers self !! cam) as [tracker|];
    [|cbn; repeat split; eauto using same_detection_refl].
  destruct (tracker _ frame) as [tracks|e];
    [|cbn; repeat split; eauto using same_detection_refl].
  rewrite track_loop_run.
  destruct (run_tracks_ok tracks (mkTrackingState objs [] (object_history self)))
    as (Hlen & Hobj & Hval & _). cbn [store tracked_objects] in *.
  split; [exact Hlen|]. split; [exact Hobj|].
  intros r Hr. rewrite Hlen. apply Hval; [|exact Hr].
  intros r' Hr'. by apply elem_of_nil in Hr'.
Qed.

(** X15.  The identity assignment rewrites nothing but the box and the
    identity of the detections: the store keeps its length, every
    object keeps its class, confidence, source, time and position, and
    every reference it returns points to an object of the store. *)
Theorem update_deepsort_tracking_keeps_detections (self : @ObjectTracker Frame)
    (frame : Frame) (objs : list DetectedObject) (cam : string) :
  let st := _update_deepsort_tracking self frame objs cam in
  length (store st) = length objs /\
  (forall i o', store st !! i = Some o' ->
     exists o, objs !! i = Some o /\
       confidence o' = confidence o /\ class_id o' = class_id o /\
       class_name o' = class_name o /\ camera_id o' = camera_id o /\
       timestamp o' = timestamp o /\ position_3d o' = position_3d o) /\
  (forall r, r ∈ tracked_objects st -> is_Some (store st !! r)) /\
  length (deref (store st) (tracked_objects st)) = length (tracked_objects st).
Proof.
  destruct (update_deepsort_tracking_shape self frame objs cam)
    as (Hlen & Hobj & Hval). cbv zeta.
  split; [exact Hlen|]. split; [exact Hobj|].
  assert (Hsome : forall r,
            r ∈ tracked_objects (_update_deepsort_tracking self frame objs cam) ->
            is_Some (store (_update_deepsort_tracking self frame objs cam) !! r)).
  { intros r Hr. apply lookup_lt_is_Some. apply Hval. exact Hr. }
  split; [exact Hsome|].
  unfold deref. revert Hsome.
  generalize (store (_update_deepsort_tracking self frame objs cam)).
  generalize (tracked_objects (_update_deepsort_tracking self frame objs cam)).
  intros refs objs' Hsome. induction refs as [|r refs IH]; [reflexivity|].
  simpl. destruct (Hsome r (list_elem_of_here _ _)) as [o ->]. simpl.
  f_equal. apply IH. intros r' Hr'. apply Hsome. apply list_elem_of_further. exact Hr'.
Qed.

(** X16.  When the tracker answers, the identity assignment returns at
    most one object per confirmed track. *)
Theorem update_deepsort_tracking_count (self : @ObjectTracker Frame)
    (frame : Frame) (objs : list DetectedObject) (cam : string)
    (tracker : DeepSort) (tracks : list Track) :
  trackers self !! cam = Some tracker ->
  tracker (detections_of objs) frame = Ok tracks ->
  (length (tracked_objects (_update_deepsort_tracking self frame objs cam)) <=
   length (filter (fun t => is_confirmed t = true) tracks))%nat.
Proof.
  intros Ht Hcall.
  rewrite (update_deepsort_tracking_ok self frame objs cam tracker tracks Ht Hcall).
  destruct (run_tracks_ok tracks (mkTrackingState objs [] (object_history self)))
    as (_ & _ & _ & H). exact H.
Qed.

End AssignmentFacts.

(** ** The history of identities *)

Lemma record_history_lookup (tid : Z) (o : DetectedObject)
    (h : gmap Z (list DetectedObject)) (k : Z) :
  record_history tid o h !! k =
    if decide (k = tid) then
      Some (let entry := default [] (h !! tid) ++ [o] in
            if (TRACKING_HISTORY_LENGTH <? length entry)%nat
            then last_n TRACKING_HISTORY_LENGTH entry else entry)
    else h !! k.
Proof.
  unfold record_history.
  assert (He : default [] ((match h !! tid with
                            | Some _ => h | None => <[tid:=[]]> h end) !! tid)
               = default [] (h !! tid)).
  { destruct (h !! tid) eqn:E; [rewrite E; reflexivity|].
    rewrite lookup_insert_eq. reflexivity. }
  rewrite He. cbv zeta.
  destruct (TRACKING_HISTORY_LENGTH <? _)%nat;
    destruct (decide (k = tid)) as [->|Hne];
    rewrite ?lookup_insert_eq, ?lookup_insert_ne by auto; try reflexivity;
    destruct (h !! tid) eqn:E; rewrite ?lookup_insert_ne by auto; reflexivity.
Qed.

Lemma record_history_bounded (tid : Z) (o : DetectedObject)
    (h : gmap Z (list DetectedObject)) :
  history_bounded h -> history_bounded (record_history tid o h).
Proof.
  intros Hb k l. rewrite record_history_lookup.
  destruct (decide (k = tid)) as [->|Hne]; [|apply Hb].
  intros [= <-]. cbv zeta.
  destruct (Nat.ltb_spec TRACKING_HISTORY_LENGTH
              (length (default [] (h !! tid) ++ [o]))) as [Hlt|Hge]; [|exact Hge].
  unfold last_n. rewrite length_drop. lia.
Qed.

Lemma run_tracks_history_bounded (tracks : list Track) :
  forall st, history_bounded (history st) ->
             history_bounded (history (run_tracks st tracks)).
Proof.
  induction tracks as [|t ts IH]; intros st Hb; [exact Hb|].
  destruct (track_step_total st t) as [st1 Hstep].
  rewrite (run_tracks_cons _ _ _ _ Hstep). apply IH.
  destruct (track_step_cases st t)
    as [[_ H]|[(_ & _ & H)|(_ & k & o & _ & _ & H)]];
    rewrite H in Hstep; injection Hstep as <-; [exact Hb|exact Hb|].
  apply record_history_bounded. exact Hb.
Qed.

Section Fusion.

Context {Frame : Type}.

Lemma update_deepsort_tracking_history_bounded (self : @ObjectTracker Frame)
    (frame : Frame) (objs : list DetectedObject) (cam : string) :
  history_bounded (object_history self) ->
  history_bounded (history (_update_deepsort_tracking self frame objs cam)).
Proof.
  intros Hb. unfold _update_deepsort_tracking.
  destruct (trackers self !! cam) as [tracker|]; [|exact Hb].
  destruct (tracker _ frame) as [tracks|e]; [|exact Hb].
  rewrite track_loop_run. apply run_tracks_history_bounded. exact Hb.
Qed.

(** X17.  The history of identities stays bounded: if no identity has
    more than [TRACKING_HISTORY_LENGTH] entries before a cycle, none
    has more after it. *)
Theorem track_objects_history_bounded (self : @ObjectTracker Frame)
    (frame1 frame2 : option Frame) (now : Q) (out : CycleOutput) :
  history_bounded (object_history self) ->
  track_objects self frame1 frame2 now = Ok out ->
  history_bounded (out_history out).
Proof.
  intros Hb. unfold track_objects.
  set (st1 := track_source self frame1 "camera1" now).
  set (st2 := track_source (with_history self (history st1)) frame2 "camera2" now).
  assert (H1 : history_bounded (history st1)).
  { subst st1. unfold track_source. destruct frame1 as [f|]; [|exact Hb].
    apply update_deepsort_tracking_history_bounded. exact Hb. }
  assert (H2 : history_bounded (history st2)).
  { subst st2. unfold track_source. destruct frame2 as [f|]; [|exact H1].
    apply update_deepsort_tracking_history_bounded. exact H1. }
  destruct (_ && _).
  - destruct (_calculate_3d_positions _ _ _ _) as [stores|e]; cbn [rbind];
      [|discriminate].
    intros [= <-]. exact H2.
  - intros [= <-]. exact H2.
Qed.

Lemma detection_of_fresh (m : @Yolo Frame) (cam : string) (now : Q)
    (box : RawBox) (o : DetectedObject) :
  detection_of m cam now box = Some o -> fresh_detection cam now o.
Proof.
  unfold detection_of. destruct (xyxy box) as [[[x1 y1] x2] y2].
  destruct (names m !! _); [|discriminate].
  intros [= <-]. repeat split.
Qed.

Lemma detect_objects_from_boxes (self : @ObjectTracker Frame) (frame : Frame)
    (cam : string) (now : Q) :
  detect_objects self frame cam now = [] \/
  exists m results os,
    yolo_model self = Some m /\ yolo_call m frame = Ok results /\
    mapM (detection_of m cam now) (all_boxes results) = Some os /\
    detect_objects self frame cam now = filter (fun o => passes_filters o = true) os.
Proof.
  unfold detect_objects.
  destruct (yolo_model self) as [m|]; [|left; reflexivity].
  destruct (yolo_call m frame) as [results|e] eqn:Hcall; [|left; reflexivity].
  cbn [rbind].
  destruct (for_each _ results []) as [r|e] eqn:Hrun; [|left; reflexivity].
  apply detect_results_spec in Hrun as (os & Hos & ->).
  right. exists m, results, os. repeat split; auto.
Qed.

(** X18.  Every object [detect_objects] returns is new: it has no
    identity and no position yet, and carries the source and the time
    of the call; and there are at most as many of them as the detector
    gave boxes. *)
Theorem detect_objects_fresh (self : @ObjectTracker Frame) (frame : Frame)
    (cam : string) (now : Q) :
  (forall o, o ∈ detect_objects self frame cam now ->
     track_id o = None /\ position_3d o = None /\
     camera_id o = cam /\ timestamp o = now) /\
  (forall m results,
     yolo_model self = Some m -> yolo_call m frame = Ok results ->
     (length (detect_objects self frame cam now) <= length (all_boxes results))%nat).
Proof.
  destruct (detect_objects_from_boxes self frame cam now)
    as [Hnil|(m & results & os & Hm & Hcall & Hos & Heq)].
  - rewrite Hnil. split; [intros o Ho; by apply elem_of_nil in Ho|].
    intros; simpl; lia.
  - rewrite Heq. apply mapM_Some_1 in Hos. split.
    + intros o Ho. apply list_elem_of_filter in Ho as [_ Ho].
      apply list_elem_of_lookup in Ho as [i Hi].
      destruct (Forall2_lookup_r _ _ _ _ _ Hos Hi) as (box & _ & Hbox).
      apply (detection_of_fresh m cam now box o Hbox).
    + intros m' results' Hm' Hcall'.
      assert (m' = m) by congruence. subst m'.
      assert (results' = results) by congruence. subst results'.
      rewrite (Forall2_length _ _ _ Hos).
      apply length_filter.
Qed.

Lemma detect_objects_positions (self : @ObjectTracker Frame) (frame : Frame)
    (cam : string) (now : Q) (o : DetectedObject) :
  o ∈ detect_objects self frame cam now ->
  position_3d o = None /\ track_id o = None.
Proof.
  destruct (detect_objects_from_boxes self frame cam now)
    as [Hnil|(m & results & os & Hm & Hcall & Hos & Heq)].
  - rewrite Hnil. intros Ho. by apply elem_of_nil in Ho.
  - rewrite Heq. apply mapM_Some_1 in Hos.
    intros Ho. apply list_elem_of_filter in Ho as [_ Ho].
    apply list_elem_of_lookup in Ho as [i Hi].
    destruct (Forall2_lookup_r _ _ _ _ _ Hos Hi) as (box & _ & Hbox).
    destruct (detection_of_fresh m cam now box o Hbox) as (H1 & H2 & _). auto.
Qed.

(** Detection and identity assignment leave every object without a
    position. *)
Lemma track_source_positions (self : @ObjectTracker Frame) (frame : option Frame)
    (cam : string) (now : Q) (o : DetectedObject) :
  o ∈ store (track_source self frame cam now) -> position_3d o = None.
Proof.
  unfold track_source. destruct frame as [f|];
    [|intros Ho; by apply elem_of_nil in Ho].
  intros Ho. apply list_elem_of_lookup in Ho as [i Hi].
  destruct (update_deepsort_tracking_shape self f
              (detect_objects self f cam now) cam) as (_ & Hobj & _).
  destruct (Hobj i o Hi) as (o0 & Hi0 & (_ & _ & _ & _ & _ & Hpos)).
  rewrite Hpos. eapply detect_objects_positions.
  apply list_elem_of_lookup. eauto.
Qed.

(** X19.  Positions are only estimated when both sources return
    objects: if the list of either source is empty at the end of a
    cycle, no object of the cycle has a 3D position. *)
Theorem track_objects_no_fusion (self : @ObjectTracker Frame)
    (frame1 frame2 : option Frame) (now : Q) (out : CycleOutput) :
  track_objects self frame1 frame2 now = Ok out ->
  out_camera1 out = [] \/ out_camera2 out = [] ->
  forall o, o ∈ out_store1 out \/ o ∈ out_store2 out -> position_3d o = None.
Proof.
  unfold track_objects.
  set (st1 := track_source self frame1 "camera1" now).
  set (st2 := track_source (with_history self (history st1)) frame2 "camera2" now).
  destruct (bool_decide (tracked_objects st1 = [])) eqn:E1;
    destruct (bool_decide (tracked_objects st2 = [])) eqn:E2; cbn [negb andb].
  4: { destruct (_calculate_3d_positions _ _ _ _) as [stores|e]; cbn [rbind];
         [|discriminate].
       intros [= <-]. cbn [out_camera1 out_camera2].
       apply bool_decide_eq_false in E1, E2. intros [H|H]; contradiction. }
  all: intros [= <-] _ o [Ho|Ho]; cbn [out_store1 out_store2] in Ho;
    eapply track_source_positions; exact Ho.
Qed.

Lemma track_source_no_detection (self : @ObjectTracker Frame) (f : Frame)
    (cam : string) (now : Q) :
  detect_objects self f cam now = [] ->
  track_source self (Some f) cam now = mkTrackingState [] [] (object_history self).
Proof.
  intros Hd. unfold track_source. rewrite Hd. unfold _update_deepsort_tracking.
  destruct (trackers self !! cam) as [tracker|]; [|reflexivity].
  destruct (tracker _ f) as [tracks|e]; [|reflexivity].
  rewrite track_loop_run, run_tracks_empty_store; reflexivity.
Qed.

(** X20.  Without a detector (its initialisation failed and left
    [yolo_model] at [None]) a cycle returns two empty lists, whatever
    the frames and the trackers, and leaves the history as it was. *)
Theorem track_objects_without_detector (self : @ObjectTracker Frame)
    (frame1 frame2 : option Frame) (now : Q) :
  yolo_model self = None ->
  track_objects self frame1 frame2 now =
    Ok (mkCycleOutput [] [] [] [] (object_history self)).
Proof.
  intros Hm.
  assert (Hsrc : forall (h : gmap Z (list DetectedObject)) frame cam,
            track_source (with_history self h) frame cam now =
              mkTrackingState [] [] h).
  { intros h frame cam. destruct frame as [f|]; [|reflexivity].
    apply (track_source_no_detection (with_history self h)).
    unfold detect_objects. cbn [yolo_model with_history]. rewrite Hm. reflexivity. }
  unfold track_objects.
  assert (H1 : track_source self frame1 "camera1" now =
               mkTrackingState [] [] (object_history self)).
  { destruct frame1 as [f|]; [|reflexivity].
    apply track_source_no_detection.
    unfold detect_objects. rewrite Hm. reflexivity. }
  rewrite H1. cbn [history]. rewrite Hsrc. reflexivity.
Qed.

End Fusion.

(** ** Matching across the two sources *)

Lemma gap_ratio_nonneg (g : Z) :
  0 <= g -> (0 <= inject_Z g / inject_Z FRAME_HEIGHT)%Q.
Proof.
  intros Hg. apply Qle_shift_div_l; [reflexivity|].
  rewrite Qmult_0_l. unfold Qle, inject_Z. simpl. lia.
Qed.

Lemma gap_ratio_lt (g g' : Z) :
  (inject_Z g / inject_Z FRAME_HEIGHT < inject_Z g' / inject_Z FRAME_HEIGHT)%Q
  <-> g < g'.
Proof.
  unfold Qlt, Qdiv, Qmult, Qinv, inject_Z, FRAME_HEIGHT. simpl. lia.
Qed.

Lemma similarity_of_pos (g : Z) : 0 <= g -> (0 < similarity_of g)%Q.
Proof.
  intros Hg. pose proof (gap_ratio_nonneg g Hg) as Hr. unfold similarity_of.
  set (a := (inject_Z g / inject_Z FRAME_HEIGHT)%Q) in *. clearbody a.
  apply Qlt_shift_div_l; lra.
Qed.

Lemma similarity_of_lt (g g' : Z) :
  0 <= g -> 0 <= g' -> (similarity_of g < similarity_of g')%Q <-> g' < g.
Proof.
  intros Hg Hg'.
  pose proof (gap_ratio_nonneg g Hg) as Hr.
  pose proof (gap_ratio_nonneg g' Hg') as Hr'.
  pose proof (gap_ratio_lt g' g) as Hlt.
  unfold similarity_of.
  set (a := (inject_Z g / inject_Z FRAME_HEIGHT)%Q) in *.
  set (b := (inject_Z g' / inject_Z FRAME_HEIGHT)%Q) in *.
  clearbody a b. unfold Qdiv. rewrite !Qmult_1_l.
  rewrite <- Qinv_lt_contravar by lra.
  rewrite <- Hlt. split; intros H; lra.
Qed.

Lemma similarity_of_threshold (g : Z) :
  0 <= g -> (3 # 10 < similarity_of g)%Q <-> g < 1120.
Proof.
  intros Hg. pose proof (gap_ratio_nonneg g Hg) as Hr.
  pose proof (gap_ratio_lt g 1120) as Hlt.
  assert (H7 : (inject_Z 1120 / inject_Z FRAME_HEIGHT == 7 # 3)%Q) by reflexivity.
  rewrite H7 in Hlt.
  unfold similarity_of.
  set (a := (inject_Z g / inject_Z FRAME_HEIGHT)%Q) in *. clearbody a.
  unfold Qdiv. rewrite Qmult_1_l.
  assert (E : (3 # 10 == / (10 # 3))%Q) by reflexivity.
  rewrite E. rewrite <- Qinv_lt_contravar by lra.
  rewrite <- Hlt. split; intros H; lra.
Qed.

Lemma beats_accept (best_match : option nat) (best_similarity : Q) (bound g : Z) :
  beats best_match best_similarity bound -> 0 <= g ->
  Qltb best_similarity (similarity_of g) && Qltb (3 # 10) (similarity_of g) = true
  <-> g < bound.
Proof.
  intros Hb Hg. rewrite andb_true_iff, !Qltb_lt.
  rewrite (similarity_of_threshold g Hg).
  destruct Hb as [(_ & -> & ->)|(_ & -> & Hbound)].
  - pose proof (similarity_of_pos g Hg). tauto.
  - rewrite (similarity_of_lt bound g) by lia. lia.
Qed.

Lemma similarity_loop_spec (obj1 : DetectedObject) (store2 : list DetectedObject)
    (objects2 : list nat) :
  forall best_match best_similarity bound,
    beats best_match best_similarity bound ->
    exists r,
      similarity_loop obj1 store2 objects2 best_match best_similarity = Ok r /\
      ((r = best_match /\
        forall r' o', candidate obj1 store2 objects2 r' o' ->
                      bound <= vertical_gap obj1 o')
       \/
       (exists r2 o2, r = Some r2 /\ candidate obj1 store2 objects2 r2 o2 /\
          vertical_gap obj1 o2 < bound /\
          forall r' o', candidate obj1 store2 objects2 r' o' ->
                        vertical_gap obj1 o2 <= vertical_gap obj1 o')).
Proof.
  induction objects2 as [|r2 rest IH]; intros bm bs bound Hb.
  - exists bm. split; [reflexivity|]. left. split; [reflexivity|].
    intros r' o' (Hin & _). by apply elem_of_nil in Hin.
  - cbn [similarity_loop].
    assert (Hskip : forall r,
      similarity_loop obj1 store2 rest bm bs = Ok r ->
      (forall o, store2 !! r2 = Some o -> class_name obj1 = class_name o ->
                 bound <= vertical_gap obj1 o) ->
      ((r = bm /\ forall r' o', candidate obj1 store2 rest r' o' ->
                                bound <= vertical_gap obj1 o') \/
       (exists r3 o3, r = Some r3 /\ candidate obj1 store2 rest r3 o3 /\
          vertical_gap obj1 o3 < bound /\
          forall r' o', candidate obj1 store2 rest r' o' ->
                        vertical_gap obj1 o3 <= vertical_gap obj1 o')) ->
      ((r = bm /\ forall r' o', candidate obj1 store2 (r2 :: rest) r' o' ->
                                bound <= vertical_gap obj1 o') \/
       (exists r3 o3, r = Some r3 /\ candidate obj1 store2 (r2 :: rest) r3 o3 /\
          vertical_gap obj1 o3 < bound /\
          forall r' o', candidate obj1 store2 (r2 :: rest) r' o' ->
                        vertical_gap obj1 o3 <= vertical_gap obj1 o'))).
    { intros r _ Hhead [(-> & Hall)|(r3 & o3 & -> & (Hin & Hl & Hc) & Hlt & Hall)].
      - left. split; [reflexivity|].
        intros r' o' (Hin & Hl & Hc). apply elem_of_cons in Hin as [->|Hin].
        + apply (Hhead o' Hl Hc).
        + apply (Hall r' o'). repeat split; assumption.
      - right. exists r3, o3. split; [reflexivity|].
        split; [repeat split; [apply list_elem_of_further|..]; assumption|].
        split; [exact Hlt|].
        intros r' o' (Hin' & Hl' & Hc'). apply elem_of_cons in Hin' as [->|Hin'].
        + specialize (Hhead o' Hl' Hc'). lia.
        + apply (Hall r' o'). repeat split; assumption. }
    destruct (store2 !! r2) as [obj2|] eqn:Hl.
    2: { destruct (IH bm bs bound Hb) as (r & Hrun & Hres).
         exists r. split; [exact Hrun|]. apply Hskip; [exact Hrun| |exact Hres].
         intros o Ho. discriminate. }
    destruct (String.eqb (class_name obj1) (class_name obj2)) eqn:Hclass.
    2: { destruct (IH bm bs bound Hb) as (r & Hrun & Hres).
         exists r. split; [exact Hrun|]. apply Hskip; [exact Hrun| |exact Hres].
         intros o [= <-] Hc. apply String.eqb_neq in Hclass. contradiction. }
    apply String.eqb_eq in Hclass.
    fold (vertical_gap obj1 obj2).
    set (g := vertical_gap obj1 obj2).
    assert (Hg : 0 <= g) by (subst g; unfold vertical_gap; lia).
    rewrite truediv_inject_pos by reflexivity. cbn [rbind].
    pose proof (gap_ratio_nonneg g Hg) as Hratio.
    rewrite truediv_ok by lra. cbn [rbind].
    fold (similarity_of g).
    destruct (Qltb bs (similarity_of g) && Qltb (3 # 10) (similarity_of g)) eqn:Hacc.
    + apply (beats_accept bm bs bound g Hb Hg) in Hacc.
      assert (Hb' : beats (Some r2) (similarity_of g) g).
      { right. split; [eauto|]. split; [reflexivity|].
        destruct Hb as [(_ & _ & ->)|(_ & _ & Hbound)]; lia. }
      destruct (IH (Some r2) (similarity_of g) g Hb')
        as (r & Hrun & [(-> & Hall)|(r3 & o3 & -> & (Hin & Hl3 & Hc3) & Hlt & Hall)]).
      * exists (Some r2). split; [exact Hrun|]. right.
        exists r2, obj2. split; [reflexivity|].
        split; [repeat split; [apply list_elem_of_here|exact Hl|exact Hclass]|].
        split; [exact Hacc|].
        intros r' o' (Hin' & Hl' & Hc'). apply elem_of_cons in Hin' as [->|Hin'].
        -- assert (o' = obj2) by congruence. subst o'. lia.
        -- apply (Hall r' o'). repeat split; assumption.
      * exists (Some r3). split; [exact Hrun|]. right.
        exists r3, o3. split; [reflexivity|].
        split; [repeat split; [apply list_elem_of_further|..]; assumption|].
        split; [lia|].
        intros r' o' (Hin' & Hl' & Hc'). apply elem_of_cons in Hin' as [->|Hin'].
        -- assert (o' = obj2) by congruence. subst o'. fold g. lia.
        -- apply (Hall r' o'). repeat split; assumption.
    + assert (Hge : bound <= g).
      { destruct (Z.lt_ge_cases g bound) as [Hlt|Hge]; [|exact Hge].
        apply (beats_accept bm bs bound g Hb Hg) in Hlt. congruence. }
      destruct (IH bm bs bound Hb) as (r & Hrun & Hres).
      exists r. split; [exact Hrun|]. apply Hskip; [exact Hrun| |exact Hres].
      intros o [= <-] _. exact Hge.
Qed.

(** X21.  For an object of the first source, the fusion picks among
    the second source's objects of the same class the one whose centre
    is vertically nearest, if that distance is below 1120 pixels (the
    score threshold 0.3); it picks none exactly when every such object
    is at least that far. *)
Theorem similarity_match_nearest (obj1 : DetectedObject)
    (store2 : list DetectedObject) (objects2 : list nat) :
  exists r,
    similarity_loop obj1 store2 objects2 None 0%Q = Ok r /\
    match r with
    | Some r2 =>
        exists o2, candidate obj1 store2 objects2 r2 o2 /\
          vertical_gap obj1 o2 < 1120 /\
          forall r' o', candidate obj1 store2 objects2 r' o' ->
                        vertical_gap obj1 o2 <= vertical_gap obj1 o'
    | None =>
        forall r' o', candidate obj1 store2 objects2 r' o' ->
                      1120 <= vertical_gap obj1 o'
    end.
Proof.
  destruct (similarity_loop_spec obj1 store2 objects2 None 0%Q 1120)
    as (r & Hrun & [(-> & Hall)|(r2 & o2 & -> & Hcand & Hlt & Hall)]).
  - left. auto.
  - exists None. auto.
  - exists (Some r2). split; [exact Hrun|]. exists o2. auto.
Qed.

(** ** What the fusion writes *)

Lemma same_but_position_refl (o : DetectedObject) : same_but_position o o.
Proof. repeat split. auto. Qed.

Lemma positions_written_refl (store : list DetectedObject) :
  positions_written store store.
Proof. split; [reflexivity|]. eauto using same_but_position_refl. Qed.

Lemma positions_written_trans (s1 s2 s3 : list DetectedObject) :
  positions_written s1 s2 -> positions_written s2 s3 -> positions_written s1 s3.
Proof.
  intros [Hl1 H1] [Hl2 H2]. split; [congruence|].
  intros i o3 Hi. destruct (H2 i o3 Hi) as (o2 & Hi2 & Hs2).
  destruct (H1 i o2 Hi2) as (o1 & Hi1 & Hs1).
  exists o1. split; [exact Hi1|].
  destruct Hs1 as (?&?&?&?&?&?&?&?), Hs2 as (?&?&?&?&?&?&?&?).
  repeat split; try congruence. auto.
Qed.

Lemma positions_written_insert (store : list DetectedObject) (r : nat)
    (o : DetectedObject) (p : Position3D) :
  store !! r = Some o ->
  positions_written store (<[r := set_position_3d p o]> store).
Proof.
  intros Hr. split; [apply length_insert|].
  intros i o' Hi. destruct (decide (i = r)) as [->|Hne].
  - rewrite list_lookup_insert_eq in Hi by (eapply lookup_lt_Some; exact Hr).
    injection Hi as <-. exists o. split; [exact Hr|]. repeat split. eauto.
  - rewrite list_lookup_insert_ne in Hi by auto.
    exists o'. split; [exact Hi|apply same_but_position_refl].
Qed.

Lemma position_step1_written (store2 : list DetectedObject) (objects2 : list nat)
    (store1 store1' : list DetectedObject) (r1 : nat) :
  position_step1 store2 objects2 store1 r1 = Ok store1' ->
  positions_written store1 store1'.
Proof.
  unfold position_step1. destruct (store1 !! r1) as [obj1|] eqn:Hr;
    [|intros [= <-]; apply positions_written_refl].
  destruct (similarity_loop obj1 store2 objects2 None 0%Q) as [bm|e];
    cbn [rbind]; [|discriminate].
  destruct (match bm ≫= _ with Some _ => _ | None => _ end) as [p|];
    intros [= <-];
    [apply positions_written_insert; exact Hr|apply positions_written_refl].
Qed.

(** The two ways through the body of the loop over the second source. *)
Lemma position_step2_cases (store : list DetectedObject) (r : nat) :
  (position_step2 store r = Ok store /\
   forall o, store !! r = Some o -> is_Some (position_3d o)) \/
  (exists o p,
     store !! r = Some o /\ position_3d o = None /\
     _estimate_single_camera_position o "camera2" = Some p /\
     position_step2 store r = Ok (<[r := set_position_3d p o]> store)).
Proof.
  unfold position_step2. destruct (store !! r) as [o|] eqn:Hr;
    [|left; split; [reflexivity|discriminate]].
  destruct (position_3d o) as [p|] eqn:Hp.
  - left. split; [reflexivity|]. intros o' [= <-]. rewrite Hp. eauto.
  - right. destruct (estimate_single_camera_position_eq o "camera2") as (x & y & Hp').
    rewrite Hp'. exists o, (x, y, estimated_depth (get_area o)). auto.
Qed.

(** The estimate only reads the box. *)
Lemma estimate_single_camera_position_bbox (o o' : DetectedObject) (cam : string) :
  bbox o' = bbox o ->
  _estimate_single_camera_position o' cam = _estimate_single_camera_position o cam.
Proof.
  intros Hb. unfold _estimate_single_camera_position, get_center, get_area.
  rewrite Hb. reflexivity.
Qed.

Lemma estimates_only_insert (store : list DetectedObject) (r : nat)
    (o : DetectedObject) (p : Position3D) :
  _estimate_single_camera_position o "camera2" = Some p ->
  estimates_only store ->
  estimates_only (<[r := set_position_3d p o]> store).
Proof.
  intros Hp Hgood i o' Hi. destruct (decide (i = r)) as [->|Hne].
  - destruct (decide (r < length store)%nat) as [Hlt|Hge].
    + rewrite list_lookup_insert_eq in Hi by exact Hlt. injection Hi as <-.
      right. rewrite (estimate_single_camera_position_bbox o _ "camera2")
        by reflexivity.
      rewrite Hp. reflexivity.
    + rewrite list_insert_ge in Hi by lia. apply (Hgood r o' Hi).
  - rewrite list_lookup_insert_ne in Hi by auto. apply (Hgood i o' Hi).
Qed.

Lemma position_loop2_spec (objects2 : list nat) :
  forall store store',
    estimates_only store ->
    for_each position_step2 objects2 store = Ok store' ->
    estimates_only store' /\ positions_written store store' /\
    forall r o', r ∈ objects2 -> store' !! r = Some o' -> is_Some (position_3d o').
Proof.
  induction objects2 as [|r rest IH]; intros store store' Hgood.
  - simpl. intros [= <-]. split; [exact Hgood|].
    split; [apply positions_written_refl|].
    intros r o' Hr. by apply elem_of_nil in Hr.
  - cbn [for_each].
    destruct (position_step2_cases store r)
      as [[-> Hsome]|(o & p & Hr & Hnone & Hp & ->)]; cbn [rbind]; intros Hrun.
    + destruct (IH store store' Hgood Hrun) as (Hgood' & Hw & Hdone).
      split; [exact Hgood'|]. split; [exact Hw|].
      intros r' o' Hin Hl. apply elem_of_cons in Hin as [->|Hin]; [|eauto].
      destruct Hw as [_ Hw]. destruct (Hw r o' Hl) as (o0 & Hl0 & Hs).
      destruct Hs as (_&_&_&_&_&_&_&Hs). apply Hs. eauto.
    + pose proof (positions_written_insert store r o p Hr) as Hw1.
      destruct (IH _ store' (estimates_only_insert store r o p Hp Hgood) Hrun)
        as (Hgood' & Hw & Hdone).
      split; [exact Hgood'|].
      split; [eapply positions_written_trans; eassumption|].
      intros r' o' Hin Hl. apply elem_of_cons in Hin as [->|Hin]; [|eauto].
      destruct Hw as [_ Hw]. destruct (Hw r o' Hl) as (o0 & Hl0 & Hs).
      destruct Hs as (_&_&_&_&_&_&_&Hs). apply Hs.
      rewrite list_lookup_insert_eq in Hl0 by (eapply lookup_lt_Some; exact Hr).
      injection Hl0 as <-. cbn. eauto.
Qed.

Lemma calculate_3d_positions_written
    (store1 : list DetectedObject) (objects1 : list nat)
    (store2 : list DetectedObject) (objects2 : list nat)
    (store1' store2' : list DetectedObject) :
  _calculate_3d_positions store1 objects1 store2 objects2 = Ok (store1', store2') ->
  positions_written store1 store1' /\ positions_written store2 store2'.
Proof.
  unfold _calculate_3d_positions.
  destruct (for_each (position_step1 store2 objects2) objects1 store1)
    as [s1|e] eqn:H1; cbn [rbind]; [|discriminate].
  destruct (for_each position_step2 objects2 store2) as [s2|e] eqn:H2;
    cbn [rbind]; [|discriminate].
  intros [= <- <-]. split.
  - apply (for_each_invariant (positions_written store1)
             (position_step1 store2 objects2) objects1) with (acc := store1);
      [|apply positions_written_refl|exact H1].
    intros s x s' Hs Hstep. eapply positions_written_trans; [exact Hs|].
    eapply position_step1_written. exact Hstep.
  - apply (for_each_invariant (positions_written store2)
             position_step2 objects2) with (acc := store2);
      [|apply positions_written_refl|exact H2].
    intros s x s' Hs Hstep. eapply positions_written_trans; [exact Hs|].
    destruct (position_step2_cases s x)
      as [[Heq _]|(o & p & Hr & _ & _ & Heq)]; rewrite Heq in Hstep;
      injection Hstep as <-;
      [apply positions_written_refl|apply positions_written_insert; exact Hr].
Qed.

(** X22.  The fusion only writes positions: both stores keep their
    length, every object keeps its box, class, confidence, source, time
    and identity, and an object that had a position still has one. *)
Theorem calculate_3d_positions_writes_positions
    (store1 : list DetectedObject) (objects1 : list nat)
    (store2 : list DetectedObject) (objects2 : list nat)
    (store1' store2' : list DetectedObject) :
  _calculate_3d_positions store1 objects1 store2 objects2 = Ok (store1', store2') ->
  (length store1' = length store1 /\
   forall i o', store1' !! i = Some o' ->
     exists o, store1 !! i = Some o /\ same_but_position o o') /\
  (length store2' = length store2 /\
   forall i o', store2' !! i = Some o' ->
     exists o, store2 !! i = Some o /\ same_but_position o o').
Proof. apply calculate_3d_positions_written. Qed.

Section FusionResults.

Context {Frame : Type}.

Lemma track_source_valid (self : @ObjectTracker Frame) (frame : option Frame)
    (cam : string) (now : Q) (r : nat) :
  r ∈ tracked_objects (track_source self frame cam now) ->
  (r < length (store (track_source self frame cam now)))%nat.
Proof.
  unfold track_source. destruct frame as [f|];
    [|intros Hr; by apply elem_of_nil in Hr].
  apply update_deepsort_tracking_shape.
Qed.

(** X23.  When both sources return objects, every object returned for
    the second source ends the cycle with its single-source estimate
    for ["camera2"] as its position, at a depth between 1 and 10: a
    match found from the first source's side never gives the second
    source's object a triangulated position. *)
Theorem track_objects_second_source_positions (self : @ObjectTracker Frame)
    (frame1 frame2 : option Frame) (now : Q) (out : CycleOutput) :
  track_objects self frame1 frame2 now = Ok out ->
  out_camera1 out <> [] ->
  forall r, r ∈ out_camera2 out ->
    exists o x y z,
      out_store2 out !! r = Some o /\
      position_3d o = _estimate_single_camera_position o "camera2" /\
      position_3d o = Some (x, y, z) /\ (1 <= z)%Q /\ (z <= 10)%Q.
Proof.
  unfold track_objects.
  set (st1 := track_source self frame1 "camera1" now).
  set (st2 := track_source (with_history self (history st1)) frame2 "camera2" now).
  assert (Hgood : estimates_only (store st2)).
  { intros i o Hi. left. eapply track_source_positions.
    apply list_elem_of_lookup. eauto. }
  assert (Hvalid : forall r, r ∈ tracked_objects st2 ->
                             (r < length (store st2))%nat)
    by (intros r; apply track_source_valid).
  destruct (bool_decide (tracked_objects st1 = [])) eqn:E1;
    destruct (bool_decide (tracked_objects st2 = [])) eqn:E2; cbn [negb andb].
  4: { unfold _calculate_3d_positions.
       destruct (for_each (position_step1 _ _) _ _) as [s1|e]; cbn [rbind];
         [|discriminate].
       destruct (for_each position_step2 (tracked_objects st2) (store st2))
         as [s2|e] eqn:H2; cbn [rbind]; [|discriminate].
       intros [= <-] _ r Hr. cbn [out_camera2 out_store2 snd] in *.
       destruct (position_loop2_spec _ _ _ Hgood H2) as (Hgood' & [Hlen _] & Hdone).
       destruct (lookup_lt_is_Some_2 s2 r) as [o Ho];
         [rewrite Hlen; apply Hvalid; exact Hr|].
       destruct (Hdone r o Hr Ho) as [p Hp].
       destruct (Hgood' r o Ho) as [Hnone|Hest]; [congruence|].
       destruct (estimate_single_camera_position_eq o "camera2") as (x & y & Hxy).
       exists o, x, y, (estimated_depth (get_area o)).
       split; [exact Ho|]. split; [exact Hest|].
       split; [congruence|].
       unfold estimated_depth.
       pose proof (depth_factor_range
                     (inject_Z (get_area o) /
                      (inject_Z (FRAME_WIDTH * FRAME_HEIGHT) * (1 # 10)))) as [Hl Hu].
       split; lra. }
  1,2: intros [= <-] Hne; cbn [out_camera1] in Hne;
       apply bool_decide_eq_true in E1; contradiction.
  intros [= <-] _ r Hr. cbn [out_camera2] in Hr.
  apply bool_decide_eq_true in E2. rewrite E2 in Hr. by apply elem_of_nil in Hr.
Qed.

(** X24.  Without trackers (their initialisation failed and left
    [trackers] empty) a cycle returns every detection of each source
    once, in order, and none of them carries an identity. *)
Theorem track_objects_without_trackers (self : @ObjectTracker Frame)
    (frame1 frame2 : option Frame) (now : Q) (out : CycleOutput) :
  trackers self = ∅ ->
  track_objects self frame1 frame2 now = Ok out ->
  out_camera1 out = all_refs (out_store1 out) /\
  out_camera2 out = all_refs (out_store2 out) /\
  forall o, o ∈ out_store1 out \/ o ∈ out_store2 out -> track_id o = None.
Proof.
  intros Hnone.
  assert (Hsrc : forall (h : gmap Z (list DetectedObject)) frame cam,
            let st := track_source (with_history self h) frame cam now in
            tracked_objects st = all_refs (store st) /\
            forall o, o ∈ store st -> track_id o = None).
  { intros h frame cam. unfold track_source. destruct frame as [f|].
    - unfold _update_deepsort_tracking. cbn [trackers with_history].
      rewrite Hnone, lookup_empty. cbn. split; [reflexivity|].
      intros o Ho. eapply detect_objects_positions. exact Ho.
    - cbn. split; [reflexivity|]. intros o Ho. by apply elem_of_nil in Ho. }
  assert (Hself : with_history self (object_history self) = self)
    by (destruct self; reflexivity).
  unfold track_objects.
  pose proof (Hsrc (object_history self) frame1 "camera1") as H1.
  rewrite Hself in H1. cbv zeta in H1.
  set (st1 := track_source self frame1 "camera1" now) in *.
  pose proof (Hsrc (history st1) frame2 "camera2") as H2. cbv zeta in H2.
  set (st2 := track_source (with_history self (history st1)) frame2 "camera2" now) in *.
  destruct H1 as [Hr1 Hid1], H2 as [Hr2 Hid2].
  destruct (_ && _).
  - destruct (_calculate_3d_positions _ _ _ _) as [[s1 s2]|e] eqn:Hfuse;
      cbn [rbind]; [|discriminate].
    destruct (calculate_3d_positions_written _ _ _ _ _ _ Hfuse)
      as [[Hl1 Hw1] [Hl2 Hw2]].
    intros [= <-]. cbn [out_camera1 out_camera2 out_store1 out_store2 fst snd].
    split; [rewrite Hr1; unfold all_refs; congruence|].
    split; [rewrite Hr2; unfold all_refs; congruence|].
    intros o [Ho|Ho]; apply list_elem_of_lookup in Ho as [i Hi].
    + destruct (Hw1 i o Hi) as (o0 & Hi0 & (_&_&_&_&_&_&Hid&_)).
      rewrite Hid. apply Hid1. apply list_elem_of_lookup. eauto.
    + destruct (Hw2 i o Hi) as (o0 & Hi0 & (_&_&_&_&_&_&Hid&_)).
      rewrite Hid. apply Hid2. apply list_elem_of_lookup. eauto.
  - intros [= <-]. cbn. split; [exact Hr1|]. split; [exact Hr2|].
    intros o [Ho|Ho]; auto.
Qed.

End FusionResults.

(** ** The extremes of the intersection over union *)

Lemma inject_Z_div_above_gap (i u : Z) :
  1 <= i -> 0 < u < 2 ^ 53 -> (double_gap < inject_Z i / inject_Z u)%Q.
Proof.
  intros Hi Hu.
  apply Qlt_shift_div_l; [unfold Qlt, inject_Z; simpl; lia|].
  unfold double_gap, Qlt, Qmult, inject_Z. cbn [Qnum Qden].
  change (2 ^ 53) with 9007199254740992 in Hu. lia.
Qed.

Lemma inject_Z_div_below_gap (i u : Z) :
  0 <= i < u -> u < 2 ^ 53 -> (inject_Z i / inject_Z u < 1 - double_gap)%Q.
Proof.
  intros Hi Hu.
  apply Qlt_shift_div_r; [unfold Qlt, inject_Z; simpl; lia|].
  unfold double_gap, Qlt, Qminus, Qplus, Qopp, Qmult, inject_Z. cbn [Qnum Qden].
  change (2 ^ 53) with 9007199254740992 in Hu. lia.
Qed.

(** X25.  For two boxes whose union area is below [2^53] (any two
    boxes of a frame): the IoU is 0 when the boxes share no pixel and
    above [2^-53] when they share one, and for two different boxes it
    is below [1 - 2^-53].  The margins are those of a double, so the
    quotient the code computes is positive exactly when the boxes
    share a pixel and is 1 only for two equal boxes. *)
Theorem calculate_iou_extremes (b1 b2 : BBox) (q : Q) :
  _calculate_iou b1 b2 = Ok q ->
  union_area b1 b2 < 2 ^ 53 ->
  (~ overlap b1 b2 -> (q == 0)%Q) /\
  (overlap b1 b2 -> (double_gap < q)%Q) /\
  (b1 <> b2 -> (q < 1 - double_gap)%Q).
Proof.
  pose proof (calculate_iou_cases b1 b2) as H.
  pose proof (intersection_area_bounds b1 b2) as Hb.
  destruct b1 as [[[x1 y1] w1] h1], b2 as [[[x2 y2] w2] h2].
  pose proof (overlap_iff x1 y1 w1 h1 x2 y2 w2 h2) as Hov.
  cbv zeta in H.
  destruct H as [[Hd H]|[(Hx & Hy & Hu & H)|(Hx & Hy & Hu & H)]];
    rewrite H; intros [= <-] Hsmall.
  - split; [reflexivity|]. split; [|reflexivity].
    intros Ho. apply Hov in Ho. lia.
  - split; [reflexivity|]. split; [|reflexivity].
    intros Ho. apply Hov in Ho. exfalso.
    destruct (Hb Hx Hy) as (H0 & H1 & H2).
    unfold union_area, intersection_area, intersection_box, box_area in *. nia.
  - destruct (Hb Hx Hy) as (H0 & H1 & H2).
    unfold union_area in *.
    unfold intersection_area, intersection_box, box_area in *.
    set (a := Z.min (x1 + w1) (x2 + w2) - Z.max x1 x2) in *.
    set (b := Z.min (y1 + h1) (y2 + h2) - Z.max y1 y2) in *.
    assert (0 <= a /\ a <= w1 /\ a <= w2) as (Ha0 & Ha1 & Ha2) by (subst a; lia).
    assert (0 <= b /\ b <= h1 /\ b <= h2) as (Hb0 & Hb1 & Hb2) by (subst b; lia).
    split; [|split].
    + intros Hno.
      assert (Hz : a * b = 0).
      { destruct (Z.eq_dec a 0) as [->|Ea]; [lia|].
        destruct (Z.eq_dec b 0) as [->|Eb]; [lia|].
        exfalso. apply Hno, Hov. subst a b. lia. }
      rewrite Hz. unfold Qdiv. apply Qmult_0_l.
    + intros Ho. apply Hov in Ho.
      assert (0 < a /\ 0 < b) as [Hap Hbp] by (subst a b; lia).
      apply inject_Z_div_above_gap; [nia|lia].
    + intros Hne. apply inject_Z_div_below_gap; [|exact Hsmall].
      split; [exact H0|].
      destruct (Z.eq_dec (a * b) (w1 * h1 + w2 * h2 - a * b)) as [Hone|Hlt]; [|lia].
      exfalso. apply Hne.
      assert (Hab : a * b = w1 * h1 /\ a * b = w2 * h2) by lia.
      destruct Hab as [Hab1 Hab2].
      assert (Hpos : 0 < a * b) by lia.
      assert (0 < a /\ 0 < b) as [Hap Hbp] by nia.
      assert (a = w1) by nia. assert (b = h1) by nia.
      assert (a = w2) by nia. assert (b = h2) by nia.
      assert (x1 = x2) by (subst a; lia). assert (y1 = y2) by (subst b; lia).
      congruence.
Qed.

(** ** Where an object is drawn *)

Lemma py_int_pos (q : Q) : (0 <= q)%Q -> py_int q = Qfloor q.
Proof.
  intros Hq. unfold py_int. destruct (Qltb q 0) eqn:E; [|reflexivity].
  apply Qltb_lt in E. lra.
Qed.

Lemma Qfloor_lt_iff (q : Q) (n : Z) : Qfloor q < n <-> (q < inject_Z n)%Q.
Proof.
  pose proof (Qfloor_le q) as Hle. pose proof (Qlt_floor q) as Hlt. split.
  - intros H. assert (Hn : (inject_Z (Qfloor q + 1) <= inject_Z n)%Q)
      by (rewrite <- Zle_Qle; lia).
    lra.
  - intros H. rewrite Zlt_Qlt. lra.
Qed.

(** The radius of the mark of an object at depth [z]. *)
Lemma marker_size_cases (z : Q) :
  (0 <= z)%Q ->
  exists ratio size,
    truediv 20 (z + (1 # 10)) = Ok ratio /\
    size = py_max_int 5 (py_int ratio) /\
    5 <= size <= 200 /\
    ((1 <= z)%Q -> size <= 18) /\
    ((33 # 10 <= z)%Q -> size = 5) /\
    ((z <= 16 # 5)%Q -> 6 <= size).
Proof.
  intros Hz. exists (20 / (z + (1 # 10)))%Q, (py_max_int 5 (py_int (20 / (z + (1 # 10))))).
  split; [apply truediv_ok; lra|]. split; [reflexivity|].
  set (ratio := (20 / (z + (1 # 10)))%Q).
  assert (Hden : (0 < z + (1 # 10))%Q) by lra.
  assert (Hr0 : (0 < ratio)%Q)
    by (apply Qlt_shift_div_l; [exact Hden|lra]).
  assert (Hr201 : (ratio < 201)%Q)
    by (apply Qlt_shift_div_r; [exact Hden|lra]).
  assert (Hr19 : (1 <= z)%Q -> (ratio < 19)%Q)
    by (intros H1; apply Qlt_shift_div_r; [exact Hden|lra]).
  assert (Hr6 : (33 # 10 <= z)%Q -> (ratio < 6)%Q)
    by (intros H1; apply Qlt_shift_div_r; [exact Hden|lra]).
  assert (Hr6' : (z <= 16 # 5)%Q -> (6 <= ratio)%Q)
    by (intros H1; apply Qle_shift_div_l; [exact Hden|lra]).
  rewrite py_int_pos by lra.
  assert (Hf201 : Qfloor ratio < 201)
    by (apply (Qfloor_lt_iff ratio 201)%Z; exact Hr201).
  assert (Hf19 : (ratio < 19)%Q -> Qfloor ratio < 19)
    by (intros H; apply (Qfloor_lt_iff ratio 19)%Z; exact H).
  assert (Hf6 : (ratio < 6)%Q -> Qfloor ratio < 6)
    by (intros H; apply (Qfloor_lt_iff ratio 6)%Z; exact H).
  assert (Hf6' : (6 <= ratio)%Q -> 6 <= Qfloor ratio).
  { intros H. destruct (Z.lt_ge_cases (Qfloor ratio) 6) as [Hlt|Hge]; [|exact Hge].
    apply (Qfloor_lt_iff ratio 6)%Z in Hlt. unfold inject_Z in Hlt. lra. }
  unfold py_max_int. destruct (Z.ltb_spec 5 (Qfloor ratio)) as [H5|H5].
  - split; [lia|]. split; [intros H1; apply Hr19, Hf19 in H1; lia|].
    split; [intros H1; apply Hr6, Hf6 in H1; lia|]. intros _. lia.
  - split; [lia|]. split; [intros _; lia|].
    split; [reflexivity|]. intros H1. apply Hr6', Hf6' in H1. lia.
Qed.

(** A deeper object gets a mark that is not larger. *)
Lemma marker_size_antitone (z z' : Q) :
  (0 <= z)%Q -> (z <= z')%Q ->
  py_max_int 5 (py_int (20 / (z' + (1 # 10)))) <=
  py_max_int 5 (py_int (20 / (z + (1 # 10)))).
Proof.
  intros Hz Hle.
  assert (Hden : (0 < z + (1 # 10))%Q) by lra.
  assert (Hden' : (0 < z' + (1 # 10))%Q) by lra.
  assert (Hr : (0 < 20 / (z + (1 # 10)))%Q)
    by (apply Qlt_shift_div_l; [exact Hden|lra]).
  assert (Hr' : (0 < 20 / (z' + (1 # 10)))%Q)
    by (apply Qlt_shift_div_l; [exact Hden'|lra]).
  assert (Hratio : (20 / (z' + (1 # 10)) <= 20 / (z + (1 # 10)))%Q).
  { apply Qle_shift_div_r; [exact Hden'|].
    assert (He : (20 / (z + (1 # 10)) * (z + (1 # 10)) == 20)%Q) by (field; lra).
    assert (Hm : (20 / (z + (1 # 10)) * (z + (1 # 10)) <=
                  20 / (z + (1 # 10)) * (z' + (1 # 10)))%Q).
    { rewrite !(Qmult_comm (20 / (z + (1 # 10)))).
      apply Qmult_le_compat_r; lra. }
    lra. }
  rewrite !py_int_pos by lra.
  pose proof (Qfloor_resp_le _ _ Hratio) as Hfl.
  unfold py_max_int.
  destruct (Z.ltb_spec 5 (Qfloor (20 / (z' + (1 # 10)))));
    destruct (Z.ltb_spec 5 (Qfloor (20 / (z + (1 # 10))))); lia.
Qed.

Lemma marker_radius_square (cx cy size : Z) (fill_ : string) (at_ : Z * Z)
    (text_ : string) :
  marker_radius
    (mkObjectDrawing (cx - size, cy - size, cx + size, cy + size) fill_ at_ text_)
  = size.
Proof.
  unfold marker_radius. cbn [oval].
  replace (cx + size - (cx - size)) with (size * 2) by lia.
  apply Z.div_mul. discriminate.
Qed.

(** What is drawn for an object that has a position. *)
Lemma draw_object_3d_positioned (obj : DetectedObject) (cam : option string)
    (x y z : Q) :
  position_3d obj = Some (x, y, z) ->
  (0 <= z)%Q ->
  exists d cx cy,
    _draw_object_3d obj cam = Ok d /\
    marker_radius d = py_max_int 5 (py_int (20 / (z + (1 # 10)))) /\
    oval d = (cx - marker_radius d, cy - marker_radius d,
              cx + marker_radius d, cy + marker_radius d) /\
    text_at d = (cx, cy - marker_radius d - 10).
Proof.
  intros Hp Hz.
  unfold _draw_object_3d. rewrite Hp. cbn [rbind].
  rewrite truediv_ok by lra. cbn [rbind].
  eexists _, _, _. split; [reflexivity|].
  rewrite marker_radius_square. cbn [oval text_at]. repeat split.
Qed.

(** X26.  An object with a position at a depth [z >= 0] is always
    drawn: as a square mark around a centre, labelled 10 pixels above
    it.  The radius of the mark lies between 5 and 200; it is at most
    18 from one meter on, the minimum 5 from 3.3 m on and at least 6 up
    to 3.2 m; and a deeper object never gets a larger mark.  (The
    bounds are taken away from the depths where the radius steps, so
    that they hold of the rounded doubles as of the exact values.) *)
Theorem draw_object_3d_marker (obj : DetectedObject) (cam : option string)
    (x y z : Q) :
  position_3d obj = Some (x, y, z) ->
  (0 <= z)%Q ->
  exists d cx cy,
    _draw_object_3d obj cam = Ok d /\
    oval d = (cx - marker_radius d, cy - marker_radius d,
              cx + marker_radius d, cy + marker_radius d) /\
    text_at d = (cx, cy - marker_radius d - 10) /\
    5 <= marker_radius d <= 200 /\
    ((1 <= z)%Q -> marker_radius d <= 18) /\
    ((33 # 10 <= z)%Q -> marker_radius d = 5) /\
    ((z <= 16 # 5)%Q -> 6 <= marker_radius d) /\
    (forall obj' cam' x' y' z' d',
       position_3d obj' = Some (x', y', z') -> (z <= z')%Q ->
       _draw_object_3d obj' cam' = Ok d' ->
       marker_radius d' <= marker_radius d).
Proof.
  intros Hp Hz.
  destruct (draw_object_3d_positioned obj cam x y z Hp Hz)
    as (d & cx & cy & Hd & Hr & Hoval & Htext).
  destruct (marker_size_cases z Hz)
    as (ratio & size & Hdiv & Hsize & Hrange & H18 & H5 & H6).
  rewrite truediv_ok in Hdiv by lra. injection Hdiv as <-.
  rewrite <- Hr in Hsize. subst size.
  exists d, cx, cy. split; [exact Hd|]. split; [exact Hoval|].
  split; [exact Htext|]. split; [exact Hrange|]. split; [exact H18|].
  split; [exact H5|]. split; [exact H6|].
  intros obj' cam' x' y' z' d' Hp' Hle Hd'.
  destruct (draw_object_3d_positioned obj' cam' x' y' z' Hp' ltac:(lra))
    as (d0 & _ & _ & Hd0 & Hr0 & _).
  rewrite Hd' in Hd0. injection Hd0 as <-.
  rewrite Hr, Hr0. apply marker_size_antitone; assumption.
Qed.

(** X27.  An object without a position is drawn all the same, never
    raising; for the sources ["camera1"] and ["camera2"] it is drawn
    exactly as if it carried the tracker's single-source estimate. *)
Theorem draw_object_3d_fallback (obj : DetectedObject) (cam : option string) :
  position_3d obj = None ->
  (exists d, _draw_object_3d obj cam = Ok d) /\
  forall c, cam = Some c -> c = "camera1" \/ c = "camera2" ->
    exists p,
      _estimate_single_camera_position obj c = Some p /\
      _draw_object_3d obj cam = _draw_object_3d (set_position_3d p obj) cam.
Proof.
  intros Hnone.
  assert (Hfb : exists x y,
            drawing_fallback_position obj cam =
              Ok (x, y, estimated_depth (get_area obj)) /\
            forall c, cam = Some c -> c = "camera1" \/ c = "camera2" ->
              _estimate_single_camera_position obj c =
                Some (x, y, estimated_depth (get_area obj))).
  { unfold drawing_fallback_position, _estimate_single_camera_position.
    rewrite normalize_width, normalize_height. cbn [rbind].
    rewrite truediv_ok by (vm_compute; discriminate). cbn [rbind].
    rewrite !truediv_ok by discriminate. cbn [rbind].
    destruct (bool_decide (cam = Some "camera1")) eqn:E1;
      [|destruct (bool_decide (cam = Some "camera2")) eqn:E2].
    - apply bool_decide_eq_true in E1. subst cam.
      eexists _, _. split; [reflexivity|].
      intros c [= <-] _. reflexivity.
    - apply bool_decide_eq_true in E2. subst cam.
      eexists _, _. split; [reflexivity|].
      intros c [= <-] _. reflexivity.
    - apply bool_decide_eq_false in E1. apply bool_decide_eq_false in E2.
      eexists _, _. split; [reflexivity|].
      intros c -> [->| ->]; congruence. }
  destruct Hfb as (x & y & Hfb & Hest).
  assert (Hz : (0 < estimated_depth (get_area obj))%Q).
  { unfold estimated_depth.
    pose proof (depth_factor_range
                  (inject_Z (get_area obj) /
                   (inject_Z (FRAME_WIDTH * FRAME_HEIGHT) * (1 # 10)))) as [Hl Hu].
    lra. }
  destruct (marker_size_cases _ (Qlt_le_weak _ _ Hz)) as (ratio & size & Hdiv & _).
  split.
  - unfold _draw_object_3d. rewrite Hnone, Hfb. cbn [rbind].
    rewrite Hdiv. cbn [rbind]. eauto.
  - intros c Hc Hcam. eexists. split; [apply (Hest c Hc Hcam)|].
    unfold _draw_object_3d. rewrite Hnone, Hfb. reflexivity.
Qed.

Lemma py_int_comp (q q' : Q) : (q == q')%Q -> py_int q = py_int q'.
Proof.
  intros H. unfold py_int.
  assert (Hb : Qltb q 0 = Qltb q' 0).
  { destruct (Qltb q 0) eqn:E1, (Qltb q' 0) eqn:E2; try reflexivity;
      [apply Qltb_lt in E1; apply Qltb_ge in E2
      |apply Qltb_ge in E1; apply Qltb_lt in E2]; lra. }
  rewrite Hb. destruct (Qltb q' 0);
    [apply Qceiling_comp|apply Qfloor_comp]; exact H.
Qed.

Lemma estimated_depth_pos (area : Z) : (0 < estimated_depth area)%Q.
Proof.
  unfold estimated_depth.
  pose proof (depth_factor_range
                (inject_Z area /
                 (inject_Z (FRAME_WIDTH * FRAME_HEIGHT) * (1 # 10)))) as [Hl Hu].
  lra.
Qed.

(** X28.  An object without a position whose box is centred
    horizontally in its image is drawn in the column of the mark of
    its camera, whatever its size: 25 pixels left of the middle of the
    canvas for ["camera1"], 25 pixels right of it for ["camera2"]. *)
Theorem draw_object_3d_camera_column (obj : DetectedObject) :
  position_3d obj = None ->
  fst (get_center obj) = FRAME_WIDTH / 2 ->
  exists d1 d2,
    _draw_object_3d obj (Some "camera1") = Ok d1 /\
    _draw_object_3d obj (Some "camera2") = Ok d2 /\
    fst (text_at d1) = fst camera_columns /\
    fst (text_at d2) = snd camera_columns /\
    fst camera_columns = CANVAS_WIDTH / 2 - 25 /\
    snd camera_columns = CANVAS_WIDTH / 2 + 25.
Proof.
  intros Hnone Hc.
  destruct (marker_size_cases _ (Qlt_le_weak _ _ (estimated_depth_pos (get_area obj))))
    as (ratio & size & Hdiv & _).
  unfold estimated_depth in Hdiv.
  assert (Hx0 : (normalized (FRAME_WIDTH / 2) FRAME_WIDTH == 0)%Q) by reflexivity.
  unfold _draw_object_3d, drawing_fallback_position.
  rewrite Hnone, Hc, normalize_width, normalize_height. cbn [rbind].
  rewrite truediv_ok by (vm_compute; discriminate). cbn [rbind].
  rewrite !truediv_ok by discriminate.
  rewrite (bool_decide_eq_true_2 (Some "camera1" = Some "camera1")) by reflexivity.
  rewrite (bool_decide_eq_false_2 (Some "camera2" = Some "camera1")) by discriminate.
  rewrite (bool_decide_eq_true_2 (Some "camera2" = Some "camera2")) by reflexivity.
  cbn [rbind]. rewrite Hdiv. cbn [rbind].
  eexists _, _. split; [reflexivity|]. split; [reflexivity|].
  cbn [text_at fst].
  split; [|split; [|split; reflexivity]].
  - rewrite (py_int_comp _ (- (25))%Q); [reflexivity|].
    rewrite Hx0, Qmult_0_l. reflexivity.
  - rewrite (py_int_comp _ 25%Q); [reflexivity|].
    rewrite Hx0, Qmult_0_l. reflexivity.
Qed.

(** ** The status line and the refresh of the cameras *)

Section Status.

Context {Frame : Type}.

Lemma status_fps_of_slot (m : @CameraManager Frame) (k : string) :
  (0 < default 0 (info_fps <$> get_camera_info m !! k))%Q ->
  exists s, cameras m !! k = Some (Some s) /\
    default 0%Q (info_fps <$> get_camera_info m !! k) = get_fps s.
Proof.
  unfold get_camera_info. rewrite lookup_fmap.
  destruct (cameras m !! k) as [[s|]|]; cbn; intros H.
  - eauto.
  - exfalso. lra.
  - exfalso. lra.
Qed.

Lemma status_fps_of_absent (m : @CameraManager Frame) (k : string) :
  cameras m !! k = None \/ cameras m !! k = Some None \/
  (exists s, cameras m !! k = Some (Some s) /\ (get_fps s <= 0)%Q) ->
  Qltb 0 (default 0%Q (info_fps <$> get_camera_info m !! k)) = false.
Proof.
  unfold get_camera_info. rewrite lookup_fmap.
  intros [->|[->|(s & -> & Hs)]]; cbn; [reflexivity|reflexivity|].
  apply Qltb_ge. exact Hs.
Qed.

(** X29.  The average shown by the FPS label is always computed
    without error.  It is 0 as soon as one of the two slots is
    missing, holds a disabled camera, or holds a stream whose rate is
    not positive; it is the mean of the two rates when both slots hold
    a stream with a positive rate; so it is positive only then. *)
Theorem status_avg_fps_positive (m : @CameraManager Frame) :
  exists q, status_avg_fps m = Ok q /\
    (forall k, k = "camera1" \/ k = "camera2" ->
       cameras m !! k = None \/ cameras m !! k = Some None \/
       (exists s, cameras m !! k = Some (Some s) /\ (get_fps s <= 0)%Q) ->
       q = 0%Q) /\
    (forall s1 s2,
       cameras m !! "camera1" = Some (Some s1) ->
       cameras m !! "camera2" = Some (Some s2) ->
       (0 < get_fps s1)%Q -> (0 < get_fps s2)%Q ->
       q = ((get_fps s1 + get_fps s2) / 2)%Q) /\
    ((0 < q)%Q ->
     exists s1 s2,
       cameras m !! "camera1" = Some (Some s1) /\
       cameras m !! "camera2" = Some (Some s2) /\
       (0 < get_fps s1)%Q /\ (0 < get_fps s2)%Q /\
       q = ((get_fps s1 + get_fps s2) / 2)%Q).
Proof.
  unfold status_avg_fps. cbv zeta.
  pose proof (status_fps_of_absent m "camera1") as Habs1.
  pose proof (status_fps_of_absent m "camera2") as Habs2.
  destruct (Qltb 0 (default 0%Q (info_fps <$> get_camera_info m !! "camera1")))
    eqn:E1; cbn [andb].
  - destruct (Qltb 0 (default 0%Q (info_fps <$> get_camera_info m !! "camera2")))
      eqn:E2.
    + apply Qltb_lt in E1. apply Qltb_lt in E2.
      destruct (status_fps_of_slot m "camera1" E1) as (s1 & H1 & F1).
      destruct (status_fps_of_slot m "camera2" E2) as (s2 & H2 & F2).
      rewrite F1, F2 in *. rewrite truediv_ok by discriminate.
      eexists. split; [reflexivity|]. split; [|split].
      * intros k [-> | ->] Hk;
          [specialize (Habs1 Hk)|specialize (Habs2 Hk)]; discriminate.
      * intros t1 t2 Ht1 Ht2 _ _.
        rewrite H1 in Ht1. rewrite H2 in Ht2.
        injection Ht1 as <-. injection Ht2 as <-. reflexivity.
      * intros _. exists s1, s2. auto 6.
    + exists 0%Q. split; [reflexivity|]. split; [auto|]. split.
      * intros s1 s2 _ H2 _ Hp2. exfalso.
        unfold get_camera_info in E2. rewrite lookup_fmap, H2 in E2. cbn in E2.
        apply Qltb_ge in E2. lra.
      * intros H. exfalso. lra.
  - exists 0%Q. split; [reflexivity|]. split; [auto|]. split.
    + intros s1 s2 H1 _ Hp1 _. exfalso.
      unfold get_camera_info in E1. rewrite lookup_fmap, H1 in E1. cbn in E1.
      apply Qltb_ge in E1. lra.
    + intros H. exfalso. lra.
Qed.

(** X30.  A refresh that fails leaves the manager without any camera,
    whatever it held before: it is not running, both slots are gone,
    [get_frames] gives [(None, None)], the health snapshot is empty
    and the FPS label shows 0. *)
Theorem refresh_cameras_failure (w : World) (c1 c2 : CameraConfig)
    (m : @CameraManager Frame) :
  snd (_refresh_cameras w c1 c2 m) = false ->
  let m' := fst (_refresh_cameras w c1 c2 m) in
  running m' = false /\ cameras m' = ∅ /\
  get_frames m' = Ok (None, None) /\
  get_camera_info m' = ∅ /\
  status_avg_fps m' = Ok 0%Q.
Proof.
  unfold _refresh_cameras.
  destruct (initialize_cameras_cases w c1 c2 (stop_all m))
    as [(_ & _ & ->)|(_ & ->)]; cbn [fst snd]; [discriminate|].
  intros _. repeat split.
Qed.

End Status.

(** * Instances of the further properties *)

Lemma update_counter_bound_witness :
  exists s' n, _update demo_stream demo_reads = (s', Running n) /\ 0 <= n <= 9.
Proof.
  exists (fst (_update demo_stream demo_reads)), 2. split; [reflexivity|].
  exact (update_counter_bound demo_stream (fst (_update demo_stream demo_reads))
           demo_reads 2 eq_refl).
Defined.

Lemma update_stores_latest_frame_witness :
  exists s' n,
    _update demo_stream demo_reads = (s', Running n) /\
    get_frame s' = Some 6%nat /\ fps_counter s' = 1.
Proof.
  exists (fst (_update demo_stream demo_reads)), 2. split; [reflexivity|].
  exact (update_stores_latest_frame demo_stream (fst (_update demo_stream demo_reads))
           demo_reads 2 eq_refl).
Defined.

Lemma update_never_clears_frame_witness :
  is_Some (get_frame (set_frame 6%nat 0 demo_stream)) /\
  is_Some (get_frame (fst (_update (set_frame 6%nat 0 demo_stream) demo_outcomes))).
Proof.
  assert (H : is_Some (get_frame (set_frame 6%nat 0 demo_stream)))
    by (eexists; reflexivity).
  split; [exact H|].
  exact (update_never_clears_frame (set_frame 6%nat 0 demo_stream) demo_outcomes H).
Defined.

Lemma start_url_address_witness :
  exists a,
    _shot_jpg_url (fst (start demo_world demo_new_url_stream)) = Some a /\
    has_shot_jpg_url (fst (start demo_world demo_new_url_stream)) = true /\
    polling_address a.
Proof.
  apply (start_url_address demo_world demo_new_url_stream eq_refl).
  intros a Ha. discriminate Ha.
Defined.

Lemma disabled_slot_stays_absent_witness :
  (let m' := fst (run_acquisition "camera1" demo_outcomes demo_manager) in
   (exists f1, get_frames m' = Ok (f1, None)) /\
   get_camera_info m' !! "camera2" =
     Some (mkCameraInfo 0 false "disabled" "disabled" "Disabled")) /\
  (let m' := fst (run_acquisition "camera2" demo_outcomes
                    (fst (initialize_cameras demo_world demo_config2 demo_config1
                            new_CameraManager))) in
   (exists f2, get_frames m' = Ok (None, f2)) /\
   get_camera_info m' !! "camera1" =
     Some (mkCameraInfo 0 false "disabled" "disabled" "Disabled")).
Proof.
  split.
  - exact (proj2 (disabled_slot_stays_absent demo_world demo_config1 demo_config2
                    new_CameraManager "camera1" demo_outcomes eq_refl) eq_refl).
  - exact (proj1 (disabled_slot_stays_absent demo_world demo_config2 demo_config1
                    new_CameraManager "camera2" demo_outcomes eq_refl) eq_refl).
Defined.

Lemma get_center_inside_witness :
  inside (bbox demo_obj1) (fst (get_center demo_obj1)) (snd (get_center demo_obj1)).
Proof.
  apply (get_center_inside demo_obj1). simpl. lia.
Defined.

Lemma update_deepsort_tracking_count_witness :
  (length (tracked_objects
             (_update_deepsort_tracking demo_tracker 0%nat [demo_obj1; demo_obj2]
                "camera1")) <= 3)%nat.
Proof.
  exact (update_deepsort_tracking_count demo_tracker 0%nat [demo_obj1; demo_obj2]
           "camera1" demo_deepsort demo_tracks eq_refl eq_refl).
Defined.

Lemma track_objects_history_bounded_witness :
  exists out,
    track_objects demo_tracker (Some 0%nat) (Some 0%nat) 0 = Ok out /\
    history_bounded (out_history out).
Proof.
  eexists. split; [vm_compute; reflexivity|].
  apply (track_objects_history_bounded demo_tracker (Some 0%nat) (Some 0%nat) 0);
    [|vm_compute; reflexivity].
  intros k l Hk. discriminate Hk.
Defined.

Lemma track_objects_no_fusion_witness :
  exists out,
    track_objects demo_tracker (Some 0%nat) None 0 = Ok out /\
    out_camera2 out = [] /\
    Forall (fun o => position_3d o = None) (out_store1 out).
Proof.
  eexists. split; [vm_compute; reflexivity|]. split; [reflexivity|].
  apply Forall_forall. intros o Ho.
  apply (track_objects_no_fusion demo_tracker (Some 0%nat) None 0 _
           ltac:(vm_compute; reflexivity) (or_intror eq_refl)).
  left. exact Ho.
Defined.

Lemma track_objects_without_detector_witness :
  track_objects demo_no_detector (Some 0%nat) (Some 0%nat) 0 =
    Ok (mkCycleOutput [] [] [] [] ∅).
Proof.
  exact (track_objects_without_detector demo_no_detector (Some 0%nat) (Some 0%nat) 0
           eq_refl).
Defined.

Lemma calculate_3d_positions_writes_positions_witness :
  exists store1' store2',
    _calculate_3d_positions [demo_obj1] [0%nat] [demo_centred_obj] [0%nat] =
      Ok (store1', store2') /\
    length store1' = 1%nat /\ length store2' = 1%nat.
Proof.
  eexists _, _. split; [vm_compute; reflexivity|].
  destruct (calculate_3d_positions_writes_positions
              [demo_obj1] [0%nat] [demo_centred_obj] [0%nat] _ _
              ltac:(vm_compute; reflexivity)) as [[H1 _] [H2 _]].
  split; [exact H1|exact H2].
Defined.

Lemma track_objects_second_source_positions_witness :
  exists out o x y z,
    track_objects demo_tracker (Some 0%nat) (Some 0%nat) 0 = Ok out /\
    out_camera1 out <> [] /\
    0%nat ∈ out_camera2 out /\
    out_store2 out !! 0%nat = Some o /\
    position_3d o = _estimate_single_camera_position o "camera2" /\
    position_3d o = Some (x, y, z) /\ (1 <= z)%Q /\ (z <= 10)%Q.
Proof.
  eexists.
  assert (Hne : [0%nat; 0%nat] <> []) by discriminate.
  assert (Hin : 0%nat ∈ [0%nat]) by (apply list_elem_of_here).
  destruct (track_objects_second_source_positions demo_tracker
              (Some 0%nat) (Some 0%nat) 0 _ ltac:(vm_compute; reflexivity)
              Hne 0%nat Hin) as (o & x & y & z & Ho & Hest & Hp & Hl & Hu).
  exists o, x, y, z. split; [vm_compute; reflexivity|].
  split; [exact Hne|]. split; [exact Hin|].
  split; [exact Ho|]. split; [exact Hest|]. split; [exact Hp|].
  split; [exact Hl|exact Hu].
Defined.

Lemma track_objects_without_trackers_witness :
  exists out,
    track_objects demo_no_trackers (Some 0%nat) (Some 0%nat) 0 = Ok out /\
    out_camera1 out = [0%nat] /\ out_camera2 out = [0%nat] /\
    Forall (fun o => track_id o = None) (out_store1 out ++ out_store2 out).
Proof.
  eexists. split; [vm_compute; reflexivity|].
  destruct (track_objects_without_trackers demo_no_trackers
              (Some 0%nat) (Some 0%nat) 0 _ eq_refl ltac:(vm_compute; reflexivity))
    as (H1 & H2 & H3).
  split; [exact H1|]. split; [exact H2|].
  apply Forall_forall. intros o Ho. apply H3.
  apply elem_of_app in Ho. exact Ho.
Defined.

Lemma calculate_iou_extremes_witness :
  exists q,
    _calculate_iou (0, 0, 10, 10) (5, 5, 10, 10) = Ok q /\
    (double_gap < q)%Q /\ (q < 1 - double_gap)%Q.
Proof.
  eexists. split; [reflexivity|].
  destruct (calculate_iou_extremes (0, 0, 10, 10) (5, 5, 10, 10) _
              eq_refl eq_refl) as (_ & Hlow & Hhigh).
  split.
  - apply Hlow. exists 5, 5. simpl. lia.
  - apply Hhigh. discriminate.
Defined.

Lemma draw_object_3d_marker_witness :
  exists d cx cy,
    _draw_object_3d demo_placed_obj (Some "camera1") = Ok d /\
    oval d = (cx - marker_radius d, cy - marker_radius d,
              cx + marker_radius d, cy + marker_radius d) /\
    text_at d = (cx, cy - marker_radius d - 10) /\
    marker_radius d = 5.
Proof.
  destruct (draw_object_3d_marker demo_placed_obj (Some "camera1") 0 0 5
              eq_refl ltac:(discriminate))
    as (d & cx & cy & Hd & Hoval & Htext & _ & _ & H5 & _).
  exists d, cx, cy. split; [exact Hd|]. split; [exact Hoval|].
  split; [exact Htext|]. apply H5. discriminate.
Defined.

Lemma draw_object_3d_fallback_witness :
  (exists d, _draw_object_3d demo_obj1 (Some "camera1") = Ok d) /\
  exists p,
    _estimate_single_camera_position demo_obj1 "camera1" = Some p /\
    _draw_object_3d demo_obj1 (Some "camera1") =
      _draw_object_3d (set_position_3d p demo_obj1) (Some "camera1").
Proof.
  destruct (draw_object_3d_fallback demo_obj1 (Some "camera1") eq_refl) as [H1 H2].
  split; [exact H1|].
  exact (H2 "camera1" eq_refl (or_introl eq_refl)).
Defined.

Lemma draw_object_3d_camera_column_witness :
  exists d1 d2,
    _draw_object_3d demo_centred_obj (Some "camera1") = Ok d1 /\
    _draw_object_3d demo_centred_obj (Some "camera2") = Ok d2 /\
    fst (text_at d1) = fst camera_columns /\
    fst (text_at d2) = snd camera_columns /\
    fst camera_columns = CANVAS_WIDTH / 2 - 25 /\
    snd camera_columns = CANVAS_WIDTH / 2 + 25.
Proof.
  exact (draw_object_3d_camera_column demo_centred_obj eq_refl eq_refl).
Defined.

Lemma refresh_cameras_failure_witness :
  let m' := fst (_refresh_cameras dead_world demo_config1 demo_config2 demo_manager) in
  running m' = false /\ cameras m' = ∅ /\
  get_frames m' = Ok (None, None) /\
  get_camera_info m' = ∅ /\
  status_avg_fps m' = Ok 0%Q.
Proof.
  exact (refresh_cameras_failure dead_world demo_config1 demo_config2 demo_manager
           eq_refl).
Defined.

Lemma mjpeg_switch_unreachable_witness :
  let s := fst (start demo_url_world demo_new_url_stream) in
  cap_is_open s = true /\
  cap (fst (_update s demo_mjpeg_errors)) = cap s /\
  _mjpeg_error_count s <= _mjpeg_error_count (fst (_update s demo_mjpeg_errors)).
Proof.
  intros s. split; [reflexivity|].
  destruct (mjpeg_switch_unreachable s demo_mjpeg_errors) as [Hkeep Hstart].
  apply Hkeep.
  exact (Hstart demo_url_world "192.168.1.5:8080" "Cam" "url"
           (or_intror eq_refl) eq_refl).
Defined.

Lemma status_avg_fps_positive_witness :
  exists q,
    status_avg_fps demo_manager = Ok q /\ q = 0%Q.
Proof.
  destruct (status_avg_fps_positive demo_manager) as (q & Hq & Hzero & _).
  exists q. split; [exact Hq|].
  apply (Hzero "camera2" (or_intror eq_refl)). right. left. reflexivity.
Defined.
